(** * BuildThis: the scatter-and-reconstruct animation engine

    A shallow embedding of the front end of the jigsaw application
    (React/TypeScript) and the properties of its placement, shuffling and
    animation code.

    Sources embedded here:
    - [frontend/src/App.tsx]: [shuffleArray], [handleShatter],
      [handleLoadZipPieces], the other handlers of the component
      ([handleImageUpload], [handleZipUpload], [resetState], [handleReset],
      [handleShuffle], [handleRebuild], [handleDownloadPieces]), the piece
      browser ([nextPiece], [prevPiece], [handleKeyPress]) and the memory
      game [LoadingGame];
    - [frontend/src/ScatteredPieces.tsx]: the scatter effect and the rebuild
      transform of the [ScatteredPieces] component, and the images it draws;
    - the [ReconstructionAnimation] component: its scatter effect,
      [startAnimation], [animate], [resetAnimation] and the grid overlay;
    - the animated [App] component: [generateScatteredPositions],
      [startAnimation], [animate], [closeAnimation], [resetState], the timer
      of [handleRebuild], the overlay rendering and the dice game
      [LoadingGame];
    - the first [App] component: [handleUpload], [handleShuffle],
      [handleRebuild] and the modal.

    Conventions.  A JavaScript number is modelled by [number]: an exact
    rational, or one of the three IEEE special values.  Rounding and the sign
    of zero are not modelled, except in [lerp_double], which shows on doubles
    where rounding enters.  [Math.random()] is an oracle [nat -> Q]: its
    k-th call returns the k-th value, and a call counter is threaded through
    the code.  React state is a record, a handler is a function on it, and a
    closure created by a handler (an animation run) is a record of the values
    it captured. *)

From Corelib Require Import PrimFloat.
From Stdlib Require Import QArith Qround Qminmax Qabs Lqa Lia ZArith Bool Ascii.
From stdpp Require Import base option list gmap strings pretty.

Local Open Scope Q_scope.

(** * The model *)

(** ** JavaScript numbers *)

Module Js.

Inductive number : Type :=
| Fin (q : Q)
| PInf
| NInf
| NaN.

(** [q < 0] and [q === 0] on rationals. *)
Definition is_neg (q : Q) : bool := negb (Qle_bool 0 q).
Definition is_zero (q : Q) : bool := Qeq_bool q 0.

(** The infinity of the sign of [q] ([q] is not zero). *)
Definition inf_of_sign (q : Q) : number := if is_neg q then NInf else PInf.

(** [-a] *)
Definition neg (a : number) : number :=
  match a with
  | Fin q => Fin (- q)
  | PInf => NInf
  | NInf => PInf
  | NaN => NaN
  end.

(** [a + b]: opposite infinities give [NaN]. *)
Definition add (a b : number) : number :=
  match a, b with
  | NaN, _ | _, NaN => NaN
  | Fin x, Fin y => Fin (x + y)
  | PInf, NInf | NInf, PInf => NaN
  | PInf, _ | _, PInf => PInf
  | NInf, _ | _, NInf => NInf
  end.

(** [a - b] *)
Definition sub (a b : number) : number := add a (neg b).

(** [a * b]: zero times an infinity gives [NaN]. *)
Definition mul (a b : number) : number :=
  match a, b with
  | NaN, _ | _, NaN => NaN
  | Fin x, Fin y => Fin (x * y)
  | Fin x, PInf | PInf, Fin x => if is_zero x then NaN else inf_of_sign x
  | Fin x, NInf | NInf, Fin x => if is_zero x then NaN else neg (inf_of_sign x)
  | PInf, PInf | NInf, NInf => PInf
  | PInf, NInf | NInf, PInf => NInf
  end.

(** [a / b]: a finite quotient, and the IEEE results for a zero divisor. *)
Definition div (a b : number) : number :=
  match a, b with
  | NaN, _ | _, NaN => NaN
  | Fin x, Fin y =>
      if is_zero y then (if is_zero x then NaN else inf_of_sign x)
      else Fin (x / y)
  | Fin _, (PInf | NInf) => Fin 0
  | PInf, Fin y => inf_of_sign y
  | NInf, Fin y => neg (inf_of_sign y)
  | (PInf | NInf), (PInf | NInf) => NaN
  end.

(** [a < b] *)
Definition lt (a b : number) : bool :=
  match a, b with
  | NaN, _ | _, NaN => false
  | Fin x, Fin y => negb (Qle_bool y x)
  | _, NInf => false
  | NInf, _ => true
  | PInf, _ => false
  | Fin _, PInf => true
  end.

(** [a === b] *)
Definition strict_eq (a b : number) : bool :=
  match a, b with
  | Fin x, Fin y => Qeq_bool x y
  | PInf, PInf | NInf, NInf => true
  | _, _ => false
  end.

(** Truthiness of a number: [0] and [NaN] are falsy. *)
Definition truthy (a : number) : bool :=
  match a with
  | Fin q => negb (is_zero q)
  | NaN => false
  | _ => true
  end.

(** [a || b] on numbers *)
Definition or_else (a b : number) : number := if truthy a then a else b.

(** [Number.isFinite(a)] *)
Definition is_finite (a : number) : bool :=
  match a with Fin _ => true | _ => false end.

Module Math.

(** [Math.abs(a)] *)
Definition abs (a : number) : number :=
  match a with
  | Fin q => Fin (Qabs q)
  | PInf | NInf => PInf
  | NaN => NaN
  end.

(** [Math.min(a, b)]: [NaN] if an argument is, the smaller one otherwise. *)
Definition min2 (a b : number) : number :=
  match a, b with
  | NaN, _ | _, NaN => NaN
  | _, _ => if lt b a then b else a
  end.

(** [Math.min(a, b, c)] *)
Definition min3 (a b c : number) : number := min2 (min2 a b) c.

(** [Math.floor(a)] *)
Definition floor (a : number) : number :=
  match a with
  | Fin q => Fin (inject_Z (Qfloor q))
  | _ => a
  end.

(** [Math.pow(a, 3)] *)
Definition pow3 (a : number) : number := mul a (mul a a).

End Math.

(** The integer part of a rational, rounded towards zero. *)
Definition trunc (q : Q) : Z := Z.quot (Qnum q) (Zpos (Qden q)).

(** [a % b]: the remainder has the sign of the dividend. *)
Definition rem (a b : number) : number :=
  match a, b with
  | Fin x, Fin y =>
      if is_zero y then NaN else Fin (x - y * inject_Z (trunc (x / y)))
  | Fin x, (PInf | NInf) => Fin x
  | _, _ => NaN
  end.

(** Equality of numbers up to the representation of the rational. *)
Definition equiv (a b : number) : Prop :=
  match a, b with
  | Fin x, Fin y => x == y
  | PInf, PInf | NInf, NInf | NaN, NaN => True
  | _, _ => False
  end.

(** [a <= b] as a proposition; [NaN] is related to nothing. *)
Definition le (a b : number) : Prop :=
  match a, b with
  | NaN, _ | _, NaN => False
  | Fin x, Fin y => x <= y
  | NInf, _ | _, PInf => True
  | _, _ => False
  end.

End Js.

Abbreviation number := Js.number.
Abbreviation Fin := Js.Fin.
Coercion Js.Fin : Q >-> Js.number.

Declare Scope js_scope.
Delimit Scope js_scope with js.
Infix "+" := Js.add : js_scope.
Infix "-" := Js.sub : js_scope.
Infix "*" := Js.mul : js_scope.
Infix "/" := Js.div : js_scope.
Infix "<?" := Js.lt : js_scope.
Infix "≈" := Js.equiv (at level 70, no associativity).
Infix "⪯" := Js.le (at level 70, no associativity).

(** ** [Math.random()] *)

(** The oracle: [random k] is what the [k]-th call of [Math.random()]
    returns.  ECMAScript promises a value in [[0, 1)]. *)
Definition oracle := nat -> Q.

Definition in_unit_interval (random : oracle) : Prop :=
  forall k : nat, 0 <= random k /\ random k < 1.

(** ** [shuffleArray] (App.tsx) *)

Module Shuffle.

(** Arrays live in a store: a variable holds a location. *)
Abbreviation loc := positive.
Abbreviation store T := (gmap loc (list T)).

Section ShuffleArray.

Context {T : Type}.
Variable random : oracle.

(** [Math.floor(Math.random() * (i + 1))] *)
Definition pick (k i : nat) : Z :=
  Qfloor (random k * inject_Z (Z.of_nat (i + 1))).

(** [arr[j]] for an index [j] of the array. *)
Definition at_index (arr : list T) (j : Z) : option T :=
  if (j <? 0)%Z then None else arr !! Z.to_nat j.

(** [[arr[i], arr[j]] = [arr[j], arr[i]]]: the right-hand side is read
    first, then [arr[i]] and [arr[j]] are written in this order.  [None]
    stands for an index outside the array, where the source would read
    [undefined] and extend the array: [Math.random()] is below 1, so the
    source never gets there, and the model does not follow it there. *)
Definition swap (arr : list T) (i : nat) (j : Z) : option (list T) :=
  match arr !! i, at_index arr j with
  | Some ai, Some aj => Some (<[Z.to_nat j := ai]> (<[i := aj]> arr))
  | _, _ => None
  end.

(** The body of [for (let i = arr.length - 1; i > 0; i--)], on the local
    array; [k] counts the calls of [Math.random()]. *)
Fixpoint loop (i k : nat) (arr : list T) : option (list T * nat) :=
  match i with
  | O => Some (arr, k)
  | S i' =>
      match swap arr i (pick k i) with
      | Some arr' => loop i' (S k) arr'
      | None => None
      end
  end.

(** The shuffled contents, without the store. *)
Definition shuffled (k : nat) (array : list T) : option (list T * nat) :=
  loop (length array - 1) k array.

(** The loop as the source runs it: every iteration reads and writes the
    array at location [arr] in place. *)
Fixpoint loop_in_place (arr : loc) (i k : nat) (h : store T)
  : option (store T * nat) :=
  match i with
  | O => Some (h, k)
  | S i' =>
      match h !! arr with
      | None => None
      | Some a =>
          match swap a i (pick k i) with
          | Some a' => loop_in_place arr i' (S k) (<[arr := a']> h)
          | None => None
          end
      end
  end.

(** [function shuffleArray<T>(array: T[]): T[]]: [const arr = [...array]]
    allocates a new array, the loop mutates it, and it is returned: the
    result is the location of the new array, the store and the number of
    calls of [Math.random()].  [None] when [array] is not an allocated
    array. *)
Definition shuffleArray (array : loc) (k : nat) (h : store T)
  : option (loc * store T * nat) :=
  match h !! array with
  | None => None
  | Some contents =>
      let arr := fresh (dom h) in
      let h1 := <[arr := contents]> h in
      match loop_in_place arr (length contents - 1) k h1 with
      | Some (h2, k') => Some (arr, h2, k')
      | None => None
      end
  end.

(** The shuffle in the words of the specification: the positions are
    visited from the last one down to the first, and the element at each
    position [i] is exchanged with the element at a chosen position
    [choice i], which is [i] or an earlier one. *)
Definition exchange (l : list T) (i j : nat) : list T :=
  imap (fun n x =>
          if decide (n = i) then default x (l !! j)
          else if decide (n = j) then default x (l !! i)
          else x) l.

Fixpoint fisher_yates (choice : nat -> nat) (n : nat) (l : list T) : list T :=
  match n with
  | O => l
  | S i => fisher_yates choice i (exchange l i (choice i))
  end.

(** The position chosen for [i] when [shuffleArray] runs on an array of
    length [n] after [k] calls of [Math.random()]. *)
Definition chosen (k n : nat) (i : nat) : nat :=
  Z.to_nat (pick (k + (n - 1 - i)) i).

End ShuffleArray.

End Shuffle.

(** ** Positions on screen *)

Record Position := { top : number; left : number }.

(** The same position, up to the representation of the rationals. *)
Definition same_position (p q : Position) : Prop :=
  top p ≈ top q /\ left p ≈ left q.

(** Both coordinates are finite numbers. *)
Definition finite_position (p : Position) : Prop :=
  exists t l : Q, p = {| top := Fin t; left := Fin l |}.

(** The same pair [[x, y]], up to the representation of the rationals. *)
Definition same_point (p q : number * number) : Prop :=
  p.1 ≈ q.1 /\ p.2 ≈ q.2.

(** ** The scatter effect

    [ReconstructionAnimation] and [ScatteredPieces] run the same effect with
    different constants; it is written once, over the constants. *)

Module Scatter.

Section Effect.

(** The constants of a component. *)
Variables containerWidth containerHeight pieceSizeScattered padding : Q.
Variable random : oracle.

Definition maxAttempts : nat := 1000.

(** The callback of [scatteredPositions.some(...)]. *)
Definition overlapping (position pos : Position) : bool :=
  let dx := Js.Math.abs (left pos - left position)%js in
  let dy := Js.Math.abs (top pos - top position)%js in
  (dx <? Fin pieceSizeScattered + Fin padding)%js
  && (dy <? Fin pieceSizeScattered + Fin padding)%js.

(** The object literal of the loop body; [top] is evaluated first. *)
Definition sample (k : nat) : Position :=
  {| top := (Fin (random k) * (Fin containerHeight - Fin pieceSizeScattered))%js;
     left := (Fin (random (S k)) * (Fin containerWidth - Fin pieceSizeScattered))%js |}.

(** What one [do ... while] leaves behind: the last sampled position, the
    last value of [overlaps], the value of [attempts] and the number of
    [Math.random()] calls made so far. *)
Record Sampled := {
  position : Position;
  overlaps : bool;
  attempts : nat;
  calls : nat
}.

(** [do { ... attempts++ } while (overlaps && attempts < maxAttempts)], with
    fuel for the recursion: [None] is fuel running out. *)
Fixpoint do_while (fuel : nat) (attempts k : nat) (scatteredPositions : list Position)
  : option Sampled :=
  match fuel with
  | O => None
  | S fuel' =>
      let position := sample k in
      let overlaps := existsb (overlapping position) scatteredPositions in
      let attempts := S attempts in
      if overlaps && (attempts <? maxAttempts)%nat
      then do_while fuel' attempts (2 + k) scatteredPositions
      else Some {| position := position; overlaps := overlaps;
                   attempts := attempts; calls := 2 + k |}
  end.

(** [for (let i = 0; i < pieces.length; i++)]: one [do ... while] per piece,
    then [scatteredPositions.push(position)].  The result keeps, next to the
    positions, what each loop left behind. *)
Fixpoint for_pieces {A : Type} (fuel : nat) (pieces : list A) (k : nat)
  (scatteredPositions : list Position) (log : list Sampled)
  : option (list Position * list Sampled * nat) :=
  match pieces with
  | [] => Some (scatteredPositions, log, k)
  | _ :: rest =>
      match do_while fuel 0 k scatteredPositions with
      | None => None
      | Some s =>
          for_pieces fuel rest (calls s) (scatteredPositions ++ [position s])
            (log ++ [s])
      end
  end.

(** The positions handed to [setPositions]. *)
Definition scatter {A : Type} (fuel : nat) (pieces : list A) (k : nat)
  : option (list Position * list Sampled * nat) :=
  for_pieces fuel pieces k [] [].

(** The test of the specification: two positions are separated on an axis,
    [|dx| >= S + P] or [|dy| >= S + P]. *)
Definition separated (p q : Position) : Prop :=
  (Fin pieceSizeScattered + Fin padding)%js ⪯ Js.Math.abs (left p - left q)%js
  \/ (Fin pieceSizeScattered + Fin padding)%js ⪯ Js.Math.abs (top p - top q)%js.

End Effect.

End Scatter.

(** ** The [ScatteredPieces] component (ScatteredPieces.tsx) *)

Module ScatteredPieces.

Definition containerWidth : Q := 800.
Definition containerHeight : Q := 400.
Definition pieceSizeScattered : Q := 300.
Definition padding : Q := 5.

Record ImageSize := { width : number; height : number }.

(** The branch [!rebuild] of the effect. *)
Definition scatter (random : oracle) {A : Type} :=
  @Scatter.scatter containerWidth containerHeight pieceSizeScattered padding random A.

(** The branch [rebuild] of the effect: the callback of
    [originalPositions.map(...)]. *)
Definition rebuiltPosition (originalImageSize : ImageSize) (pos : Position) : Position :=
  {| top := (top pos / height originalImageSize * Fin containerHeight)%js;
     left := (left pos / width originalImageSize * Fin containerWidth)%js |}.

Definition rebuiltPositions (originalPositions : list Position)
  (originalImageSize : ImageSize) : list Position :=
  map (rebuiltPosition originalImageSize) originalPositions.

End ScatteredPieces.

(** ** The [ReconstructionAnimation] component *)

Module ReconstructionAnimation.

Definition containerWidth : Q := 800.
Definition containerHeight : Q := 600.
Definition pieceSizeScattered : Q := 150.
Definition padding : Q := 5.

Module PieceCoordinate.
Record t := { piece_index : number; top : number; left : number }.
End PieceCoordinate.

Record Dimensions := { height : number; width : number }.

Record Props := {
  pieces : list string;
  pieceCoordinates : list PieceCoordinate.t;
  pieceDimensions : Dimensions;
  gridSize : number
}.

Record State := {
  positions : list Position;
  isAnimating : bool;
  animationProgress : number
}.

(** The scatter effect, run while [!isAnimating]. *)
Definition scatter (random : oracle) {A : Type} :=
  @Scatter.scatter containerWidth containerHeight pieceSizeScattered padding random A.

(** [scaleX], [scaleY] and [scale] of [startAnimation]. *)
Definition scaleX (p : Props) : number :=
  (Fin containerWidth / (gridSize p * width (pieceDimensions p)))%js.

Definition scaleY (p : Props) : number :=
  (Fin containerHeight / (gridSize p * height (pieceDimensions p)))%js.

Definition scale (p : Props) : number :=
  Js.Math.min3 (scaleX p) (scaleY p) (Fin 1).

(** The object pushed on [finalPositions] for one coordinate. *)
Definition finalPosition (p : Props) (coord : PieceCoordinate.t) : Position :=
  {| top := (PieceCoordinate.top coord * scale p
             + (Fin containerHeight
                - gridSize p * height (pieceDimensions p) * scale p) / Fin 2)%js;
     left := (PieceCoordinate.left coord * scale p
              + (Fin containerWidth
                 - gridSize p * width (pieceDimensions p) * scale p) / Fin 2)%js |}.

Definition finalPositions (p : Props) : list Position :=
  map (finalPosition p) (pieceCoordinates p).

Definition duration : number := Fin 2000.

(** What the closure [animate] captured: the [positions] of the render in
    which [startAnimation] ran, the final positions and the start time. *)
Record Run := {
  startPositions : list Position;
  endPositions : list Position;
  startTime : number
}.

(** [Math.min(elapsed / duration, 1)] *)
Definition progress (elapsed : number) : number :=
  Js.Math.min2 (elapsed / duration)%js (Fin 1).

(** [1 - Math.pow(1 - progress, 3)] *)
Definition easing (progress : number) : number :=
  (Fin 1 - Js.Math.pow3 (Fin 1 - progress))%js.

(** [start + (end - start) * easeProgress] *)
Definition lerp (a b t : number) : number := (a + (b - a) * t)%js.

(** The callback of [positions.map((startPos, i) => ...)]. *)
Definition newPosition (finalPositions : list Position) (easeProgress : number)
  (i : nat) (startPos : Position) : Position :=
  match finalPositions !! i with
  | Some endPos =>
      {| top := lerp (top startPos) (top endPos) easeProgress;
         left := lerp (left startPos) (left endPos) easeProgress |}
  | None => startPos
  end.

(** The outcome of one call of [animate]: the new state, whether
    [requestAnimationFrame(animate)] was called again and whether
    [onAnimationComplete] was. *)
Record Frame := {
  after : State;
  again : bool;
  completed : bool
}.

(** [animate], called at time [now] ([Date.now()]). *)
Definition animate (r : Run) (now : number) (st : State) : Frame :=
  let elapsed := (now - startTime r)%js in
  let progress := progress elapsed in
  let easeProgress := easing progress in
  let newPositions := imap (newPosition (endPositions r) easeProgress) (startPositions r) in
  let st1 := {| positions := newPositions;
                isAnimating := isAnimating st;
                animationProgress := easeProgress |} in
  if (progress <? Fin 1)%js
  then {| after := st1; again := true; completed := false |}
  else {| after := {| positions := positions st1; isAnimating := false;
                      animationProgress := animationProgress st1 |};
          again := false; completed := true |}.

(** [startAnimation], called at time [now]: nothing without coordinates;
    otherwise the state is marked animating and the first frame is
    requested for the run returned. *)
Definition startAnimation (p : Props) (now : number) (st : State) : State * option Run :=
  match pieceCoordinates p with
  | [] => (st, None)
  | _ =>
      ({| positions := positions st; isAnimating := true; animationProgress := Fin 0 |},
       Some {| startPositions := positions st;
               endPositions := finalPositions p;
               startTime := now |})
  end.

(** [resetAnimation], up to its timer. *)
Definition resetAnimation (st : State) : State :=
  {| positions := []; isAnimating := false; animationProgress := Fin 0 |}.

(** [positions.map(() => ({ top: ..., left: ... }))]: one new random position
    for each position that the handler captured. *)
Fixpoint resample (random : oracle) (k : nat) (captured : list Position)
  : list Position * nat :=
  match captured with
  | [] => ([], k)
  | _ :: rest =>
      let p := Scatter.sample containerWidth containerHeight pieceSizeScattered
                 random k in
      let '(ps, k') := resample random (2 + k) rest in
      (p :: ps, k')
  end.

(** The timer of [resetAnimation], 100 ms later; [captured] is the
    [positions] of the render in which the handler ran. *)
Definition resetAnimation_timeout (random : oracle) (k : nat)
  (captured : list Position) (st : State) : State * nat :=
  let '(ps, k') := resample random k captured in
  ({| positions := ps; isAnimating := isAnimating st;
      animationProgress := animationProgress st |}, k').

End ReconstructionAnimation.

(** ** The [App] component (App.tsx, and its animated variant) *)

Module App.

(** A selected file, and a JSON payload that the component only stores. *)
Definition File := string.
Definition Json := string.

Record Size := { width : number; height : number }.

(** An entry of [placement_data.pieces]. *)
Record Piece := {
  piece_index : nat;
  filename : string;
  final_position : number * number
}.

(** [{...piece, scattered_position: [x, y], current_position: [x, y]}] *)
Record ScatteredPiece := {
  piece : Piece;
  scattered_position : number * number;
  current_position : number * number
}.

Module PlacementData.
Record t := { canvas_size : Size; piece_size : Size; pieces : list Piece }.
End PlacementData.

(** ['scattered' | 'moving' | 'complete'] *)
Inductive AnimationPhase := Scattered | Moving | Complete.

(** The JSON body of a response of the service; a field that is absent is
    [None]. *)
Module Data.
Record t := {
  pieces : option (list string);
  error : option string;
  image_size : option Json;
  runtime : option number;
  timing_breakdown : option Json;
  rebuilt : option string;
  placement_data : option PlacementData.t
}.
End Data.

(** What [await fetch(...)] followed by [await res.json()] gives: the body,
    or an exception. *)
Inductive Fetched := Body (data : Data.t) | Threw.

#[local] Set Primitive Projections.

(** The hooks of the component.  [animationRef], [animationIdRef] and
    [currentPlacementDataRef] are refs, the others state.  [pieceCount] is
    the constant [50] in the animated component and a state of App.tsx with
    the initial value [50]. *)
Record State := mkState {
  uploadedFile : option File;
  uploadedZipFile : option File;
  originalImage : option string;
  pieces : list string;
  shuffledPieces : list string;
  originalImageSize : option Json;
  shattered : bool;
  rebuiltUrl : option string;
  loading : bool;
  error : option string;
  shatterRuntime : option number;
  rebuildRuntime : option number;
  timingBreakdown : option Json;
  rebuildTimingBreakdown : option Json;
  placementData : option PlacementData.t;
  isAnimating : bool;
  scatteredPieces : list ScatteredPiece;
  animationPhase : AnimationPhase;
  animationRef : list ScatteredPiece;
  animationIdRef : nat;
  currentPlacementDataRef : option PlacementData.t;
  currentPieceIndex : nat;
  pieceCount : nat;
  showGame : bool
}.

(** The setter of each hook (for a ref, the assignment to [.current]):
    the field is replaced, the others are kept. *)

Definition setUploadedFile (v : option File) (s : State) : State :=
  let 'mkState _ x2 x3 x4 x5 x6 x7 x8 x9 x10 x11 x12 x13 x14 x15 x16 x17 x18
    x19 x20 x21 x22 x23 x24 := s in
  mkState v x2 x3 x4 x5 x6 x7 x8 x9 x10 x11 x12 x13 x14 x15 x16 x17 x18 x19
    x20 x21 x22 x23 x24.

Definition setUploadedZipFile (v : option File) (s : State) : State :=
  let 'mkState x1 _ x3 x4 x5 x6 x7 x8 x9 x10 x11 x12 x13 x14 x15 x16 x17 x18
    x19 x20 x21 x22 x23 x24 := s in
  mkState x1 v x3 x4 x5 x6 x7 x8 x9 x10 x11 x12 x13 x14 x15 x16 x17 x18 x19
    x20 x21 x22 x23 x24.

Definition setOriginalImage (v : option string) (s : State) : State :=
  let 'mkState x1 x2 _ x4 x5 x6 x7 x8 x9 x10 x11 x12 x13 x14 x15 x16 x17 x18
    x19 x20 x21 x22 x23 x24 := s in
  mkState x1 x2 v x4 x5 x6 x7 x8 x9 x10 x11 x12 x13 x14 x15 x16 x17 x18 x19
    x20 x21 x22 x23 x24.

Definition setPieces (v : list string) (s : State) : State :=
  let 'mkState x1 x2 x3 _ x5 x6 x7 x8 x9 x10 x11 x12 x13 x14 x15 x16 x17 x18
    x19 x20 x21 x22 x23 x24 := s in
  mkState x1 x2 x3 v x5 x6 x7 x8 x9 x10 x11 x12 x13 x14 x15 x16 x17 x18 x19
    x20 x21 x22 x23 x24.

Definition setShuffledPieces (v : list string) (s : State) : State :=
  let 'mkState x1 x2 x3 x4 _ x6 x7 x8 x9 x10 x11 x12 x13 x14 x15 x16 x17 x18
    x19 x20 x21 x22 x23 x24 := s in
  mkState x1 x2 x3 x4 v x6 x7 x8 x9 x10 x11 x12 x13 x14 x15 x16 x17 x18 x19
    x20 x21 x22 x23 x24.

Definition setOriginalImageSize (v : option Json) (s : State) : State :=
  let 'mkState x1 x2 x3 x4 x5 _ x7 x8 x9 x10 x11 x12 x13 x14 x15 x16 x17 x18
    x19 x20 x21 x22 x23 x24 := s in
  mkState x1 x2 x3 x4 x5 v x7 x8 x9 x10 x11 x12 x13 x14 x15 x16 x17 x18 x19
    x20 x21 x22 x23 x24.

Definition setShattered (v : bool) (s : State) : State :=
  let 'mkState x1 x2 x3 x4 x5 x6 _ x8 x9 x10 x11 x12 x13 x14 x15 x16 x17 x18
    x19 x20 x21 x22 x23 x24 := s in
  mkState x1 x2 x3 x4 x5 x6 v x8 x9 x10 x11 x12 x13 x14 x15 x16 x17 x18 x19
    x20 x21 x22 x23 x24.

Definition setRebuiltUrl (v : option string) (s : State) : State :=
  let 'mkState x1 x2 x3 x4 x5 x6 x7 _ x9 x10 x11 x12 x13 x14 x15 x16 x17 x18
    x19 x20 x21 x22 x23 x24 := s in
  mkState x1 x2 x3 x4 x5 x6 x7 v x9 x10 x11 x12 x13 x14 x15 x16 x17 x18 x19
    x20 x21 x22 x23 x24.

Definition setLoading (v : bool) (s : State) : State :=
  let 'mkState x1 x2 x3 x4 x5 x6 x7 x8 _ x10 x11 x12 x13 x14 x15 x16 x17 x18
    x19 x20 x21 x22 x23 x24 := s in
  mkState x1 x2 x3 x4 x5 x6 x7 x8 v x10 x11 x12 x13 x14 x15 x16 x17 x18 x19
    x20 x21 x22 x23 x24.

Definition setError (v : option string) (s : State) : State :=
  let 'mkState x1 x2 x3 x4 x5 x6 x7 x8 x9 _ x11 x12 x13 x14 x15 x16 x17 x18
    x19 x20 x21 x22 x23 x24 := s in
  mkState x1 x2 x3 x4 x5 x6 x7 x8 x9 v x11 x12 x13 x14 x15 x16 x17 x18 x19
    x20 x21 x22 x23 x24.

Definition setShatterRuntime (v : option number) (s : State) : State :=
  let 'mkState x1 x2 x3 x4 x5 x6 x7 x8 x9 x10 _ x12 x13 x14 x15 x16 x17 x18
    x19 x20 x21 x22 x23 x24 := s in
  mkState x1 x2 x3 x4 x5 x6 x7 x8 x9 x10 v x12 x13 x14 x15 x16 x17 x18 x19
    x20 x21 x22 x23 x24.

Definition setRebuildRuntime (v : option number) (s : State) : State :=
  let 'mkState x1 x2 x3 x4 x5 x6 x7 x8 x9 x10 x11 _ x13 x14 x15 x16 x17 x18
    x19 x20 x21 x22 x23 x24 := s in
  mkState x1 x2 x3 x4 x5 x6 x7 x8 x9 x10 x11 v x13 x14 x15 x16 x17 x18 x19
    x20 x21 x22 x23 x24.

Definition setTimingBreakdown (v : option Json) (s : State) : State :=
  let 'mkState x1 x2 x3 x4 x5 x6 x7 x8 x9 x10 x11 x12 _ x14 x15 x16 x17 x18
    x19 x20 x21 x22 x23 x24 := s in
  mkState x1 x2 x3 x4 x5 x6 x7 x8 x9 x10 x11 x12 v x14 x15 x16 x17 x18 x19
    x20 x21 x22 x23 x24.

Definition setRebuildTimingBreakdown (v : option Json) (s : State) : State :=
  let 'mkState x1 x2 x3 x4 x5 x6 x7 x8 x9 x10 x11 x12 x13 _ x15 x16 x17 x18
    x19 x20 x21 x22 x23 x24 := s in
  mkState x1 x2 x3 x4 x5 x6 x7 x8 x9 x10 x11 x12 x13 v x15 x16 x17 x18 x19
    x20 x21 x22 x23 x24.

Definition setPlacementData (v : option PlacementData.t) (s : State) : State :=
  let 'mkState x1 x2 x3 x4 x5 x6 x7 x8 x9 x10 x11 x12 x13 x14 _ x16 x17 x18
    x19 x20 x21 x22 x23 x24 := s in
  mkState x1 x2 x3 x4 x5 x6 x7 x8 x9 x10 x11 x12 x13 x14 v x16 x17 x18 x19
    x20 x21 x22 x23 x24.

Definition setIsAnimating (v : bool) (s : State) : State :=
  let 'mkState x1 x2 x3 x4 x5 x6 x7 x8 x9 x10 x11 x12 x13 x14 x15 _ x17 x18
    x19 x20 x21 x22 x23 x24 := s in
  mkState x1 x2 x3 x4 x5 x6 x7 x8 x9 x10 x11 x12 x13 x14 x15 v x17 x18 x19
    x20 x21 x22 x23 x24.

Definition setScatteredPieces (v : list ScatteredPiece) (s : State) : State :=
  let 'mkState x1 x2 x3 x4 x5 x6 x7 x8 x9 x10 x11 x12 x13 x14 x15 x16 _ x18
    x19 x20 x21 x22 x23 x24 := s in
  mkState x1 x2 x3 x4 x5 x6 x7 x8 x9 x10 x11 x12 x13 x14 x15 x16 v x18 x19
    x20 x21 x22 x23 x24.

Definition setAnimationPhase (v : AnimationPhase) (s : State) : State :=
  let 'mkState x1 x2 x3 x4 x5 x6 x7 x8 x9 x10 x11 x12 x13 x14 x15 x16 x17 _
    x19 x20 x21 x22 x23 x24 := s in
  mkState x1 x2 x3 x4 x5 x6 x7 x8 x9 x10 x11 x12 x13 x14 x15 x16 x17 v x19
    x20 x21 x22 x23 x24.

Definition setAnimationRef (v : list ScatteredPiece) (s : State) : State :=
  let 'mkState x1 x2 x3 x4 x5 x6 x7 x8 x9 x10 x11 x12 x13 x14 x15 x16 x17 x18
    _ x20 x21 x22 x23 x24 := s in
  mkState x1 x2 x3 x4 x5 x6 x7 x8 x9 x10 x11 x12 x13 x14 x15 x16 x17 x18 v
    x20 x21 x22 x23 x24.

Definition setAnimationIdRef (v : nat) (s : State) : State :=
  let 'mkState x1 x2 x3 x4 x5 x6 x7 x8 x9 x10 x11 x12 x13 x14 x15 x16 x17 x18
    x19 _ x21 x22 x23 x24 := s in
  mkState x1 x2 x3 x4 x5 x6 x7 x8 x9 x10 x11 x12 x13 x14 x15 x16 x17 x18 x19
    v x21 x22 x23 x24.

Definition setCurrentPlacementDataRef (v : option PlacementData.t) (s : State) : State :=
  let 'mkState x1 x2 x3 x4 x5 x6 x7 x8 x9 x10 x11 x12 x13 x14 x15 x16 x17 x18
    x19 x20 _ x22 x23 x24 := s in
  mkState x1 x2 x3 x4 x5 x6 x7 x8 x9 x10 x11 x12 x13 x14 x15 x16 x17 x18 x19
    x20 v x22 x23 x24.

Definition setCurrentPieceIndex (v : nat) (s : State) : State :=
  let 'mkState x1 x2 x3 x4 x5 x6 x7 x8 x9 x10 x11 x12 x13 x14 x15 x16 x17 x18
    x19 x20 x21 _ x23 x24 := s in
  mkState x1 x2 x3 x4 x5 x6 x7 x8 x9 x10 x11 x12 x13 x14 x15 x16 x17 x18 x19
    x20 x21 v x23 x24.

Definition setPieceCount (v : nat) (s : State) : State :=
  let 'mkState x1 x2 x3 x4 x5 x6 x7 x8 x9 x10 x11 x12 x13 x14 x15 x16 x17 x18
    x19 x20 x21 x22 _ x24 := s in
  mkState x1 x2 x3 x4 x5 x6 x7 x8 x9 x10 x11 x12 x13 x14 x15 x16 x17 x18 x19
    x20 x21 x22 v x24.

Definition setShowGame (v : bool) (s : State) : State :=
  let 'mkState x1 x2 x3 x4 x5 x6 x7 x8 x9 x10 x11 x12 x13 x14 x15 x16 x17 x18
    x19 x20 x21 x22 x23 _ := s in
  mkState x1 x2 x3 x4 x5 x6 x7 x8 x9 x10 x11 x12 x13 x14 x15 x16 x17 x18 x19
    x20 x21 x22 x23 v.
#[local] Unset Primitive Projections.

Notation "s |> f" := (f s) (at level 45, left associativity, only parsing).

(** [a || b] on strings: the empty string and an absent field are falsy. *)
Definition or_string (a : option string) (b : string) : string :=
  match a with
  | Some s => if decide (s = "") then b else s
  | None => b
  end.

Definition API_URL : string := "http://127.0.0.1:5001".

(** *** Loading the pieces *)

(** [handleShatter] up to [await fetch]: the new state, and whether the
    request was sent. *)
Definition handleShatter_request (st : State) : State * bool :=
  match uploadedFile st with
  | None => (st |> setError (Some "Please upload an image first"), false)
  | Some _ =>
      (st |> setLoading true |> setShowGame true |> setError None
          |> setRebuiltUrl None |> setShatterRuntime None
          |> setTimingBreakdown None, true)
  end.

(** [handleShatter] from the answer on; [pieceCount] is the value the
    handler read when it was called. *)
Definition handleShatter_response (pieceCount : nat) (res : Fetched) (st : State)
  : State :=
  (match res with
   | Body data =>
       match Data.pieces data with
       | Some ps =>
           if (length ps =? pieceCount)%nat then
             st |> setPieces ps |> setShuffledPieces ps
                |> setOriginalImageSize (Data.image_size data)
                |> setShattered true
                |> setShatterRuntime (Data.runtime data)
                |> setTimingBreakdown (Data.timing_breakdown data)
           else
             st |> setError (Some ("Expected " +:+ pretty pieceCount
                                   +:+ " pieces, got " +:+ pretty (length ps)
                                   +:+ ". Try again."))
       | None =>
           st |> setError (Some (or_string (Data.error data) "Failed to shatter image"))
       end
   | Threw => st |> setError (Some "Failed to connect to backend")
   end)
  |> setLoading false |> setShowGame false.

(** [handleLoadZipPieces] up to [await fetch]. *)
Definition handleLoadZipPieces_request (st : State) : State * bool :=
  match uploadedZipFile st with
  | None => (st |> setError (Some "Please upload a zip file first"), false)
  | Some _ =>
      (st |> setLoading true |> setShowGame true |> setError None
          |> setRebuiltUrl None |> setRebuildRuntime None
          |> setRebuildTimingBreakdown None, true)
  end.

(** [handleLoadZipPieces] from the answer on. *)
Definition handleLoadZipPieces_response (pieceCount : nat) (res : Fetched) (st : State)
  : State :=
  (match res with
   | Body data =>
       match Data.pieces data with
       | Some ps =>
           if (length ps =? pieceCount)%nat then
             st |> setPieces ps |> setShuffledPieces ps
                |> setShattered true
                |> setRebuildRuntime (Data.runtime data)
                |> setRebuildTimingBreakdown (Data.timing_breakdown data)
           else
             st |> setError (Some ("Expected " +:+ pretty pieceCount
                                   +:+ " pieces, got " +:+ pretty (length ps)
                                   +:+ ". Check your zip file."))
       | None =>
           st |> setError (Some (or_string (Data.error data)
                                   "Failed to load pieces from zip"))
       end
   | Threw => st |> setError (Some "Failed to connect to backend")
   end)
  |> setLoading false |> setShowGame false.

(** *** The animation *)

(** [resetState] *)
Definition resetState (st : State) : State :=
  st |> setShattered false |> setShuffledPieces [] |> setError None
     |> setLoading false |> setShowGame false |> setShatterRuntime None
     |> setTimingBreakdown None |> setRebuiltUrl None |> setRebuildRuntime None
     |> setRebuildTimingBreakdown None |> setPlacementData None
     |> setIsAnimating false |> setScatteredPieces []
     |> setAnimationPhase Scattered |> setCurrentPieceIndex 0
     |> setCurrentPlacementDataRef None.

(** [handleImageUpload], for a non-empty selection: [file] and its object
    URL. *)
Definition handleImageUpload (file : File) (url : string) (st : State) : State :=
  st |> setUploadedFile (Some file) |> setOriginalImage (Some url)
     |> setUploadedZipFile None
     |> setPlacementData None |> setIsAnimating false |> setScatteredPieces []
     |> setAnimationPhase Scattered |> setAnimationRef []
     |> setCurrentPlacementDataRef None
     |> setShattered false |> setShuffledPieces [] |> setError None
     |> setRebuiltUrl None |> setRebuildRuntime None
     |> setRebuildTimingBreakdown None |> setShatterRuntime None
     |> setTimingBreakdown None |> setCurrentPieceIndex 0.

(** [handleZipUpload], for a non-empty selection. *)
Definition handleZipUpload (file : File) (st : State) : State :=
  st |> setUploadedZipFile (Some file) |> setUploadedFile None
     |> setOriginalImage None |> resetState.

(** [handleReset] *)
Definition handleReset (st : State) : State :=
  st |> resetState |> setUploadedFile None |> setUploadedZipFile None
     |> setOriginalImage None.

(** [handleRebuild] up to [await fetch]. *)
Definition handleRebuild_request (st : State) : State :=
  st |> setLoading true |> setShowGame true |> setError None
     |> setRebuiltUrl None |> setRebuildRuntime None
     |> setRebuildTimingBreakdown None
     |> setPlacementData None |> setIsAnimating false |> setScatteredPieces []
     |> setAnimationPhase Scattered |> setAnimationRef []
     |> setCurrentPlacementDataRef None.

(** [handleRebuild] from the answer on: the new state, and whether the
    timer that calls [startAnimation] was set. *)
Definition handleRebuild_response (res : Fetched) (st : State) : State * bool :=
  let '(st1, timer) :=
    match res with
    | Body data =>
        match Data.rebuilt data with
        | Some rebuilt =>
            if decide (rebuilt = "") then
              (st |> setError (Some (or_string (Data.error data)
                                       "Failed to rebuild image")), false)
            else
              (st |> setRebuiltUrl (Some (API_URL +:+ rebuilt))
                  |> setRebuildRuntime (Data.runtime data)
                  |> setRebuildTimingBreakdown (Data.timing_breakdown data)
                  |> setPlacementData (Data.placement_data data), true)
        | None =>
            (st |> setError (Some (or_string (Data.error data)
                                     "Failed to rebuild image")), false)
        end
    | Threw => (st |> setError (Some "Failed to connect to backend"), false)
    end in
  (st1 |> setLoading false |> setShowGame false, timer).

Definition margin : number := Fin 100.

(** The callback of [placementData.pieces.map(...)] in
    [generateScatteredPositions]: [x] is drawn first, then [y]. *)
Definition scatterPiece (random : oracle) (canvas_size : Size) (k : nat)
  (piece : Piece) : ScatteredPiece :=
  let x := (Fin (random k) * (width canvas_size + margin * Fin 2) - margin)%js in
  let y := (Fin (random (S k)) * (height canvas_size + margin * Fin 2) - margin)%js in
  {| piece := piece; scattered_position := (x, y); current_position := (x, y) |}.

Fixpoint scatterPieces (random : oracle) (canvas_size : Size) (k : nat)
  (pieces : list Piece) : list ScatteredPiece * nat :=
  match pieces with
  | [] => ([], k)
  | piece :: rest =>
      let sp := scatterPiece random canvas_size k piece in
      let '(sps, k') := scatterPieces random canvas_size (2 + k) rest in
      (sp :: sps, k')
  end.

(** [generateScatteredPositions] *)
Definition generateScatteredPositions (random : oracle)
  (placementData : PlacementData.t) (k : nat) : list ScatteredPiece * nat :=
  scatterPieces random (PlacementData.canvas_size placementData) k
    (PlacementData.pieces placementData).

Definition animationDuration : number := Fin 2000.

(** What the closure [animate] of one run captured. *)
Record Run := {
  currentAnimationId : nat;
  scatteredOfRun : list ScatteredPiece;
  startTime : number
}.

(** [startAnimation], called at time [now] ([performance.now()]) with [k]
    calls of [Math.random()] made before.  [placementData] is the state as
    the closure sees it: that of the render which created the handler.
    Returns the state, the number of [Math.random()] calls and, when an
    animation started, the run whose first frame was requested. *)
Definition startAnimation (random : oracle) (placementData : option PlacementData.t)
  (now : number) (k : nat) (st : State) : State * nat * option Run :=
  match placementData with
  | None => (st, k, None)
  | Some pd =>
      let st := st |> setAnimationRef []
                   |> setAnimationIdRef (animationIdRef st + 1) in
      let currentAnimationId := animationIdRef st in
      let st := st |> setCurrentPlacementDataRef (Some pd)
                   |> setIsAnimating true |> setAnimationPhase Scattered in
      let '(scattered, k') := generateScatteredPositions random pd k in
      let st := st |> setScatteredPieces scattered |> setAnimationPhase Moving in
      (st, k', Some {| currentAnimationId := currentAnimationId;
                       scatteredOfRun := scattered;
                       startTime := now |})
  end.

(** [Math.min(elapsed / animationDuration, 1)] *)
Definition progress (elapsed : number) : number :=
  Js.Math.min2 (elapsed / animationDuration)%js (Fin 1).

(** [1 - Math.pow(1 - progress, 3)] *)
Definition easeOutCubic (progress : number) : number :=
  (Fin 1 - Js.Math.pow3 (Fin 1 - progress))%js.

(** The callback of [scattered.map(...)] in [animate]: [endX] and [endY] are
    read from [final_position] and not used; every piece moves to [(0, 0)]. *)
Definition updatedPiece (easeOutCubic : number) (piece : ScatteredPiece)
  : ScatteredPiece :=
  let '(startX, startY) := scattered_position piece in
  let '(endX, endY) := final_position (App.piece piece) in
  let currentX := (startX + (Fin 0 - startX) * easeOutCubic)%js in
  let currentY := (startY + (Fin 0 - startY) * easeOutCubic)%js in
  {| piece := App.piece piece;
     scattered_position := scattered_position piece;
     current_position := (currentX, currentY) |}.

(** [Math.floor(progress * 120) % 3 === 0] *)
Definition commits (progress : number) : bool :=
  Js.strict_eq (Js.rem (Js.Math.floor (progress * Fin 120)%js) (Fin 3)) (Fin 0).

(** The outcome of one call of [animate]: the state, and whether
    [requestAnimationFrame(animate)] was called again. *)
Record Frame := { after : State; again : bool }.

(** [animate(currentTime)] of the run [r]. *)
Definition animate (r : Run) (currentTime : number) (st : State) : Frame :=
  if negb (currentAnimationId r =? animationIdRef st)%nat then
    {| after := st; again := false |}
  else
    let elapsed := (currentTime - startTime r)%js in
    let progress := progress elapsed in
    let easeOutCubic := easeOutCubic progress in
    let updatedPieces := map (updatedPiece easeOutCubic) (scatteredOfRun r) in
    let st := st |> setAnimationRef updatedPieces in
    let st := if commits progress then st |> setScatteredPieces updatedPieces
              else st in
    if (progress <? Fin 1)%js then {| after := st; again := true |}
    else {| after := st |> setAnimationPhase Complete
                        |> setScatteredPieces updatedPieces;
            again := false |}.

(** [closeAnimation] *)
Definition closeAnimation (st : State) : State :=
  st |> setIsAnimating false |> setScatteredPieces []
     |> setAnimationPhase Scattered |> setAnimationRef []
     |> setCurrentPlacementDataRef None.

(** The clean-up of the effect on [isAnimating]. *)
Definition isAnimatingCleanup (st : State) : State :=
  st |> setAnimationRef [] |> setCurrentPlacementDataRef None.

(** The effect on [placementData]. *)
Definition placementDataEffect (st : State) : State :=
  match placementData st with
  | Some _ => st
  | None =>
      st |> setIsAnimating false |> setScatteredPieces []
         |> setAnimationPhase Scattered |> setAnimationRef []
         |> setCurrentPlacementDataRef None
  end.

(** *** The overlay *)

(** [currentPlacementDataRef.current || placementData] *)
Definition currentPlacementData (st : State) : option PlacementData.t :=
  match currentPlacementDataRef st with
  | Some pd => Some pd
  | None => placementData st
  end.

Definition canvasWidth (pd : PlacementData.t) : number :=
  Js.or_else (width (PlacementData.canvas_size pd)) (Fin 800).

Definition canvasHeight (pd : PlacementData.t) : number :=
  Js.or_else (height (PlacementData.canvas_size pd)) (Fin 600).

Definition scaleX (pd : PlacementData.t) : number := (Fin 800 / canvasWidth pd)%js.
Definition scaleY (pd : PlacementData.t) : number := (Fin 600 / canvasHeight pd)%js.

Definition scale (pd : PlacementData.t) : number :=
  Js.Math.min3 (scaleX pd) (scaleY pd) (Fin 1).

(** The style of the image of one piece: [left], [top], [width] and
    [height].  The style also has [position: 'absolute'] and
    [transform: 'translate(-50%, -50%)']. *)
Record Style := {
  left : number;
  top : number;
  styleWidth : number;
  styleHeight : number
}.

(** Where the image starts in the box: [translate(-50%, -50%)] moves it
    left and up by half of its size, so that [left] and [top] are where its
    centre is. *)
Definition imageLeft (s : Style) : number := (left s - styleWidth s / Fin 2)%js.
Definition imageTop (s : Style) : number := (top s - styleHeight s / Fin 2)%js.

(** The callback of [scatteredPieces.map((piece, index) => ...)]: [None] is
    [return null]. *)
Definition renderPiece (st : State) (index : nat) (piece : ScatteredPiece)
  : option Style :=
  let currentPiece := default piece (animationRef st !! index) in
  let '(x, y) := current_position currentPiece in
  match currentPlacementData st with
  | None => None
  | Some pd =>
      let scale := scale pd in
      let scaledPieceWidth :=
        (Js.or_else (width (PlacementData.piece_size pd)) (Fin 100) * scale)%js in
      let scaledPieceHeight :=
        (Js.or_else (height (PlacementData.piece_size pd)) (Fin 100) * scale)%js in
      let scaledX := (x * scale)%js in
      let scaledY := (y * scale)%js in
      Some {| left := (scaledX + Fin 400)%js;
              top := (scaledY + Fin 300)%js;
              styleWidth := scaledPieceWidth;
              styleHeight := scaledPieceHeight |}
  end.

(** *** The component as a transition system

    What can happen to the component: a handler runs, an answer of the
    service arrives, an effect runs, or the browser calls a frame callback
    that some run has requested. *)
Inductive Event :=
| StartAnimation (placementData : option PlacementData.t) (now : number)
| AnimationFrame (r : Run) (currentTime : number)
| CloseAnimation
| ResetState
| HandleReset
| HandleImageUpload (file : File) (url : string)
| HandleZipUpload (file : File)
| HandleShatterRequest
| HandleShatterResponse (pieceCount : nat) (res : Fetched)
| HandleLoadZipPiecesRequest
| HandleLoadZipPiecesResponse (pieceCount : nat) (res : Fetched)
| HandleRebuildRequest
| HandleRebuildResponse (res : Fetched)
| IsAnimatingCleanup
| PlacementDataEffect.

(** The component with the number of [Math.random()] calls made so far. *)
Record World := { state : State; randomCalls : nat }.

Definition step (random : oracle) (w : World) (e : Event) : World :=
  let st := state w in
  let k := randomCalls w in
  match e with
  | StartAnimation pd now =>
      let '(st', k', _) := startAnimation random pd now k st in
      {| state := st'; randomCalls := k' |}
  | AnimationFrame r currentTime =>
      {| state := after (animate r currentTime st); randomCalls := k |}
  | CloseAnimation => {| state := closeAnimation st; randomCalls := k |}
  | ResetState => {| state := resetState st; randomCalls := k |}
  | HandleReset => {| state := handleReset st; randomCalls := k |}
  | HandleImageUpload file url =>
      {| state := handleImageUpload file url st; randomCalls := k |}
  | HandleZipUpload file => {| state := handleZipUpload file st; randomCalls := k |}
  | HandleShatterRequest =>
      {| state := fst (handleShatter_request st); randomCalls := k |}
  | HandleShatterResponse n res =>
      {| state := handleShatter_response n res st; randomCalls := k |}
  | HandleLoadZipPiecesRequest =>
      {| state := fst (handleLoadZipPieces_request st); randomCalls := k |}
  | HandleLoadZipPiecesResponse n res =>
      {| state := handleLoadZipPieces_response n res st; randomCalls := k |}
  | HandleRebuildRequest => {| state := handleRebuild_request st; randomCalls := k |}
  | HandleRebuildResponse res =>
      {| state := fst (handleRebuild_response res st); randomCalls := k |}
  | IsAnimatingCleanup => {| state := isAnimatingCleanup st; randomCalls := k |}
  | PlacementDataEffect => {| state := placementDataEffect st; randomCalls := k |}
  end.

(** A run of events, in the order in which they happen. *)
Definition run (random : oracle) (w : World) (es : list Event) : World :=
  fold_left (step random) es w.

(** The state of a freshly mounted component. *)
Definition initial : State :=
  {| uploadedFile := None; uploadedZipFile := None; originalImage := None;
     pieces := []; shuffledPieces := []; originalImageSize := None;
     shattered := false; rebuiltUrl := None; loading := false; error := None;
     shatterRuntime := None; rebuildRuntime := None; timingBreakdown := None;
     rebuildTimingBreakdown := None; placementData := None;
     isAnimating := false; scatteredPieces := []; animationPhase := Scattered;
     animationRef := []; animationIdRef := 0; currentPlacementDataRef := None;
     currentPieceIndex := 0; pieceCount := 50; showGame := false |}.

End App.

(** ** Arrays made from a length *)

(** The number of entries of [Array.from({ length: n })]: the integer part
    of [n], and none for [NaN] or a negative [n].  [None] stands for a
    length above [2^32 - 1], where the source throws a [RangeError]. *)
Definition array_length (n : number) : option nat :=
  match n with
  | Js.Fin q =>
      if (Js.trunc q <=? 4294967295)%Z then Some (Z.to_nat (Js.trunc q)) else None
  | Js.PInf => None
  | Js.NInf | Js.NaN => Some 0%nat
  end.

(** A natural number as a number. *)
Definition of_nat (n : nat) : number := Fin (inject_Z (Z.of_nat n)).

(** ** What the components draw *)

(** [positions[i]?.top ?? 0] and [positions[i]?.left ?? 0]: where the image
    of piece [i] is drawn, in [ReconstructionAnimation] and in
    [ScatteredPieces]. *)
Definition imagePosition (positions : list Position) (i : nat) : Position :=
  match positions !! i with
  | Some p => p
  | None => {| top := Fin 0; left := Fin 0 |}
  end.

(** [pieces.map((src, i) => <img ... />)]: the source and the position of
    every image. *)
Definition images (pieces : list string) (positions : list Position)
  : list (string * Position) :=
  imap (fun i src => (src, imagePosition positions i)) pieces.

Module GridOverlay.

Import ReconstructionAnimation.

(** The two lines of the [i]-th fragment of the grid overlay: a horizontal
    one at [top] and a vertical one at [left]. *)
Record Lines := { horizontalTop : number; verticalLeft : number }.

Definition lines (p : Props) (i : nat) : Lines :=
  {| horizontalTop := (of_nat i * Fin containerHeight / gridSize p)%js;
     verticalLeft := (of_nat i * Fin containerWidth / gridSize p)%js |}.

(** [isAnimating && (... Array.from({ length: gridSize + 1 }).map(...))] *)
Definition gridOverlay (p : Props) (st : State) : option (list Lines) :=
  if isAnimating st then
    match array_length (gridSize p + Fin 1)%js with
    | Some n => Some (map (lines p) (seq 0 n))
    | None => None
    end
  else Some [].

End GridOverlay.

Module ScatteredPiecesEffect.

Import ScatteredPieces.

(** The effect of [ScatteredPieces] on [rebuild], [pieces],
    [originalPositions] and [originalImageSize]: the positions handed to
    [setPositions] and the number of [Math.random()] calls. *)
Definition effect (random : oracle) (fuel : nat) (rebuild : bool)
  (pieces : list string) (originalPositions : list Position)
  (originalImageSize : ImageSize) (k : nat) : option (list Position * nat) :=
  if negb rebuild then
    match scatter random fuel pieces k with
    | Some (scatteredPositions, _, k') => Some (scatteredPositions, k')
    | None => None
    end
  else Some (rebuiltPositions originalPositions originalImageSize, k).

(** The updater of the button: [(prev) => !prev] *)
Definition toggle (prev : bool) : bool := negb prev.

End ScatteredPiecesEffect.

(** ** The timer of [handleRebuild] *)

Module RebuildTimer.

Import App.

(** The timer that [handleRebuild] sets when the answer holds a rebuilt
    image: 100 ms later it calls [startAnimation], the function of the
    render in which [handleRebuild] was called.  [clicked] is the state of
    that render: its [placementData] is what this [startAnimation] reads. *)
Definition handleRebuild_timeout (random : oracle) (clicked : State)
  (now : number) (k : nat) (st : State) : State * nat * option Run :=
  startAnimation random (placementData clicked) now k st.

(** The button Replay Animation: [startAnimation] of the current render.
    The button is rendered while there is placement data, and it is
    disabled while [isAnimating]. *)
Definition replayAnimation (random : oracle) (now : number) (k : nat) (st : State)
  : State * nat * option Run :=
  startAnimation random (placementData st) now k st.

End RebuildTimer.

(** ** The piece browser (App.tsx, and the animated [App]) *)

Module PieceBrowser.

(** The updater of [nextPiece]: [(prev) => (prev + 1) % shuffledPieces.length] *)
Definition nextPiece (shuffledPieces : list string) (prev : number) : number :=
  Js.rem (prev + Fin 1)%js (of_nat (length shuffledPieces)).

(** The updater of [prevPiece]:
    [(prev) => (prev - 1 + shuffledPieces.length) % shuffledPieces.length] *)
Definition prevPiece (shuffledPieces : list string) (prev : number) : number :=
  Js.rem (prev - Fin 1 + of_nat (length shuffledPieces))%js
    (of_nat (length shuffledPieces)).

(** [handleKeyPress]: the index that the key leaves, and whether
    [preventDefault] was called. *)
Definition handleKeyPress (shattered : bool) (shuffledPieces : list string)
  (key : string) (currentPieceIndex : number) : number * bool :=
  if negb shattered then (currentPieceIndex, false)
  else if bool_decide (key = "ArrowRight") || bool_decide (key = " ")
       then (nextPiece shuffledPieces currentPieceIndex, true)
  else if bool_decide (key = "ArrowLeft")
       then (prevPiece shuffledPieces currentPieceIndex, true)
  else (currentPieceIndex, false).

(** [array[index]] for a number [index]: the element when the index is a
    natural number below the length, and [undefined], here [None],
    otherwise. *)
Definition at_number {A : Type} (array : list A) (index : number) : option A :=
  match index with
  | Js.Fin q =>
      if Qeq_bool q (inject_Z (Qfloor q)) && Qle_bool 0 q
      then array !! Z.to_nat (Qfloor q)
      else None
  | _ => None
  end.

(** The three pieces that the browser shows: the arguments of
    [getPieceSrc] for the image on the left, the one in the middle and the
    one on the right. *)
Record Shown := {
  previous : option string;
  current : option string;
  next : option string
}.

Definition shown (shuffledPieces : list string) (currentPieceIndex : number) : Shown :=
  {| previous :=
       at_number shuffledPieces
         (Js.rem (currentPieceIndex - Fin 1 + of_nat (length shuffledPieces))%js
            (of_nat (length shuffledPieces)));
     current := at_number shuffledPieces currentPieceIndex;
     next :=
       at_number shuffledPieces
         (Js.rem (currentPieceIndex + Fin 1)%js (of_nat (length shuffledPieces))) |}.

End PieceBrowser.

(** ** The names sent to the rebuild service *)

(** [s.split(sep)] for a separator of one character: the pieces of [s]
    between the occurrences of [sep]; there is always at least one. *)
Fixpoint split (sep : Ascii.ascii) (s : string) : list string :=
  match s with
  | EmptyString => [EmptyString]
  | String c rest =>
      if Ascii.eqb c sep then EmptyString :: split sep rest
      else match split sep rest with
           | [] => [String c EmptyString]
           | first :: others => String c first :: others
           end
  end.

(** [shuffledPieces.map(url => url.split('/').pop() || '')]: the [order]
    of the body of the rebuild request.  [pop()] gives the last piece of
    the split. *)
Definition order (shuffledPieces : list string) : list string :=
  map (fun url => App.or_string (last (split "/"%char url)) "") shuffledPieces.

(** The character does not occur in the string. *)
Fixpoint free_of (c : Ascii.ascii) (s : string) : bool :=
  match s with
  | EmptyString => true
  | String c' rest => negb (Ascii.eqb c' c) && free_of c rest
  end.

(** ** The [App] component of App.tsx

    The component without the animation.  Its state is the state of the
    animated component, of which it leaves the fields of the animation
    alone; [handleShatter] and [handleLoadZipPieces] are the same in both
    and are taken from above. *)

Module AppTsx.

Import App.

Local Notation "s |> f" := (f s) (at level 45, left associativity, only parsing).

(** [resetState] *)
Definition resetState (st : State) : State :=
  st |> setPieces [] |> setShuffledPieces [] |> setOriginalImageSize None
     |> setShattered false |> setRebuiltUrl None |> setError None
     |> setShatterRuntime None |> setRebuildRuntime None
     |> setTimingBreakdown None |> setRebuildTimingBreakdown None
     |> setCurrentPieceIndex 0.

(** [handleImageUpload], for a non-empty selection: [file] and its object
    URL. *)
Definition handleImageUpload (file : File) (url : string) (st : State) : State :=
  st |> setUploadedFile (Some file) |> setOriginalImage (Some url)
     |> setUploadedZipFile None |> resetState.

(** [handleZipUpload], for a non-empty selection. *)
Definition handleZipUpload (file : File) (st : State) : State :=
  st |> setUploadedZipFile (Some file) |> setUploadedFile None
     |> setOriginalImage None |> resetState.

(** [handleReset] *)
Definition handleReset (st : State) : State :=
  st |> resetState |> setUploadedFile None |> setUploadedZipFile None
     |> setOriginalImage None.

(** [handleShuffle], after [k] calls of [Math.random()]: the state holds
    the array that [shuffleArray] returns.  [None] as in [Shuffle.swap]. *)
Definition handleShuffle (random : oracle) (k : nat) (st : State)
  : option (State * nat) :=
  match Shuffle.shuffled random k (shuffledPieces st) with
  | Some (arr, k') => Some (st |> setShuffledPieces arr |> setRebuiltUrl None, k')
  | None => None
  end.

(** [handleRebuild] up to [await fetch]: the state, and the [order] of the
    body of the request. *)
Definition handleRebuild_request (st : State) : State * list string :=
  (st |> setLoading true |> setShowGame true |> setError None
      |> setRebuiltUrl None |> setRebuildRuntime None
      |> setRebuildTimingBreakdown None,
   order (shuffledPieces st)).

(** [handleRebuild] from the answer on. *)
Definition handleRebuild_response (res : Fetched) (st : State) : State :=
  (match res with
   | Body data =>
       match Data.rebuilt data with
       | Some rebuilt =>
           if decide (rebuilt = "") then
             st |> setError (Some (or_string (Data.error data) "Failed to rebuild image"))
           else
             st |> setRebuiltUrl (Some (API_URL +:+ rebuilt))
                |> setRebuildRuntime (Data.runtime data)
                |> setRebuildTimingBreakdown (Data.timing_breakdown data)
       | None =>
           st |> setError (Some (or_string (Data.error data) "Failed to rebuild image"))
       end
   | Threw => st |> setError (Some "Failed to connect to backend")
   end)
  |> setLoading false |> setShowGame false.

(** [handleDownloadPieces] when the download fails; when it succeeds the
    state is not touched. *)
Definition handleDownloadPieces_failed (st : State) : State :=
  st |> setError (Some "Failed to download pieces zip").

(** What can happen to the component.  An answer carries the piece count
    that its handler read when it was called.  The events that move only
    [currentPieceIndex] are those of [PieceBrowser]; a change of
    [pieceCount] shows in the answers only. *)
Inductive Event :=
| HandleImageUpload (file : File) (url : string)
| HandleZipUpload (file : File)
| HandleReset
| HandleShatterRequest
| HandleShatterResponse (pieceCount : nat) (res : Fetched)
| HandleLoadZipPiecesRequest
| HandleLoadZipPiecesResponse (pieceCount : nat) (res : Fetched)
| HandleShuffle
| HandleRebuildRequest
| HandleRebuildResponse (res : Fetched)
| HandleDownloadPiecesFailed.

Definition step (random : oracle) (w : World) (e : Event) : option World :=
  let st := state w in
  let k := randomCalls w in
  match e with
  | HandleImageUpload file url =>
      Some {| state := handleImageUpload file url st; randomCalls := k |}
  | HandleZipUpload file => Some {| state := handleZipUpload file st; randomCalls := k |}
  | HandleReset => Some {| state := handleReset st; randomCalls := k |}
  | HandleShatterRequest =>
      Some {| state := fst (handleShatter_request st); randomCalls := k |}
  | HandleShatterResponse n res =>
      Some {| state := handleShatter_response n res st; randomCalls := k |}
  | HandleLoadZipPiecesRequest =>
      Some {| state := fst (handleLoadZipPieces_request st); randomCalls := k |}
  | HandleLoadZipPiecesResponse n res =>
      Some {| state := handleLoadZipPieces_response n res st; randomCalls := k |}
  | HandleShuffle =>
      match handleShuffle random k st with
      | Some (st', k') => Some {| state := st'; randomCalls := k' |}
      | None => None
      end
  | HandleRebuildRequest =>
      Some {| state := fst (handleRebuild_request st); randomCalls := k |}
  | HandleRebuildResponse res =>
      Some {| state := handleRebuild_response res st; randomCalls := k |}
  | HandleDownloadPiecesFailed =>
      Some {| state := handleDownloadPieces_failed st; randomCalls := k |}
  end.

(** A run of events, in the order in which they happen. *)
Fixpoint run (random : oracle) (w : World) (es : list Event) : option World :=
  match es with
  | [] => Some w
  | e :: rest =>
      match step random w e with
      | Some w' => run random w' rest
      | None => None
      end
  end.

End AppTsx.

(** ** The first [App] component

    The component that shatters on upload and always asks for 50 pieces. *)

Module LegacyApp.

Record State := {
  pieces : list string;
  shuffledPieces : list string;
  rebuiltUrl : option string;
  loading : bool;
  error : option string;
  shatterRuntime : option number;
  rebuildRuntime : option number;
  modalPiece : option string
}.

(** The state of a freshly mounted component. *)
Definition initial : State :=
  {| pieces := []; shuffledPieces := []; rebuiltUrl := None; loading := false;
     error := None; shatterRuntime := None; rebuildRuntime := None;
     modalPiece := None |}.

(** [setError(v)] and [setLoading(v)] *)
Definition setError (v : option string) (st : State) : State :=
  {| pieces := pieces st; shuffledPieces := shuffledPieces st;
     rebuiltUrl := rebuiltUrl st; loading := loading st; error := v;
     shatterRuntime := shatterRuntime st; rebuildRuntime := rebuildRuntime st;
     modalPiece := modalPiece st |}.

Definition setLoading (v : bool) (st : State) : State :=
  {| pieces := pieces st; shuffledPieces := shuffledPieces st;
     rebuiltUrl := rebuiltUrl st; loading := v; error := error st;
     shatterRuntime := shatterRuntime st; rebuildRuntime := rebuildRuntime st;
     modalPiece := modalPiece st |}.

(** [handleUpload] up to [await fetch], for the files [e.target.files]:
    the state, and the file that was sent, if any. *)
Definition handleUpload_request (files : list App.File) (st : State)
  : State * option App.File :=
  match files with
  | [] => (st, None)
  | file :: _ =>
      ({| pieces := []; shuffledPieces := []; rebuiltUrl := None; loading := true;
          error := None; shatterRuntime := None; rebuildRuntime := None;
          modalPiece := modalPiece st |},
       Some file)
  end.

(** [handleUpload] from the answer on. *)
Definition handleUpload_response (res : App.Fetched) (st : State) : State :=
  setLoading false
    match res with
    | App.Body data =>
        match App.Data.pieces data with
        | Some ps =>
            if (length ps =? 50)%nat then
              {| pieces := ps; shuffledPieces := ps; rebuiltUrl := rebuiltUrl st;
                 loading := loading st; error := error st;
                 shatterRuntime := App.Data.runtime data;
                 rebuildRuntime := rebuildRuntime st; modalPiece := modalPiece st |}
            else
              setError (Some ("Expected 50 pieces, got " +:+ pretty (length ps)
                              +:+ ". Try again.")) st
        | None =>
            setError (Some (App.or_string (App.Data.error data)
                              "Failed to shatter image")) st
        end
    | App.Threw => setError (Some "Failed to connect to backend") st
    end.

(** [handleShuffle], after [k] calls of [Math.random()]. *)
Definition handleShuffle (random : oracle) (k : nat) (st : State)
  : option (State * nat) :=
  match Shuffle.shuffled random k (shuffledPieces st) with
  | Some (arr, k') =>
      Some ({| pieces := pieces st; shuffledPieces := arr; rebuiltUrl := None;
               loading := loading st; error := error st;
               shatterRuntime := shatterRuntime st;
               rebuildRuntime := rebuildRuntime st; modalPiece := modalPiece st |},
            k')
  | None => None
  end.

(** [handleRebuild] up to [await fetch]: the state, and the [order] of the
    body of the request. *)
Definition handleRebuild_request (st : State) : State * list string :=
  ({| pieces := pieces st; shuffledPieces := shuffledPieces st; rebuiltUrl := None;
      loading := true; error := None; shatterRuntime := shatterRuntime st;
      rebuildRuntime := None; modalPiece := modalPiece st |},
   order (shuffledPieces st)).

(** [handleRebuild] from the answer on. *)
Definition handleRebuild_response (res : App.Fetched) (st : State) : State :=
  setLoading false
    match res with
    | App.Body data =>
        match App.Data.rebuilt data with
        | Some rebuilt =>
            if decide (rebuilt = "") then
              setError (Some (App.or_string (App.Data.error data)
                                "Failed to rebuild image")) st
            else
              {| pieces := pieces st; shuffledPieces := shuffledPieces st;
                 rebuiltUrl := Some (App.API_URL +:+ rebuilt);
                 loading := loading st; error := error st;
                 shatterRuntime := shatterRuntime st;
                 rebuildRuntime := App.Data.runtime data;
                 modalPiece := modalPiece st |}
        | None =>
            setError (Some (App.or_string (App.Data.error data)
                              "Failed to rebuild image")) st
        end
    | App.Threw => setError (Some "Failed to connect to backend") st
    end.

(** [handleDownloadPieces] when the download fails. *)
Definition handleDownloadPieces_failed (st : State) : State :=
  setError (Some "Failed to download pieces zip") st.

(** [setModalPiece(v)]: a click on a piece opens the modal with
    [`${API_URL}${piece}`], a click on the modal closes it. *)
Definition setModalPiece (v : option string) (st : State) : State :=
  {| pieces := pieces st; shuffledPieces := shuffledPieces st;
     rebuiltUrl := rebuiltUrl st; loading := loading st; error := error st;
     shatterRuntime := shatterRuntime st; rebuildRuntime := rebuildRuntime st;
     modalPiece := v |}.

(** [pieces.length === 50]: the grid of pieces and its buttons are
    rendered. *)
Definition showsPieces (st : State) : bool := (length (pieces st) =? 50)%nat.

(** What can happen to the component. *)
Inductive Event :=
| HandleUploadRequest (files : list App.File)
| HandleUploadResponse (res : App.Fetched)
| HandleShuffle
| HandleRebuildRequest
| HandleRebuildResponse (res : App.Fetched)
| HandleDownloadPiecesFailed
| OpenModal (piece : string)
| CloseModal.

Record World := { state : State; randomCalls : nat }.

Definition step (random : oracle) (w : World) (e : Event) : option World :=
  let st := state w in
  let k := randomCalls w in
  match e with
  | HandleUploadRequest files =>
      Some {| state := fst (handleUpload_request files st); randomCalls := k |}
  | HandleUploadResponse res =>
      Some {| state := handleUpload_response res st; randomCalls := k |}
  | HandleShuffle =>
      match handleShuffle random k st with
      | Some (st', k') => Some {| state := st'; randomCalls := k' |}
      | None => None
      end
  | HandleRebuildRequest =>
      Some {| state := fst (handleRebuild_request st); randomCalls := k |}
  | HandleRebuildResponse res =>
      Some {| state := handleRebuild_response res st; randomCalls := k |}
  | HandleDownloadPiecesFailed =>
      Some {| state := handleDownloadPieces_failed st; randomCalls := k |}
  | OpenModal piece =>
      Some {| state := setModalPiece (Some (App.API_URL +:+ piece)) st;
              randomCalls := k |}
  | CloseModal => Some {| state := setModalPiece None st; randomCalls := k |}
  end.

Fixpoint run (random : oracle) (w : World) (es : list Event) : option World :=
  match es with
  | [] => Some w
  | e :: rest =>
      match step random w e with
      | Some w' => run random w' rest
      | None => None
      end
  end.

End LegacyApp.

(** ** The memory game ([LoadingGame] of App.tsx)

    The score, the time and the tiles are integers far below [2^53]: they
    are natural numbers here. *)

Module MemoryGame.

Record State := {
  score : nat;
  timeLeft : nat;
  gameActive : bool;
  pieces : list nat;
  selectedPiece : option nat;
  matchedPairs : list nat
}.

(** [Array.from({ length: 8 }, (_, i) => i).flatMap(num => [num, num])] *)
Definition gamePieces : list nat := flat_map (fun num => [num; num]) (seq 0 8).

(** The state of a freshly mounted game. *)
Definition initial : State :=
  {| score := 0; timeLeft := 30; gameActive := true; pieces := [];
     selectedPiece := None; matchedPairs := [] |}.

(** The effect that runs once, after the game is mounted:
    [setPieces(shuffleArray(gamePieces))]. *)
Definition mountEffect (random : oracle) (k : nat) (st : State)
  : option (State * nat) :=
  match Shuffle.shuffled random k gamePieces with
  | Some (arr, k') =>
      Some ({| score := score st; timeLeft := timeLeft st;
               gameActive := gameActive st; pieces := arr;
               selectedPiece := selectedPiece st;
               matchedPairs := matchedPairs st |}, k')
  | None => None
  end.

(** One tick of the timer.  The interval exists while [gameActive]: the
    effect does not create it otherwise, and clears it when [gameActive]
    changes. *)
Definition tick (st : State) : State :=
  if gameActive st then
    if (timeLeft st <=? 1)%nat then
      {| score := score st; timeLeft := 0; gameActive := false;
         pieces := pieces st; selectedPiece := selectedPiece st;
         matchedPairs := matchedPairs st |}
    else
      {| score := score st; timeLeft := timeLeft st - 1;
         gameActive := gameActive st; pieces := pieces st;
         selectedPiece := selectedPiece st; matchedPairs := matchedPairs st |}
  else st.

(** [handlePieceClick(index)]: the state, and whether the timer that
    clears the selection one second later was set.  The buttons are
    rendered from [pieces], and a selected index is an index of [pieces]:
    [None] stands for an index that is not one, where the model does not
    follow the source. *)
Definition handlePieceClick (index : nat) (st : State) : option (State * bool) :=
  match pieces st !! index with
  | None => None
  | Some piece =>
      if negb (gameActive st) || bool_decide (piece ∈ matchedPairs st)
      then Some (st, false)
      else
        match selectedPiece st with
        | None =>
            Some ({| score := score st; timeLeft := timeLeft st;
                     gameActive := gameActive st; pieces := pieces st;
                     selectedPiece := Some index;
                     matchedPairs := matchedPairs st |}, false)
        | Some selected =>
            match pieces st !! selected with
            | None => None
            | Some other =>
                if negb (selected =? index)%nat && (other =? piece)%nat then
                  Some ({| score := score st + 10; timeLeft := timeLeft st;
                           gameActive := gameActive st; pieces := pieces st;
                           selectedPiece := None;
                           matchedPairs := matchedPairs st ++ [piece] |}, false)
                else Some (st, true)
            end
        end
  end.

(** The timer of a click that did not match: [setSelectedPiece(null)]. *)
Definition clearSelection (st : State) : State :=
  {| score := score st; timeLeft := timeLeft st; gameActive := gameActive st;
     pieces := pieces st; selectedPiece := None; matchedPairs := matchedPairs st |}.

(** [resetGame] *)
Definition resetGame (random : oracle) (k : nat) (st : State) : option (State * nat) :=
  match Shuffle.shuffled random k gamePieces with
  | Some (arr, k') =>
      Some ({| score := 0; timeLeft := 30; gameActive := true; pieces := arr;
               selectedPiece := None; matchedPairs := [] |}, k')
  | None => None
  end.

(** What a tile shows: the piece of the puzzle when the tile is selected
    or its number is matched, a question mark otherwise. *)
Definition revealed (st : State) (index piece : nat) : bool :=
  bool_decide (selectedPiece st = Some index) || bool_decide (piece ∈ matchedPairs st).

(** What can happen to the game. *)
Inductive Event :=
| Tick
| Click (index : nat)
| ClearSelection
| ResetGame.

Record World := { state : State; randomCalls : nat }.

Definition step (random : oracle) (w : World) (e : Event) : option World :=
  let st := state w in
  let k := randomCalls w in
  match e with
  | Tick => Some {| state := tick st; randomCalls := k |}
  | Click index =>
      match handlePieceClick index st with
      | Some (st', _) => Some {| state := st'; randomCalls := k |}
      | None => None
      end
  | ClearSelection => Some {| state := clearSelection st; randomCalls := k |}
  | ResetGame =>
      match resetGame random k st with
      | Some (st', k') => Some {| state := st'; randomCalls := k' |}
      | None => None
      end
  end.

Fixpoint run (random : oracle) (w : World) (es : list Event) : option World :=
  match es with
  | [] => Some w
  | e :: rest =>
      match step random w e with
      | Some w' => run random w' rest
      | None => None
      end
  end.

(** The game once its effect has run, after [k] calls of [Math.random()]. *)
Definition started (random : oracle) (k : nat) : option World :=
  match mountEffect random k initial with
  | Some (st, k') => Some {| state := st; randomCalls := k' |}
  | None => None
  end.

(** The event is a click on one of the 16 tiles, or no click. *)
Definition on_a_tile (e : Event) : Prop :=
  match e with Click index => (index < 16)%nat | _ => True end.

(** The number of ticks among the events. *)
Fixpoint ticks (es : list Event) : nat :=
  match es with
  | [] => 0
  | Tick :: rest => S (ticks rest)
  | _ :: rest => ticks rest
  end.

(** No event is a reset. *)
Definition no_reset (es : list Event) : Prop :=
  Forall (fun e => e <> ResetGame) es.

End MemoryGame.

(** ** The dice game ([LoadingGame] of the animated [App])

    The dice, their total and the number of rolls are integers. *)

Module DiceGame.

Record State := {
  dice1 : Z;
  dice2 : Z;
  isRolling : bool;
  rollCount : nat;
  total : Z
}.

(** The state of a freshly mounted game. *)
Definition initial : State :=
  {| dice1 := 1; dice2 := 1; isRolling := false; rollCount := 0; total := 2 |}.

(** [Math.floor(Math.random() * 6) + 1], for the [k]-th call of
    [Math.random()]. *)
Definition die (random : oracle) (k : nat) : Z := (Qfloor (random k * 6) + 1)%Z.

(** The game with its timers: every interval that [rollDice] has set and
    that is not cleared yet, with the [rollDuration] of its closure, and
    the number of calls of [Math.random()] so far. *)
Record World := {
  state : State;
  intervals : list nat;
  randomCalls : nat
}.

(** [rollDice], called by the button or by the timer that rolls every
    three seconds. *)
Definition rollDice (w : World) : World :=
  if isRolling (state w) then w
  else
    {| state := {| dice1 := dice1 (state w); dice2 := dice2 (state w);
                   isRolling := true; rollCount := rollCount (state w) + 1;
                   total := total (state w) |};
       intervals := intervals w ++ [0%nat];
       randomCalls := randomCalls w |}.

(** The callback of the [i]-th interval, which the browser calls every
    100 ms. *)
Definition rollInterval (random : oracle) (i : nat) (w : World) : World :=
  match intervals w !! i with
  | None => w
  | Some rollDuration =>
      let k := randomCalls w in
      let rolled1 := die random k in
      let rolled2 := die random (1 + k) in
      let rollDuration := (rollDuration + 100)%nat in
      if (1000 <=? rollDuration)%nat then
        let finalDice1 := die random (2 + k) in
        let finalDice2 := die random (3 + k) in
        {| state := {| dice1 := finalDice1; dice2 := finalDice2; isRolling := false;
                       rollCount := rollCount (state w);
                       total := (finalDice1 + finalDice2)%Z |};
           intervals := delete i (intervals w);
           randomCalls := (4 + k)%nat |}
      else
        {| state := {| dice1 := rolled1; dice2 := rolled2;
                       isRolling := isRolling (state w);
                       rollCount := rollCount (state w);
                       total := total (state w) |};
           intervals := <[i := rollDuration]> (intervals w);
           randomCalls := (2 + k)%nat |}
  end.

(** A dot of a face: its key, and its [top] and [left] in per cent. *)
Record Dot := { key : string; top : Q; left : Q }.

(** The table [positions] of [getDiceFace]: rows and columns of the dots
    of each face. *)
Definition positions (number : Z) : option (list (nat * nat)) :=
  match number with
  | 1%Z => Some [(1, 1)]%nat
  | 2%Z => Some [(0, 0); (2, 2)]%nat
  | 3%Z => Some [(0, 0); (1, 1); (2, 2)]%nat
  | 4%Z => Some [(0, 0); (0, 2); (2, 0); (2, 2)]%nat
  | 5%Z => Some [(0, 0); (0, 2); (1, 1); (2, 0); (2, 2)]%nat
  | 6%Z => Some [(0, 0); (0, 1); (0, 2); (2, 0); (2, 1); (2, 2)]%nat
  | _ => None
  end.

(** [getDiceFace(number)]: the dots of the face.  [None] stands for the
    [TypeError] of [forEach] on the entry of a number that the table does
    not have. *)
Definition getDiceFace (number : Z) : option (list Dot) :=
  match positions number with
  | Some dots =>
      Some (map (fun '(row, col) =>
                   {| key := pretty row +:+ "-" +:+ pretty col;
                      top := (inject_Z (Z.of_nat row) + (1 # 2)) * (3333 # 100);
                      left := (inject_Z (Z.of_nat col) + (1 # 2)) * (3333 # 100) |})
              dots)
  | None => None
  end.

(** What can happen to the game. *)
Inductive Event :=
| RollDice
| RollInterval (i : nat).

Definition step (random : oracle) (w : World) (e : Event) : World :=
  match e with
  | RollDice => rollDice w
  | RollInterval i => rollInterval random i w
  end.

Definition run (random : oracle) (w : World) (es : list Event) : World :=
  fold_left (step random) es w.

(** The game before any event, after [k] calls of [Math.random()]. *)
Definition mounted (k : nat) : World :=
  {| state := initial; intervals := []; randomCalls := k |}.

End DiceGame.

(** ** The effect of [ReconstructionAnimation] *)

Module ReconstructionEffect.

Import ReconstructionAnimation.

(** The effect of [ReconstructionAnimation] on [isAnimating] and [pieces]:
    React runs it after the first render and after every render in which
    one of the two has changed.  It returns the state and the number of
    [Math.random()] calls. *)
Definition scatterEffect (random : oracle) (fuel : nat) (p : Props) (k : nat)
  (st : State) : option (State * nat) :=
  if negb (isAnimating st) then
    match scatter random fuel (pieces p) k with
    | Some (scatteredPositions, _, k') =>
        Some ({| positions := scatteredPositions; isAnimating := isAnimating st;
                 animationProgress := animationProgress st |}, k')
    | None => None
    end
  else Some (st, k).

(** The state of a freshly mounted component. *)
Definition initial : State :=
  {| positions := []; isAnimating := false; animationProgress := Fin 0 |}.

End ReconstructionEffect.

(** ** Rounding

    The interpolation of a frame, on IEEE doubles as the source computes
    it; the rest of the model computes it on rationals. *)
Definition lerp_double (a b t : float) : float := (a + (b - a) * t)%float.

(** * Vocabulary of the statements *)

(** The positions are separated pairwise. *)
Definition pairwise_separated (pieceSizeScattered padding : Q)
  (positions : list Position) : Prop :=
  forall (i j : nat) (p q : Position),
    (i < j)%nat -> positions !! i = Some p -> positions !! j = Some q ->
    Scatter.separated pieceSizeScattered padding p q.

(** The outcome of a scatter over [n] pieces, for the fixed size [S] and
    padding [P]: it returns, with one position per piece, after at most
    [maxAttempts] rounds of each loop; a loop that stopped early stopped on
    a position that overlaps no earlier one; and the positions are separated
    pairwise when every loop stopped on such a position. *)
Definition scatter_outcome (S P : Q)
  (result : option (list Position * list Scatter.Sampled * nat)) (n : nat) : Prop :=
  exists positions log k',
    result = Some (positions, log, k')
    /\ length positions = n
    /\ positions = map Scatter.position log
    /\ Forall finite_position positions
    /\ Forall (fun s => (1 <= Scatter.attempts s <= Scatter.maxAttempts)%nat) log
    /\ Forall (fun s => (Scatter.attempts s < Scatter.maxAttempts)%nat ->
                        Scatter.overlaps s = false) log
    /\ (Forall (fun s => Scatter.overlaps s = false) log ->
        pairwise_separated S P positions).

(** The value of the ease-out at a progress [p]: [1 - (1 - p)^3]. *)
Definition eased (p : Q) : Q := 1 + - ((1 + - p) * ((1 + - p) * (1 + - p))).

(** The piece set and everything of the animation are the same in two
    states. *)
Definition keeps_pieces_and_animation (st st' : App.State) : Prop :=
  App.pieces st' = App.pieces st
  /\ App.shuffledPieces st' = App.shuffledPieces st
  /\ App.originalImageSize st' = App.originalImageSize st
  /\ App.shattered st' = App.shattered st
  /\ App.placementData st' = App.placementData st
  /\ App.isAnimating st' = App.isAnimating st
  /\ App.scatteredPieces st' = App.scatteredPieces st
  /\ App.animationPhase st' = App.animationPhase st
  /\ App.animationRef st' = App.animationRef st
  /\ App.animationIdRef st' = App.animationIdRef st
  /\ App.currentPlacementDataRef st' = App.currentPlacementDataRef st.

(** The square of side [S] whose corner is at [p] lies in a container of
    [W] x [H]. *)
Definition inside_container (W H S : Q) (p : Position) : Prop :=
  exists t l : Q,
    p = {| top := Fin t; left := Fin l |}
    /\ 0 <= t /\ t + S <= H /\ 0 <= l /\ l + S <= W.

(** What is left of the way at an elapsed time: [(1 - p)^3] for the
    progress [p = min(elapsed / 2000, 1)]. *)
Definition remaining (elapsed : Q) : Q :=
  let p := Qmin (elapsed / 2000) 1 in (1 - p) * ((1 - p) * (1 - p)).

(** What the component of App.tsx keeps true: the shuffled pieces are the
    pieces in some order; not both an image and a zip file are held; and
    there is a preview exactly while an image is held. *)
Record consistent (st : App.State) : Prop := {
  consistent_pieces : App.shuffledPieces st ≡ₚ App.pieces st;
  consistent_upload : App.uploadedFile st = None \/ App.uploadedZipFile st = None;
  consistent_preview : App.originalImage st = None <-> App.uploadedFile st = None
}.

(** How a request for pieces ends, from the state [st] in which it was
    sent, for the count [pieceCount] and the answer [res]: in [st'] the
    component is not loading, and either it holds the pieces of the answer,
    as many as were asked for, with no error, or it holds an error message
    that is not empty and the pieces that it had. *)
Definition loaded_or_failed (pieceCount : nat) (res : App.Fetched)
  (st st' : App.State) : Prop :=
  App.loading st' = false /\ App.showGame st' = false
  /\ ((exists data pieces,
          res = App.Body data /\ App.Data.pieces data = Some pieces
          /\ length pieces = pieceCount
          /\ App.pieces st' = pieces /\ App.shuffledPieces st' = pieces
          /\ App.shattered st' = true /\ App.error st' = None)
      \/ (exists message,
            App.error st' = Some message /\ message <> ""
            /\ App.pieces st' = App.pieces st
            /\ App.shuffledPieces st' = App.shuffledPieces st
            /\ App.shattered st' = App.shattered st)).

(** What the first [App] component keeps true: the shuffled pieces are the
    pieces in some order, and there are none or 50 of them. *)
Definition legacy_consistent (st : LegacyApp.State) : Prop :=
  LegacyApp.shuffledPieces st ≡ₚ LegacyApp.pieces st
  /\ (LegacyApp.pieces st = [] \/ length (LegacyApp.pieces st) = 50%nat).

(** What the memory game keeps true once its effect has run: the tiles are
    the game pieces in some order; the score is 10 for each matched number;
    no number is matched twice, and every matched number is one of 0 to 7;
    a selected tile is one of the 16; and the time left is between 1 and 30
    while the game is active, and 0 when it is over. *)
Record fair (st : MemoryGame.State) : Prop := {
  fair_pieces : MemoryGame.pieces st ≡ₚ MemoryGame.gamePieces;
  fair_score :
    MemoryGame.score st = (10 * length (MemoryGame.matchedPairs st))%nat;
  fair_matched : NoDup (MemoryGame.matchedPairs st);
  fair_numbers : Forall (fun piece => (piece < 8)%nat) (MemoryGame.matchedPairs st);
  fair_selected :
    forall index, MemoryGame.selectedPiece st = Some index -> (index < 16)%nat;
  fair_time :
    if MemoryGame.gameActive st then (1 <= MemoryGame.timeLeft st <= 30)%nat
    else MemoryGame.timeLeft st = 0%nat
}.

(** The clock of the memory game after [c] ticks. *)
Definition clock (c : nat) (st : MemoryGame.State) : Prop :=
  MemoryGame.timeLeft st = (30 - c)%nat /\ MemoryGame.gameActive st = (c <? 30)%nat.

(** What the dice game keeps true: the dice show 1 to 6; a roll is going
    on exactly while one interval is set, whose duration is below 1000; and
    while no roll is going on the total is the sum of the dice. *)
Record rolling_fairly (w : DiceGame.World) : Prop := {
  fairly_dice1 : (1 <= DiceGame.dice1 (DiceGame.state w) <= 6)%Z;
  fairly_dice2 : (1 <= DiceGame.dice2 (DiceGame.state w) <= 6)%Z;
  fairly_total : (2 <= DiceGame.total (DiceGame.state w) <= 12)%Z;
  fairly_idle :
    DiceGame.isRolling (DiceGame.state w) = false ->
    DiceGame.intervals w = []
    /\ DiceGame.total (DiceGame.state w)
       = (DiceGame.dice1 (DiceGame.state w) + DiceGame.dice2 (DiceGame.state w))%Z;
  fairly_rolling :
    DiceGame.isRolling (DiceGame.state w) = true ->
    exists rollDuration, DiceGame.intervals w = [rollDuration]
                         /\ (rollDuration < 1000)%nat
}.

(** * Sample inputs *)

(** An oracle that always answers one half. *)
Definition always_half : oracle := fun _ => 1 # 2.

(** An oracle that spreads the first two pieces: it answers 0, 0, 0, 9/10,
    and one half afterwards. *)
Definition spread : oracle :=
  fun k => match k with 3%nat => 9 # 10 | 0%nat | 1%nat | 2%nat => 0 | _ => 1 # 2 end.

(** A 4 x 4 grid of pieces of 400 x 300: a source of 1600 x 1200. *)
Definition large_grid : ReconstructionAnimation.Props :=
  {| ReconstructionAnimation.pieces := [];
     ReconstructionAnimation.pieceCoordinates :=
       [ {| ReconstructionAnimation.PieceCoordinate.piece_index := Fin 0;
            ReconstructionAnimation.PieceCoordinate.top := Fin 0;
            ReconstructionAnimation.PieceCoordinate.left := Fin 0 |};
         {| ReconstructionAnimation.PieceCoordinate.piece_index := Fin 5;
            ReconstructionAnimation.PieceCoordinate.top := Fin 300;
            ReconstructionAnimation.PieceCoordinate.left := Fin 400 |} ];
     ReconstructionAnimation.pieceDimensions :=
       {| ReconstructionAnimation.height := Fin 300;
          ReconstructionAnimation.width := Fin 400 |};
     ReconstructionAnimation.gridSize := Fin 4 |}.

(** A canvas of 1600 x 1200 with pieces of 400 x 300. *)
Definition large_canvas : App.PlacementData.t :=
  {| App.PlacementData.canvas_size := {| App.width := Fin 1600; App.height := Fin 1200 |};
     App.PlacementData.piece_size := {| App.width := Fin 400; App.height := Fin 300 |};
     App.PlacementData.pieces :=
       [ {| App.piece_index := 0; App.filename := "piece_0.png";
            App.final_position := (Fin 0, Fin 0) |};
         {| App.piece_index := 5; App.filename := "piece_5.png";
            App.final_position := (Fin 400, Fin 300) |} ] |}.

(** A grid whose pieces have the width zero. *)
Definition flat_grid : ReconstructionAnimation.Props :=
  {| ReconstructionAnimation.pieces := [];
     ReconstructionAnimation.pieceCoordinates :=
       [ {| ReconstructionAnimation.PieceCoordinate.piece_index := Fin 0;
            ReconstructionAnimation.PieceCoordinate.top := Fin 30;
            ReconstructionAnimation.PieceCoordinate.left := Fin 20 |} ];
     ReconstructionAnimation.pieceDimensions :=
       {| ReconstructionAnimation.height := Fin 150;
          ReconstructionAnimation.width := Fin 0 |};
     ReconstructionAnimation.gridSize := Fin 4 |}.

(** [ReconstructionAnimation] with two scattered pieces, not animating. *)
Definition scattered_state : ReconstructionAnimation.State :=
  {| ReconstructionAnimation.positions :=
       [ {| top := Fin 40; left := Fin 600 |}; {| top := Fin 410; left := Fin 15 |} ];
     ReconstructionAnimation.isAnimating := false;
     ReconstructionAnimation.animationProgress := Fin 0 |}.

(** The run that [startAnimation] starts for [large_grid] at time 0 in
    [scattered_state]. *)
Definition grid_run : ReconstructionAnimation.Run :=
  {| ReconstructionAnimation.startPositions :=
       ReconstructionAnimation.positions scattered_state;
     ReconstructionAnimation.endPositions :=
       ReconstructionAnimation.finalPositions large_grid;
     ReconstructionAnimation.startTime := Fin 0 |}.

(** [App] after a rebuild has answered with [large_canvas]. *)
Definition rebuilt_state : App.State :=
  App.setPlacementData (Some large_canvas) App.initial.

(** The run that [startAnimation] starts at time 0 in [rebuilt_state], and
    the state it leaves. *)
Definition canvas_run : App.Run :=
  {| App.currentAnimationId := 1;
     App.scatteredOfRun := (App.generateScatteredPositions always_half large_canvas 0).1;
     App.startTime := Fin 0 |}.

Definition canvas_state : App.State :=
  (App.startAnimation always_half (Some large_canvas) (Fin 0) 0 rebuilt_state).1.1.

(** [rebuilt_state] before any call of [Math.random()]. *)
Definition rebuilt_world : App.World :=
  {| App.state := rebuilt_state; App.randomCalls := 0 |}.

(** A service that was asked for 50 pieces and answers with 3. *)
Definition short_answer : App.Data.t :=
  {| App.Data.pieces := Some ["/static/pieces/piece_0.png";
                              "/static/pieces/piece_1.png";
                              "/static/pieces/piece_2.png"];
     App.Data.error := None;
     App.Data.image_size := None;
     App.Data.runtime := None;
     App.Data.timing_breakdown := None;
     App.Data.rebuilt := None;
     App.Data.placement_data := None |}.

(** A run of [ReconstructionAnimation] with one piece, started at time 0. *)
Definition plain_run : ReconstructionAnimation.Run :=
  {| ReconstructionAnimation.startPositions := [ {| top := Fin 40; left := Fin 600 |} ];
     ReconstructionAnimation.endPositions := [ {| top := Fin 150; left := Fin 200 |} ];
     ReconstructionAnimation.startTime := Fin 0 |}.

(** The first piece of [large_canvas], scattered by [always_half]. *)
Definition scattered_first : App.ScatteredPiece :=
  App.scatterPiece always_half (App.PlacementData.canvas_size large_canvas) 0
    {| App.piece_index := 0; App.filename := "piece_0.png";
       App.final_position := (Fin 0, Fin 0) |}.

(** [ReconstructionAnimation] right after [startAnimation] for [large_grid]. *)
Definition animating_state : ReconstructionAnimation.State :=
  (ReconstructionAnimation.startAnimation large_grid (Fin 0) scattered_state).1.

(** A canvas of 800 x 600 with one piece. *)
Definition small_canvas : App.PlacementData.t :=
  {| App.PlacementData.canvas_size := {| App.width := Fin 800; App.height := Fin 600 |};
     App.PlacementData.piece_size := {| App.width := Fin 800; App.height := Fin 600 |};
     App.PlacementData.pieces :=
       [ {| App.piece_index := 0; App.filename := "piece_0.png";
            App.final_position := (Fin 0, Fin 0) |} ] |}.

(** The answer to a rebuild, with the placement [small_canvas]. *)
Definition rebuilt_answer : App.Data.t :=
  {| App.Data.pieces := None;
     App.Data.error := None;
     App.Data.image_size := None;
     App.Data.runtime := Some (Fin 2);
     App.Data.timing_breakdown := None;
     App.Data.rebuilt := Some "/static/rebuilt.png";
     App.Data.placement_data := Some small_canvas |}.

(** The component of App.tsx before any event. *)
Definition app_mounted : App.World :=
  {| App.state := App.initial; App.randomCalls := 0 |}.

(** Some events of the component of App.tsx: an image is chosen and
    shattered into three pieces, the pieces are shuffled twice, a rebuild
    fails, and a zip file is chosen. *)
Definition app_session : list AppTsx.Event :=
  [ AppTsx.HandleImageUpload "cat.png" "blob:cat";
    AppTsx.HandleShatterRequest;
    AppTsx.HandleShatterResponse 3 (App.Body short_answer);
    AppTsx.HandleShuffle;
    AppTsx.HandleShuffle;
    AppTsx.HandleRebuildRequest;
    AppTsx.HandleRebuildResponse App.Threw;
    AppTsx.HandleZipUpload "pieces.zip" ].

(** Some events of the first component: a file is chosen, the request
    fails, the pieces are shuffled, and a piece is looked at. *)
Definition legacy_session : list LegacyApp.Event :=
  [ LegacyApp.HandleUploadRequest ["cat.png"];
    LegacyApp.HandleUploadResponse App.Threw;
    LegacyApp.HandleShuffle;
    LegacyApp.OpenModal "/static/pieces/piece_0.png";
    LegacyApp.CloseModal ].

(** The first component before any event. *)
Definition legacy_mounted : LegacyApp.World :=
  {| LegacyApp.state := LegacyApp.initial; LegacyApp.randomCalls := 0 |}.

(** Some events of a memory game: two clicks, a tick, a timer, a restart
    and a click. *)
Definition memory_session : list MemoryGame.Event :=
  [ MemoryGame.Click 0; MemoryGame.Click 1; MemoryGame.Tick;
    MemoryGame.ClearSelection; MemoryGame.ResetGame; MemoryGame.Click 15 ].

(** Clicks and ticks of a memory game, without a restart. *)
Definition memory_clicks : list MemoryGame.Event :=
  [ MemoryGame.Click 0; MemoryGame.Tick; MemoryGame.Click 1; MemoryGame.Tick ].

(** Some events of a dice game: a roll, three callbacks of its interval,
    and a call of [rollDice] during the roll. *)
Definition dice_session : list DiceGame.Event :=
  [ DiceGame.RollDice; DiceGame.RollInterval 0; DiceGame.RollInterval 0;
    DiceGame.RollDice; DiceGame.RollInterval 0 ].

(** One whole roll: [rollDice] and the ten callbacks of its interval. *)
Definition whole_roll : list DiceGame.Event :=
  DiceGame.RollDice :: replicate 10 (DiceGame.RollInterval 0).

(** [large_grid] with the images of its two pieces. *)
Definition pictured_grid : ReconstructionAnimation.Props :=
  {| ReconstructionAnimation.pieces := ["piece_0.png"; "piece_5.png"];
     ReconstructionAnimation.pieceCoordinates :=
       ReconstructionAnimation.pieceCoordinates large_grid;
     ReconstructionAnimation.pieceDimensions :=
       ReconstructionAnimation.pieceDimensions large_grid;
     ReconstructionAnimation.gridSize := ReconstructionAnimation.gridSize large_grid |}.

(** * Properties *)

Lemma always_half_range : in_unit_interval always_half.
Proof. intros k. unfold always_half. split; [discriminate | reflexivity]. Defined.

(** ** [shuffleArray] *)

Section ShuffleFacts.

Import Shuffle.

Context {T : Type}.
Variable random : oracle.
Hypothesis random_range : in_unit_interval random.

(** The index chosen for [i] is [m] exactly when [Math.random()] fell into
    the [m]-th of the [i + 1] intervals of equal length of [[0, 1)]. *)
Lemma pick_interval (k i : nat) (m : Z) :
  pick random k i = m
  <-> inject_Z m <= random k * inject_Z (Z.of_nat (i + 1))
      /\ random k * inject_Z (Z.of_nat (i + 1)) < inject_Z (m + 1).
Proof.
  unfold pick. set (x := random k * inject_Z (Z.of_nat (i + 1))).
  pose proof (Qfloor_le x) as Hle. pose proof (Qlt_floor x) as Hlt.
  split.
  - intros <-. by split.
  - intros [Hlo Hhi].
    apply Qfloor_resp_le in Hlo as Hlo'. rewrite Qfloor_Z in Hlo'.
    assert (Hup : (Qfloor x < m + 1)%Z).
    { rewrite Zlt_Qlt. by eapply Qle_lt_trans. }
    lia.
Qed.

(** The index chosen for [i] is one of [0 .. i]. *)
Lemma pick_range (k i : nat) : (0 <= pick random k i <= Z.of_nat i)%Z.
Proof.
  destruct (random_range k) as [H0 H1].
  destruct (pick_interval k i (pick random k i)) as [Hint _].
  specialize (Hint eq_refl) as [Hlo Hhi].
  set (n := inject_Z (Z.of_nat (i + 1))) in *.
  assert (Hn : 0 < n).
  { unfold n. change 0 with (inject_Z 0). rewrite <- Zlt_Qlt. lia. }
  assert (Hx0 : 0 <= random k * n) by nra.
  assert (Hx1 : random k * n < n) by nra.
  split.
  - change 0%Z with (Qfloor 0). by apply Qfloor_resp_le.
  - assert ((pick random k i < Z.of_nat (i + 1))%Z); [|lia].
    rewrite Zlt_Qlt. fold n. by eapply Qle_lt_trans.
Qed.

Lemma chosen_le (k n i : nat) : (chosen random k n i <= i)%nat.
Proof. unfold chosen. pose proof (pick_range (k + (n - 1 - i)) i). lia. Qed.

Lemma exchange_length (l : list T) (i j : nat) : length (exchange l i j) = length l.
Proof. unfold exchange. apply length_imap. Qed.

Lemma exchange_same (l : list T) (i : nat) : exchange l i i = l.
Proof.
  unfold exchange. apply list_eq. intros n. rewrite list_lookup_imap.
  destruct (l !! n) as [x|] eqn:Hn; simpl; [|done].
  destruct (decide (n = i)) as [->|]; [|done]. by rewrite Hn.
Qed.

Lemma exchange_lookup_other (l : list T) (i j m : nat) :
  m <> i -> m <> j -> exchange l i j !! m = l !! m.
Proof.
  intros Hi Hj. unfold exchange. rewrite list_lookup_imap.
  destruct (l !! m); [|done]. cbn. by rewrite !decide_False.
Qed.

Lemma exchange_lookup_first (l : list T) (i j : nat) :
  (i < length l)%nat -> (j < length l)%nat -> exchange l i j !! i = l !! j.
Proof.
  intros Hi Hj. unfold exchange. rewrite list_lookup_imap.
  destruct (lookup_lt_is_Some_2 l i Hi) as [x ->].
  destruct (lookup_lt_is_Some_2 l j Hj) as [y Hy].
  cbn. rewrite decide_True by done. by rewrite Hy.
Qed.

(** Exchanging two elements is writing each where the other was. *)
Lemma exchange_inserts (l : list T) (i j : nat) (ai aj : T) :
  l !! i = Some ai -> l !! j = Some aj ->
  exchange l i j = <[j := ai]> (<[i := aj]> l).
Proof.
  intros Hai Haj. pose proof (lookup_lt_Some _ _ _ Hai) as Hi.
  pose proof (lookup_lt_Some _ _ _ Haj) as Hj.
  unfold exchange. apply list_eq. intros n. rewrite list_lookup_imap.
  destruct (decide (n = j)) as [->|Hnj].
  - rewrite list_lookup_insert_eq by (rewrite length_insert; lia).
    rewrite Haj. simpl. destruct (decide (j = i)) as [->|]; [|by rewrite Hai].
    simpl. congruence.
  - rewrite list_lookup_insert_ne by done.
    destruct (decide (n = i)) as [->|Hni].
    + rewrite list_lookup_insert_eq by lia. by rewrite Hai, Haj.
    + rewrite list_lookup_insert_ne by done. by destruct (l !! n).
Qed.

Lemma exchange_Permutation (l : list T) (i j : nat) :
  (i < length l)%nat -> (j < length l)%nat -> exchange l i j ≡ₚ l.
Proof.
  intros Hi Hj.
  destruct (lookup_lt_is_Some_2 l i Hi) as [ai Hai].
  destruct (lookup_lt_is_Some_2 l j Hj) as [aj Haj].
  rewrite (exchange_inserts l i j ai aj) by done.
  by apply Permutation_insert_swap.
Qed.

Lemma fisher_yates_length (choice : nat -> nat) (n : nat) (l : list T) :
  length (fisher_yates choice n l) = length l.
Proof.
  revert l. induction n as [|n IH]; intros l; [done|].
  cbn [fisher_yates]. by rewrite IH, exchange_length.
Qed.

Lemma fisher_yates_Permutation (choice : nat -> nat) (n : nat) (l : list T) :
  (n <= length l)%nat ->
  (forall i, (i < n)%nat -> (choice i <= i)%nat) ->
  fisher_yates choice n l ≡ₚ l.
Proof.
  revert l. induction n as [|n IH]; intros l Hn Hc; [done|].
  cbn [fisher_yates]. pose proof (Hc n ltac:(lia)).
  rewrite IH by (rewrite ?exchange_length; intros; try apply Hc; lia).
  apply exchange_Permutation; lia.
Qed.

(** The steps that are left do not touch the positions already visited. *)
Lemma fisher_yates_above (choice : nat -> nat) (n m : nat) (l : list T) :
  (forall i, (i < n)%nat -> (choice i <= i)%nat) ->
  (n <= m)%nat ->
  fisher_yates choice n l !! m = l !! m.
Proof.
  revert l. induction n as [|n IH]; intros l Hc Hm; [done|].
  cbn [fisher_yates]. rewrite IH by (intros; try apply Hc; lia).
  pose proof (Hc n ltac:(lia)). apply exchange_lookup_other; lia.
Qed.

(** On an array without duplicates the shuffle of the specification is
    injective in the choices: two different sequences of choices give two
    different arrangements.  So the [n!] sequences of choices give the [n!]
    arrangements, each once, and choices that are uniform and independent
    make all arrangements equally likely. *)
Lemma fisher_yates_injective (c1 c2 : nat -> nat) (n : nat) (l : list T) :
  NoDup l ->
  (n <= length l)%nat ->
  (forall i, (i < n)%nat -> (c1 i <= i)%nat /\ (c2 i <= i)%nat) ->
  fisher_yates c1 n l = fisher_yates c2 n l ->
  forall i, (i < n)%nat -> c1 i = c2 i.
Proof.
  revert l. induction n as [|n IH]; intros l Hnd Hn Hc Heq i Hi; [lia|].
  cbn [fisher_yates] in Heq.
  destruct (Hc n ltac:(lia)) as [H1 H2].
  assert (Hn12 : c1 n = c2 n).
  { apply (f_equal (fun l' => l' !! n)) in Heq.
    rewrite !fisher_yates_above in Heq by (intros; try (apply Hc; lia); lia).
    rewrite !exchange_lookup_first in Heq by lia.
    destruct (lookup_lt_is_Some_2 l (c1 n) ltac:(lia)) as [x Hx].
    rewrite Hx in Heq. symmetry in Heq.
    by eapply NoDup_lookup. }
  destruct (decide (i = n)) as [->|Hne]; [done|].
  rewrite <- Hn12 in Heq.
  apply (IH (exchange l n (c1 n))); try done; try lia.
  - by rewrite exchange_Permutation by lia.
  - rewrite exchange_length. lia.
  - intros m Hm. apply Hc. lia.
Qed.

(** A swap at an index that was chosen is the exchange of the
    specification. *)
Lemma swap_exchange (arr : list T) (i k : nat) :
  (i < length arr)%nat ->
  swap arr i (pick random k i) = Some (exchange arr i (Z.to_nat (pick random k i))).
Proof.
  intros Hi. pose proof (pick_range k i) as [Hlo Hhi].
  unfold swap, at_index.
  destruct (Z.ltb_spec (pick random k i) 0) as [|_]; [lia|].
  destruct (lookup_lt_is_Some_2 arr i Hi) as [ai Hai].
  destruct (lookup_lt_is_Some_2 arr (Z.to_nat (pick random k i)) ltac:(lia))
    as [aj Haj].
  rewrite Hai, Haj. by rewrite (exchange_inserts arr _ _ ai aj).
Qed.

(** The loop of the source is the shuffle of the specification without its
    last step, which exchanges the first element with itself. *)
Lemma loop_fisher_yates (i k : nat) (arr : list T) (choice : nat -> nat) :
  (i < length arr)%nat ->
  (forall m, (1 <= m <= i)%nat ->
             choice m = Z.to_nat (pick random (k + (i - m)) m)) ->
  choice O = O ->
  loop random i k arr = Some (fisher_yates choice (S i) arr, (k + i)%nat).
Proof.
  revert k arr. induction i as [|i IH]; intros k arr Hi Hc H0.
  - simpl. by rewrite H0, exchange_same, Nat.add_0_r.
  - change (fisher_yates choice (S (S i)) arr)
      with (fisher_yates choice (S i) (exchange arr (S i) (choice (S i)))).
    cbn [loop]. rewrite swap_exchange by done.
    rewrite (Hc (S i)) by lia. rewrite Nat.sub_diag, Nat.add_0_r.
    rewrite (IH (S k) _); [f_equal; f_equal; lia|rewrite exchange_length; lia| |done].
    intros m Hm. rewrite Hc by lia. do 2 f_equal. lia.
Qed.

Lemma shuffled_fisher_yates (k : nat) (array : list T) :
  shuffled random k array
  = Some (fisher_yates (chosen random k (length array)) (length array) array,
          (k + (length array - 1))%nat).
Proof.
  unfold shuffled. destruct array as [|x array]; [by rewrite Nat.add_0_r|].
  cbn [length]. rewrite Nat.sub_succ, Nat.sub_0_r.
  apply loop_fisher_yates; [simpl; lia| |].
  - intros m Hm. unfold chosen. do 2 f_equal. lia.
  - pose proof (chosen_le k (S (length array)) 0). lia.
Qed.

(** The loop on the store does to the array at [arr] what [loop] does to a
    list, and touches nothing else. *)
Lemma loop_in_place_spec (arr : loc) (i k : nat) (h : store T) (a : list T) :
  h !! arr = Some a ->
  loop_in_place random arr i k h
  = match loop random i k a with
    | Some (a', k') => Some (<[arr := a']> h, k')
    | None => None
    end.
Proof.
  revert k h a. induction i as [|i IH]; intros k h a Ha; cbn [loop_in_place loop].
  - by rewrite insert_id.
  - rewrite Ha. destruct (swap a (S i) (pick random k (S i))) as [a'|]; [|done].
    rewrite (IH _ _ a') by apply lookup_insert_eq.
    destruct (loop random i (S k) a') as [[a'' k']|]; [|done].
    by rewrite insert_insert_eq.
Qed.

Lemma shuffleArray_spec (array : loc) (k : nat) (h : store T) (contents : list T) :
  h !! array = Some contents ->
  shuffleArray random array k h
  = Some (fresh (dom h),
          <[fresh (dom h) :=
              fisher_yates (chosen random k (length contents)) (length contents)
                contents]> h,
          (k + (length contents - 1))%nat).
Proof.
  intros Ha. unfold shuffleArray. rewrite Ha.
  rewrite (loop_in_place_spec _ _ _ _ contents) by apply lookup_insert_eq.
  fold (shuffled random k contents). rewrite shuffled_fisher_yates.
  by rewrite insert_insert_eq.
Qed.


(** C10.  [shuffleArray] does not mutate its argument: the array it returns
    is a newly allocated one, and after the call the argument, like every
    other array of the store, holds what it held before. *)
Theorem shuffleArray_keeps_argument (h : store T) (array : loc)
  (contents : list T) (k : nat) :
  h !! array = Some contents ->
  exists (arr : loc) (h' : store T) (k' : nat),
    shuffleArray random array k h = Some (arr, h', k')
    /\ h !! arr = None
    /\ arr <> array
    /\ h' !! array = Some contents
    /\ forall l : loc, l <> arr -> h' !! l = h !! l.
Proof.
  intros Ha.
  assert (Hfresh : h !! fresh (dom h) = None).
  { apply not_elem_of_dom. apply is_fresh. }
  assert (Hne : fresh (dom h) <> array) by congruence.
  eexists _, _, _. split; [by apply shuffleArray_spec|].
  split; [done|]. split; [done|].
  split; [by rewrite lookup_insert_ne|].
  intros l Hl. by rewrite lookup_insert_ne.
Qed.

End ShuffleFacts.

(** Two runs of [shuffleArray] on an array without duplicates that return
    the same arrangement made the same choices. *)
Lemma shuffled_injective {T : Type} (random1 random2 : oracle) (k1 k2 : nat)
  (array : list T) :
  in_unit_interval random1 -> in_unit_interval random2 ->
  NoDup array ->
  fst <$> Shuffle.shuffled random1 k1 array
  = fst <$> Shuffle.shuffled random2 k2 array ->
  forall i, (i < length array)%nat ->
    Shuffle.chosen random1 k1 (length array) i
    = Shuffle.chosen random2 k2 (length array) i.
Proof.
  intros Hr1 Hr2 Hnd Heq. rewrite !shuffled_fisher_yates in Heq by done.
  injection Heq as Heq.
  apply (fisher_yates_injective _ _ (length array) array); try done.
  intros i _. split; by apply chosen_le.
Qed.


Lemma shuffleArray_keeps_argument_witness :
  exists (arr : Shuffle.loc) (h' : Shuffle.store nat) (k' : nat),
    Shuffle.shuffleArray always_half 1%positive 0 {[ 1%positive := [10; 20; 30]%nat ]}
    = Some (arr, h', k')
    /\ ({[ 1%positive := [10; 20; 30]%nat ]} : Shuffle.store nat) !! arr = None
    /\ arr <> 1%positive
    /\ h' !! 1%positive = Some [10; 20; 30]%nat
    /\ forall l : Shuffle.loc, l <> arr ->
         h' !! l = ({[ 1%positive := [10; 20; 30]%nat ]} : Shuffle.store nat) !! l.
Proof.
  apply (shuffleArray_keeps_argument always_half always_half_range
           {[ 1%positive := [10; 20; 30]%nat ]} 1%positive [10; 20; 30]%nat 0%nat).
  reflexivity.
Defined.

(** What the shuffle computes on a small array with this oracle, in the
    store and on the list. *)
Example shuffled_example :
  Shuffle.shuffled always_half 0 [10; 20; 30; 40]%nat
  = Some ([10; 40; 20; 30]%nat, 3%nat)
  /\ Shuffle.shuffleArray always_half 1%positive 0
       {[ 1%positive := [10; 20; 30; 40]%nat ]}
     = Some (2%positive,
             {[ 1%positive := [10; 20; 30; 40]%nat;
                2%positive := [10; 40; 20; 30]%nat ]},
             3%nat).
Proof. split; reflexivity. Qed.

(** ** The scatter effect *)

(** Comparisons of finite numbers are comparisons of rationals. *)
Lemma lt_Fin_false (a b : Q) : Js.lt (Fin a) (Fin b) = false <-> b <= a.
Proof.
  cbn. rewrite negb_false_iff. apply Qle_bool_iff.
Qed.

Lemma lt_Fin_true (a b : Q) : Js.lt (Fin a) (Fin b) = true <-> a < b.
Proof.
  cbn. rewrite negb_true_iff, <- not_true_iff_false, Qle_bool_iff.
  split; [apply Qnot_le_lt | apply Qlt_not_le].
Qed.

Section ScatterFacts.

Import Scatter.

Variables containerWidth containerHeight pieceSizeScattered padding : Q.
Variable random : oracle.

Local Abbreviation do_while := (do_while containerWidth containerHeight pieceSizeScattered padding random).
Local Abbreviation for_pieces := (for_pieces containerWidth containerHeight pieceSizeScattered padding random).
Local Abbreviation scatter := (scatter containerWidth containerHeight pieceSizeScattered padding random).
Local Abbreviation overlapping := (overlapping pieceSizeScattered padding).
Local Abbreviation separated := (separated pieceSizeScattered padding).
Local Abbreviation sample := (sample containerWidth containerHeight pieceSizeScattered random).
Local Abbreviation pairwise_separated := (pairwise_separated pieceSizeScattered padding).

(** What one [do ... while] guarantees about what it leaves behind, when it
    started with [attempts0] and [k0]. *)
Record loop_post (attempts0 k0 : nat) (scatteredPositions : list Position)
  (s : Sampled) : Prop := {
  post_attempts_lower : (attempts0 < attempts s)%nat;
  post_attempts_upper : (attempts s <= Nat.max maxAttempts (S attempts0))%nat;
  post_calls : calls s = (k0 + 2 * (attempts s - attempts0))%nat;
  post_position : position s = sample (calls s - 2);
  post_overlaps :
    overlaps s = existsb (overlapping (position s)) scatteredPositions;
  post_exhausted : overlaps s = true -> (maxAttempts <= attempts s)%nat
}.

(** The loop stops before the fuel does, as soon as the fuel covers the
    attempts that are left. *)
Lemma do_while_total (fuel attempts0 k0 : nat) (scatteredPositions : list Position) :
  (1 <= fuel)%nat -> (maxAttempts <= fuel + attempts0)%nat ->
  exists s, do_while fuel attempts0 k0 scatteredPositions = Some s
            /\ loop_post attempts0 k0 scatteredPositions s.
Proof.
  revert attempts0 k0.
  induction fuel as [|fuel IH]; intros attempts0 k0 Hfuel Hcover; [lia|].
  cbn [Scatter.do_while].
  destruct (existsb (overlapping (sample k0)) scatteredPositions) eqn:Hov;
    cbn [andb].
  - destruct (S attempts0 <? maxAttempts)%nat eqn:Hlt.
    + apply Nat.ltb_lt in Hlt.
      destruct (IH (S attempts0) (2 + k0)%nat) as (s & Hs & Hpost); [lia|lia|].
      exists s. split; [done|]. destruct Hpost. split; try done; lia.
    + apply Nat.ltb_ge in Hlt. eexists. split; [done|].
      split; cbn; try done; try lia. f_equal. lia.
  - eexists. split; [done|]. split; cbn; try done; try lia. f_equal. lia.
Qed.

(** With enough fuel the result does not depend on the fuel. *)
Lemma do_while_fuel (fuel fuel' attempts0 k0 : nat) (scatteredPositions : list Position) s :
  do_while fuel attempts0 k0 scatteredPositions = Some s ->
  (fuel <= fuel')%nat ->
  do_while fuel' attempts0 k0 scatteredPositions = Some s.
Proof.
  revert fuel' attempts0 k0.
  induction fuel as [|fuel IH]; intros fuel' attempts0 k0 Hs Hle; [done|].
  destruct fuel' as [|fuel']; [lia|]. cbn [Scatter.do_while] in *.
  destruct (_ && _); [|done]. apply IH; [done|lia].
Qed.

Lemma sample_finite (k : nat) : finite_position (sample k).
Proof. by eexists _, _. Qed.

Lemma not_overlapping_separated (position pos : Position) :
  finite_position position -> finite_position pos ->
  overlapping position pos = false -> separated pos position.
Proof.
  intros (t & l & ->) (t' & l' & ->).
  unfold Scatter.overlapping, Scatter.separated.
  cbn [top left Js.sub Js.neg Js.add Js.Math.abs Js.le].
  rewrite andb_false_iff, !lt_Fin_false. tauto.
Qed.

Lemma pairwise_separated_snoc (positions : list Position) (position : Position) :
  Forall finite_position positions -> finite_position position ->
  pairwise_separated positions ->
  existsb (overlapping position) positions = false ->
  pairwise_separated (positions ++ [position]).
Proof.
  intros Hfin Hfinp Hsep Hnone i j p q Hij Hi Hj.
  assert (Hilt : (i < length positions)%nat).
  { apply lookup_lt_Some in Hj. rewrite length_app in Hj. simpl in Hj. lia. }
  rewrite lookup_app_l in Hi by done.
  destruct (decide (j < length positions)%nat) as [Hjlt|Hjge].
  - rewrite lookup_app_l in Hj by done. exact (Hsep i j p q Hij Hi Hj).
  - rewrite lookup_app_r in Hj by lia.
    destruct (j - length positions)%nat; [|by destruct n]. simplify_eq/=.
    apply not_overlapping_separated; [done| |].
    { rewrite Forall_lookup in Hfin. by eapply Hfin. }
    rewrite <- not_true_iff_false, existsb_exists in Hnone.
    apply not_true_iff_false. intros Hov. apply Hnone.
    exists p. split; [|done]. apply list_elem_of_In.
    by eapply list_elem_of_lookup_2.
Qed.

(** The invariant of the loop over the pieces. *)
Lemma for_pieces_spec {A : Type} (fuel : nat) (pieces : list A) (k : nat)
  (scatteredPositions : list Position) (log : list Sampled) :
  (maxAttempts <= fuel)%nat ->
  Forall finite_position scatteredPositions ->
  exists positions log' k',
    for_pieces fuel pieces k scatteredPositions log
    = Some (scatteredPositions ++ positions, log ++ log', k')
    /\ length positions = length pieces
    /\ positions = map position log'
    /\ Forall finite_position positions
    /\ Forall (fun s => (1 <= attempts s <= maxAttempts)%nat) log'
    /\ Forall (fun s => overlaps s = true -> attempts s = maxAttempts) log'
    /\ (pairwise_separated scatteredPositions ->
        Forall (fun s => overlaps s = false) log' ->
        pairwise_separated (scatteredPositions ++ positions)).
Proof.
  intros Hfuel. revert k scatteredPositions log.
  induction pieces as [|piece pieces IH]; intros k scatteredPositions log Hfin.
  - exists [], [], k. cbn. rewrite !app_nil_r. repeat split; try done.
  - cbn [Scatter.for_pieces].
    destruct (do_while_total fuel 0 k scatteredPositions) as (s & -> & Hpost);
      [unfold maxAttempts in Hfuel; lia|lia|].
    assert (Hfins : finite_position (position s)).
    { destruct Hpost as [_ _ _ -> _ _]. apply sample_finite. }
    destruct (IH (calls s) (scatteredPositions ++ [position s]) (log ++ [s]))
      as (positions & log' & k' & -> & Hlen & Hmap & Hfin' & Hatt & Hexh & Hsep).
    { apply Forall_app. split; [done|by constructor]. }
    exists (position s :: positions), (s :: log'), k'.
    rewrite <- !app_assoc. cbn [app]. split; [done|].
    split; [cbn; lia|]. split; [cbn; congruence|].
    split; [by constructor|].
    destruct Hpost.
    assert (Hup : (attempts s <= maxAttempts)%nat).
    { unfold maxAttempts in *. lia. }
    split; [constructor; [lia|done]|].
    split; [constructor; [|done]|].
    { intros Hov. specialize (post_exhausted0 Hov). lia. }
    intros Hsep0 Hall. apply Forall_cons in Hall as [Hs Hall'].
    rewrite cons_middle, app_assoc.
    apply Hsep; [|done].
    apply pairwise_separated_snoc; [done|done|done|]. congruence.
Qed.

End ScatterFacts.

(** On finite positions [separated] reads in rationals. *)
Lemma separated_rational (S P t1 l1 t2 l2 : Q) :
  Scatter.separated S P
    {| top := Fin t1; left := Fin l1 |} {| top := Fin t2; left := Fin l2 |}
  <-> S + P <= Qabs (l1 + - l2) \/ S + P <= Qabs (t1 + - t2).
Proof. reflexivity. Qed.

Lemma scatter_has_outcome (W H S P : Q) (random : oracle) {A : Type}
  (pieces : list A) (k fuel : nat) :
  (Scatter.maxAttempts <= fuel)%nat ->
  scatter_outcome S P (Scatter.scatter W H S P random fuel pieces k) (length pieces).
Proof.
  intros Hfuel. unfold Scatter.scatter.
  destruct (for_pieces_spec W H S P random fuel pieces k [] [] Hfuel)
    as (positions & log & k' & Hrun & Hlen & Hmap & Hfin & Hatt & Hexh & Hsep);
    [done|].
  exists positions, log, k'. repeat split; try done.
  - eapply Forall_impl; [exact Hexh|]. intros s Hs Hlt. cbn beta in *.
    destruct (Scatter.overlaps s); [|done]. specialize (Hs eq_refl). lia.
  - intros Hall. apply Hsep; [|done]. intros i j p q _ Hi. by destruct i.
Qed.

(** C5.  The scatter placement generator terminates and returns one
    position per piece: in both components, with fuel for [maxAttempts]
    rounds, the effect returns a list as long as the list of pieces, and the
    loop of each piece ran at least once and at most [maxAttempts = 1000]
    times, whether or not the positions overlap. *)
Theorem scatter_one_position_per_piece (random : oracle) {A : Type}
  (pieces : list A) (k fuel : nat) :
  (Scatter.maxAttempts <= fuel)%nat ->
  Scatter.maxAttempts = 1000%nat
  /\ (exists positions log k',
        ReconstructionAnimation.scatter random fuel pieces k = Some (positions, log, k')
        /\ length positions = length pieces
        /\ positions = map Scatter.position log
        /\ Forall (fun s => (1 <= Scatter.attempts s <= 1000)%nat) log)
  /\ (exists positions log k',
        ScatteredPieces.scatter random fuel pieces k = Some (positions, log, k')
        /\ length positions = length pieces
        /\ positions = map Scatter.position log
        /\ Forall (fun s => (1 <= Scatter.attempts s <= 1000)%nat) log).
Proof.
  intros Hfuel. split; [done|]. split.
  - destruct (scatter_has_outcome ReconstructionAnimation.containerWidth
                ReconstructionAnimation.containerHeight
                ReconstructionAnimation.pieceSizeScattered
                ReconstructionAnimation.padding random pieces k fuel Hfuel)
      as (positions & log & k' & ? & ? & ? & _ & ? & _).
    by exists positions, log, k'.
  - destruct (scatter_has_outcome ScatteredPieces.containerWidth
                ScatteredPieces.containerHeight
                ScatteredPieces.pieceSizeScattered
                ScatteredPieces.padding random pieces k fuel Hfuel)
      as (positions & log & k' & ? & ? & ? & _ & ? & _).
    by exists positions, log, k'.
Qed.

Lemma scatter_one_position_per_piece_witness :
  (Scatter.maxAttempts <= 1000)%nat
  /\ (Scatter.maxAttempts = 1000%nat
      /\ (exists positions log k',
            ReconstructionAnimation.scatter always_half 1000 ["a"; "b"; "c"] 0
            = Some (positions, log, k')
            /\ length positions = length ["a"; "b"; "c"]
            /\ positions = map Scatter.position log
            /\ Forall (fun s => (1 <= Scatter.attempts s <= 1000)%nat) log)
      /\ (exists positions log k',
            ScatteredPieces.scatter always_half 1000 ["a"; "b"; "c"] 0
            = Some (positions, log, k')
            /\ length positions = length ["a"; "b"; "c"]
            /\ positions = map Scatter.position log
            /\ Forall (fun s => (1 <= Scatter.attempts s <= 1000)%nat) log)).
Proof.
  split; [reflexivity|].
  apply (scatter_one_position_per_piece always_half ["a"; "b"; "c"] 0 1000).
  reflexivity.
Defined.

(** Two pieces in [ScatteredPieces].  A layout without overlap exists, and
    the generator finds one with the oracle [spread]; with an oracle that
    always answers one half, the second loop uses its 1000 rounds and stops
    on the position of the first piece. *)
Lemma scatter_overlap_counterexample :
  (exists p q log k',
     ScatteredPieces.scatter spread 1000 ["piece_0.png"; "piece_1.png"] 0
     = Some ([p; q], log, k')
     /\ p = {| top := Fin (0 * (400 + - 300)); left := Fin (0 * (800 + - 300)) |}
     /\ q = {| top := Fin (0 * (400 + - 300));
               left := Fin ((9 # 10) * (800 + - 300)) |}
     /\ Scatter.separated ScatteredPieces.pieceSizeScattered
          ScatteredPieces.padding p q)
  /\ exists p q log k',
       ScatteredPieces.scatter always_half 1000 ["piece_0.png"; "piece_1.png"] 0
       = Some ([p; q], log, k')
       /\ p = {| top := Fin ((1 # 2) * (400 + - 300));
                 left := Fin ((1 # 2) * (800 + - 300)) |}
       /\ q = p
       /\ map Scatter.attempts log = [1; 1000]%nat
       /\ ~ Scatter.separated ScatteredPieces.pieceSizeScattered
              ScatteredPieces.padding p q.
Proof.
  split.
  - eexists _, _, _, _. split; [vm_compute; reflexivity|].
    split; [reflexivity|]. split; [reflexivity|]. left. cbn. discriminate.
  - eexists _, _, _, _. split; [vm_compute; reflexivity|].
    split; [reflexivity|]. split; [reflexivity|]. split; [reflexivity|].
    intros [H|H]; vm_compute in H; by apply H.
Qed.

(** The overlap above does not need a constant oracle.  In [ScatteredPieces]
    every position that can be sampled overlaps a first piece whose [left]
    is 250, so whatever [Math.random()] answers afterwards, the second piece
    overlaps the first. *)
Lemma scattered_pieces_middle_first (random : oracle) (fuel : nat) :
  in_unit_interval random ->
  random 1%nat == 1 # 2 ->
  (Scatter.maxAttempts <= fuel)%nat ->
  exists p q log k',
    ScatteredPieces.scatter random fuel ["piece_0.png"; "piece_1.png"] 0
    = Some ([p; q], log, k')
    /\ ~ Scatter.separated ScatteredPieces.pieceSizeScattered
           ScatteredPieces.padding p q.
Proof.
  intros Hrange Hmid Hfuel.
  unfold ScatteredPieces.scatter, Scatter.scatter.
  destruct fuel as [|fuel]; [unfold Scatter.maxAttempts in Hfuel; lia|].
  cbn [Scatter.for_pieces].
  change (Scatter.do_while _ _ _ _ random (S fuel) 0 0 [])
    with (Some {| Scatter.position :=
                    Scatter.sample ScatteredPieces.containerWidth
                      ScatteredPieces.containerHeight
                      ScatteredPieces.pieceSizeScattered random 0;
                  Scatter.overlaps := false;
                  Scatter.attempts := 1;
                  Scatter.calls := 2 |}).
  cbn [app Scatter.calls Scatter.position].
  destruct (do_while_total ScatteredPieces.containerWidth
              ScatteredPieces.containerHeight ScatteredPieces.pieceSizeScattered
              ScatteredPieces.padding random (S fuel) 0 2
              [Scatter.sample ScatteredPieces.containerWidth
                 ScatteredPieces.containerHeight
                 ScatteredPieces.pieceSizeScattered random 0])
    as (s & -> & Hpost); [lia|lia|].
  eexists _, _, _, _. split; [reflexivity|].
  destruct Hpost as [_ _ _ Hpos _ _]. rewrite Hpos.
  set (k := (Scatter.calls s - 2)%nat).
  unfold Scatter.sample, ScatteredPieces.containerHeight,
    ScatteredPieces.containerWidth, ScatteredPieces.pieceSizeScattered,
    ScatteredPieces.padding.
  cbn [Js.sub Js.neg Js.add Js.mul].
  rewrite separated_rational.
  destruct (Hrange 0%nat) as [? ?], (Hrange k) as [? ?], (Hrange (S k)) as [? ?].
  assert (Hl : Qabs (random 1%nat * (800 + - (300)) + - (random (S k) * (800 + - (300)))) <= 250).
  { apply Qabs_Qle_condition. rewrite Hmid. split; lra. }
  assert (Ht : Qabs (random 0%nat * (400 + - (300)) + - (random k * (400 + - (300)))) <= 100).
  { apply Qabs_Qle_condition. split; lra. }
  intros [Hc|Hc]; lra.
Qed.

(** C6, amended.  In both components the positions that the scatter
    placement generator returns are separated pairwise ([|dx| >= S + P] or
    [|dy| >= S + P] for every two of them, all coordinates being finite)
    whenever the loop of every piece stopped on a position that passed the
    test, which is the case of every loop that stopped before its 1000th
    round. *)
Theorem scatter_separated_when_accepted (random : oracle) {A : Type}
  (pieces : list A) (k fuel : nat) :
  (Scatter.maxAttempts <= fuel)%nat ->
  (exists positions log k',
     ScatteredPieces.scatter random fuel pieces k = Some (positions, log, k')
     /\ Forall finite_position positions
     /\ Forall (fun s => (Scatter.attempts s < Scatter.maxAttempts)%nat ->
                         Scatter.overlaps s = false) log
     /\ (Forall (fun s => Scatter.overlaps s = false) log ->
         pairwise_separated ScatteredPieces.pieceSizeScattered
           ScatteredPieces.padding positions))
  /\ (exists positions log k',
        ReconstructionAnimation.scatter random fuel pieces k = Some (positions, log, k')
        /\ Forall finite_position positions
        /\ Forall (fun s => (Scatter.attempts s < Scatter.maxAttempts)%nat ->
                            Scatter.overlaps s = false) log
        /\ (Forall (fun s => Scatter.overlaps s = false) log ->
            pairwise_separated ReconstructionAnimation.pieceSizeScattered
              ReconstructionAnimation.padding positions)).
Proof.
  intros Hfuel. split.
  - destruct (scatter_has_outcome ScatteredPieces.containerWidth
                ScatteredPieces.containerHeight
                ScatteredPieces.pieceSizeScattered
                ScatteredPieces.padding random pieces k fuel Hfuel)
      as (positions & log & k' & ? & _ & _ & ? & _ & ? & ?).
    by exists positions, log, k'.
  - destruct (scatter_has_outcome ReconstructionAnimation.containerWidth
                ReconstructionAnimation.containerHeight
                ReconstructionAnimation.pieceSizeScattered
                ReconstructionAnimation.padding random pieces k fuel Hfuel)
      as (positions & log & k' & ? & _ & _ & ? & _ & ? & ?).
    by exists positions, log, k'.
Qed.

Lemma scatter_separated_when_accepted_witness :
  (Scatter.maxAttempts <= 1000)%nat
  /\ ((exists positions log k',
         ScatteredPieces.scatter spread 1000 ["piece_0.png"; "piece_1.png"] 0
         = Some (positions, log, k')
         /\ Forall finite_position positions
         /\ Forall (fun s => (Scatter.attempts s < Scatter.maxAttempts)%nat ->
                             Scatter.overlaps s = false) log
         /\ (Forall (fun s => Scatter.overlaps s = false) log ->
             pairwise_separated ScatteredPieces.pieceSizeScattered
               ScatteredPieces.padding positions))
      /\ (exists positions log k',
            ReconstructionAnimation.scatter spread 1000 ["piece_0.png"; "piece_1.png"] 0
            = Some (positions, log, k')
            /\ Forall finite_position positions
            /\ Forall (fun s => (Scatter.attempts s < Scatter.maxAttempts)%nat ->
                                Scatter.overlaps s = false) log
            /\ (Forall (fun s => Scatter.overlaps s = false) log ->
                pairwise_separated ReconstructionAnimation.pieceSizeScattered
                  ReconstructionAnimation.padding positions))).
Proof.
  split; [reflexivity|].
  apply (scatter_separated_when_accepted spread ["piece_0.png"; "piece_1.png"] 0 1000).
  reflexivity.
Defined.

(** With [spread] both loops of [ScatteredPieces] stop in their first round,
    on separated positions. *)
Example scatter_spread :
  exists log k',
    ScatteredPieces.scatter spread 1000 ["piece_0.png"; "piece_1.png"] 0
    = Some ([ {| top := Fin (0 * (400 + - 300)); left := Fin (0 * (800 + - 300)) |};
              {| top := Fin (0 * (400 + - 300)); left := Fin ((9 # 10) * (800 + - 300)) |} ],
            log, k')
    /\ map Scatter.attempts log = [1; 1]%nat
    /\ map Scatter.overlaps log = [false; false].
Proof. eexists _, _. split; [vm_compute; reflexivity|]. by split. Qed.

(** ** Lists *)

Lemma lookup_map {A B : Type} (f : A -> B) (l : list A) (i : nat) :
  map f l !! i = f <$> l !! i.
Proof.
  revert i. induction l as [|x l IH]; intros [|i]; cbn; by try done.
Qed.

(** ** Arithmetic on finite numbers *)

Lemma equiv_refl (a : number) : a ≈ a.
Proof. destruct a; cbn; [reflexivity | done..]. Qed.

Lemma is_zero_false (q : Q) : ~ q == 0 -> Js.is_zero q = false.
Proof.
  intros Hq. unfold Js.is_zero. apply not_true_iff_false.
  by rewrite Qeq_bool_iff.
Qed.

Lemma is_zero_true (q : Q) : q == 0 -> Js.is_zero q = true.
Proof. intros Hq. unfold Js.is_zero. by apply Qeq_bool_iff. Qed.

Lemma div_Fin (a b : Q) : ~ b == 0 -> (Fin a / Fin b)%js = Fin (a / b).
Proof. intros Hb. cbn. by rewrite is_zero_false. Qed.

Lemma min2_Fin (a b : Q) :
  exists m : Q, Js.Math.min2 (Fin a) (Fin b) = Fin m /\ m == Qmin a b.
Proof.
  cbn. destruct (Qle_bool a b) eqn:Hle; cbn.
  - exists a. split; [done|]. apply Qle_bool_iff in Hle. symmetry. by apply Q.min_l.
  - exists b. split; [done|]. apply not_true_iff_false in Hle.
    rewrite Qle_bool_iff in Hle. symmetry. apply Q.min_r.
    apply Qlt_le_weak. by apply Qnot_le_lt.
Qed.

Lemma min3_Fin (a b c : Q) :
  exists m : Q, Js.Math.min3 (Fin a) (Fin b) (Fin c) = Fin m
                /\ m == Qmin (Qmin a b) c.
Proof.
  unfold Js.Math.min3. destruct (min2_Fin a b) as (m1 & -> & H1).
  destruct (min2_Fin m1 c) as (m & -> & H2). exists m. split; [done|].
  by rewrite H2, H1.
Qed.

(** ** Progress of an animation *)

(** Both components compute the progress of a frame with the same
    expression. *)
Lemma progress_same (elapsed : number) :
  ReconstructionAnimation.progress elapsed = App.progress elapsed.
Proof. reflexivity. Qed.

(** On a finite elapsed time the progress is the smaller one of
    [elapsed / 2000] and [1]: [Math.min] bounds it from above only. *)
Lemma progress_Fin (elapsed : Q) :
  exists p : Q, App.progress (Fin elapsed) = Fin p /\ p == Qmin (elapsed / 2000) 1.
Proof.
  unfold App.progress, App.animationDuration.
  rewrite div_Fin by discriminate. apply min2_Fin.
Qed.

(** C9, amended.  Within a run the progress of a frame is
    [Math.min(elapsed / 2000, 1)], in both components: it does not decrease
    when the elapsed time grows, it is at most 1, and it is 1 from 2000 ms
    on; for an elapsed time that is not negative it lies in [[0, 1]] and is
    [clamp(elapsed / 2000, 0, 1)]. *)
Theorem progress_monotone_and_bounded (elapsed elapsed' : Q) :
  elapsed <= elapsed' ->
  ReconstructionAnimation.progress (Fin elapsed) = App.progress (Fin elapsed)
  /\ App.progress (Fin elapsed) ≈ Fin (Qmin (elapsed / 2000) 1)
  /\ App.progress (Fin elapsed) ⪯ App.progress (Fin elapsed')
  /\ App.progress (Fin elapsed) ⪯ Fin 1
  /\ (2000 <= elapsed -> App.progress (Fin elapsed) ≈ Fin 1)
  /\ (0 <= elapsed ->
      Fin 0 ⪯ App.progress (Fin elapsed)
      /\ App.progress (Fin elapsed) ≈ Fin (Qmax 0 (Qmin (elapsed / 2000) 1))).
Proof.
  intros Hle. split; [apply progress_same|].
  destruct (progress_Fin elapsed) as (p & -> & Hp).
  destruct (progress_Fin elapsed') as (p' & -> & Hp').
  cbn. rewrite Hp, Hp'.
  assert (Hd : elapsed / 2000 <= elapsed' / 2000).
  { unfold Qdiv. apply Qmult_le_compat_r; [done|]. discriminate. }
  split; [reflexivity|].
  split; [by apply Q.min_le_compat_r|].
  split; [apply Q.le_min_r|].
  split.
  - intros Hfull. apply Q.min_r. apply Qle_shift_div_l; [reflexivity|lra].
  - intros H0.
    assert (Hpos : 0 <= elapsed / 2000).
    { unfold Qdiv. apply Qmult_le_0_compat; [done|]. discriminate. }
    split; [by apply Q.min_glb|].
    symmetry. apply Q.max_r. by apply Q.min_glb.
Qed.

Lemma progress_monotone_and_bounded_witness :
  500 <= 3000
  /\ (ReconstructionAnimation.progress (Fin 500) = App.progress (Fin 500)
      /\ App.progress (Fin 500) ≈ Fin (Qmin (500 / 2000) 1)
      /\ App.progress (Fin 500) ⪯ App.progress (Fin 3000)
      /\ App.progress (Fin 500) ⪯ Fin 1
      /\ (2000 <= 500 -> App.progress (Fin 500) ≈ Fin 1)
      /\ (0 <= 500 ->
          Fin 0 ⪯ App.progress (Fin 500)
          /\ App.progress (Fin 500) ≈ Fin (Qmax 0 (Qmin (500 / 2000) 1)))).
Proof.
  split; [discriminate|].
  apply (progress_monotone_and_bounded 500 3000); discriminate.
Defined.

(** There is no lower clamp: a frame whose time stamp precedes the start
    time gets a negative progress. *)
Lemma progress_negative_counterexample :
  App.progress (Fin (- (1000))) ≈ Fin (- (1 # 2))
  /\ ReconstructionAnimation.progress (Fin (- (1000))) ≈ Fin (- (1 # 2))
  /\ (App.progress (Fin (- (1000))) <? Fin 0)%js = true
  /\ ~ (Fin 0 ⪯ App.progress (Fin (- (1000))))
  /\ ~ (App.progress (Fin (- (1000))) ≈ Fin (Qmax 0 (Qmin (- (1000) / 2000) 1))).
Proof.
  split; [reflexivity|]. split; [reflexivity|]. split; [reflexivity|].
  split; vm_compute; intros H; first [discriminate H | by apply H].
Qed.

(** ** The coordinate transform *)

Section TransformFacts.

Import ReconstructionAnimation.

(** The scale of [startAnimation] for a grid with a positive size. *)
Lemma scale_positive_source (p : Props) (g w h : Q) :
  gridSize p = Fin g ->
  pieceDimensions p = {| height := Fin h; width := Fin w |} ->
  0 < g * w -> 0 < g * h ->
  exists s : Q,
    scale p = Fin s /\ s == Qmin (Qmin (800 / (g * w)) (600 / (g * h))) 1.
Proof.
  intros Hg Hd Hw Hh. unfold scale, scaleX, scaleY, containerWidth, containerHeight.
  rewrite Hg, Hd. cbn [width height Js.mul].
  rewrite !div_Fin by lra. apply min3_Fin.
Qed.

Lemma finalPosition_Fin (p : Props) (g w h s cx cy : Q) (idx : number) :
  gridSize p = Fin g ->
  pieceDimensions p = {| height := Fin h; width := Fin w |} ->
  scale p = Fin s ->
  finalPosition p {| PieceCoordinate.piece_index := idx;
                     PieceCoordinate.top := Fin cy;
                     PieceCoordinate.left := Fin cx |}
  = {| top := Fin ((cy * s + (600 + - (g * h * s)) / 2));
       left := Fin ((cx * s + (800 + - (g * w * s)) / 2)) |}.
Proof.
  intros Hg Hd Hs. unfold finalPosition, containerWidth, containerHeight.
  rewrite Hg, Hd, Hs. cbn [width height PieceCoordinate.top PieceCoordinate.left].
  cbn [Js.mul Js.sub Js.neg Js.add]. by rewrite !div_Fin by discriminate.
Qed.

(** The scale of the overlay for a canvas with a positive size. *)
Lemma overlay_scale_positive_source (pd : App.PlacementData.t) (cw ch : Q) :
  App.PlacementData.canvas_size pd = {| App.width := Fin cw; App.height := Fin ch |} ->
  0 < cw -> 0 < ch ->
  exists s : Q,
    App.scale pd = Fin s /\ s == Qmin (Qmin (800 / cw) (600 / ch)) 1.
Proof.
  intros Hc Hw Hh.
  unfold App.scale, App.scaleX, App.scaleY, App.canvasWidth, App.canvasHeight.
  rewrite Hc. cbn [App.width App.height]. unfold Js.or_else. cbn [Js.truthy].
  rewrite !is_zero_false by lra. cbn [negb].
  rewrite !div_Fin by lra. apply min3_Fin.
Qed.


End TransformFacts.

Example large_grid_positions :
  ReconstructionAnimation.scale large_grid ≈ Fin (1 # 2)
  /\ exists p0 p1,
       ReconstructionAnimation.finalPositions large_grid = [p0; p1]
       /\ same_position p0 {| top := Fin 0; left := Fin 0 |}
       /\ same_position p1 {| top := Fin 150; left := Fin 200 |}.
Proof.
  split; [reflexivity|]. eexists _, _. split; [reflexivity|].
  repeat split; reflexivity.
Qed.


(** The overlay then puts the centre of the image of a piece at
    [x * s + 400], [y * s + 300]: the image, scaled by [s], starts at
    [x * s + (800 - pieceWidth * s) / 2] and
    [y * s + (600 - pieceHeight * s) / 2].  It is centred in the box as
    the transform centres the source, with the size of the piece in the
    place of the size of the source, and moved by its scaled position. *)
Lemma overlay_places_from_centre (st : App.State) (pd : App.PlacementData.t)
  (index : nat) (piece : App.ScatteredPiece) (x y pw ph s : Q) :
  App.currentPlacementData st = Some pd ->
  App.animationRef st !! index = None ->
  App.current_position piece = (Fin x, Fin y) ->
  App.PlacementData.piece_size pd = {| App.width := Fin pw; App.height := Fin ph |} ->
  ~ pw == 0 -> ~ ph == 0 ->
  App.scale pd = Fin s ->
  exists style,
    App.renderPiece st index piece = Some style
    /\ App.left style = Fin (x * s + 400)
    /\ App.top style = Fin (y * s + 300)
    /\ App.imageLeft style ≈ Fin (x * s + (800 - pw * s) / 2)
    /\ App.imageTop style ≈ Fin (y * s + (600 - ph * s) / 2).
Proof.
  intros Hpd Href Hxy Hsize Hpw Hph Hs. unfold App.renderPiece.
  rewrite Href, Hpd. cbn [default]. rewrite Hxy, Hs, Hsize.
  cbn [App.width App.height]. unfold Js.or_else. cbn [Js.truthy].
  rewrite !is_zero_false by done. cbn [negb].
  eexists. split; [reflexivity|]. split; [reflexivity|]. split; [reflexivity|].
  unfold App.imageLeft, App.imageTop.
  cbn [App.left App.top App.styleWidth App.styleHeight Js.mul Js.add Js.sub Js.neg].
  rewrite !div_Fin by discriminate. cbn [Js.neg Js.add Js.equiv]. split; field.
Qed.

(** ** Sources of size zero *)


(** In [ReconstructionAnimation] pieces of width zero give the scale of the
    other axis, and final positions: nothing fails either. *)
Example flat_grid_positions :
  ReconstructionAnimation.scaleX flat_grid = Js.PInf
  /\ ReconstructionAnimation.scale flat_grid ≈ Fin 1
  /\ exists p0,
       ReconstructionAnimation.finalPositions flat_grid = [p0]
       /\ same_position p0 {| top := Fin 30; left := Fin 420 |}.
Proof.
  split; [reflexivity|]. split; [reflexivity|].
  eexists. split; [reflexivity|]. split; reflexivity.
Qed.

(** Division by a zero that is finite gives no finite number. *)
Lemma div_zero_not_finite (a b : Q) :
  b == 0 -> Js.is_finite (Fin a / Fin b)%js = false.
Proof.
  intros Hb. cbn. rewrite (is_zero_true b Hb). unfold Js.inf_of_sign.
  by destruct (Js.is_zero a), (Js.is_neg a).
Qed.

Lemma mul_not_finite (a b : number) :
  Js.is_finite a = false -> Js.is_finite (a * b)%js = false.
Proof.
  destruct a as [x| | |]; [done|..]; intros _; destruct b as [y| | |]; cbn; try done;
    unfold Js.inf_of_sign; by destruct (Js.is_zero y), (Js.is_neg y).
Qed.

(** [Math.min] with 1 discards a ratio that is infinite: for a grid of any
    finite size, zero included, the scale of [startAnimation] is a finite
    number, at most 1. *)
Lemma scale_finite (p : ReconstructionAnimation.Props) (g w h : Q) :
  ReconstructionAnimation.gridSize p = Fin g ->
  ReconstructionAnimation.pieceDimensions p
  = {| ReconstructionAnimation.height := Fin h;
       ReconstructionAnimation.width := Fin w |} ->
  exists s : Q, ReconstructionAnimation.scale p = Fin s /\ s <= 1.
Proof.
  intros Hg Hd.
  unfold ReconstructionAnimation.scale, ReconstructionAnimation.scaleX,
    ReconstructionAnimation.scaleY.
  rewrite Hg, Hd.
  cbn [ReconstructionAnimation.width ReconstructionAnimation.height Js.mul Js.div].
  assert (Hpos : Js.is_zero ReconstructionAnimation.containerWidth = false
                 /\ Js.is_zero ReconstructionAnimation.containerHeight = false
                 /\ Js.is_neg ReconstructionAnimation.containerWidth = false
                 /\ Js.is_neg ReconstructionAnimation.containerHeight = false)
    by done.
  destruct Hpos as (-> & -> & HnW & HnH). unfold Js.inf_of_sign. rewrite HnW, HnH.
  destruct (Js.is_zero (g * w)), (Js.is_zero (g * h)).
  - exists 1. split; [reflexivity|apply Qle_refl].
  - destruct (min2_Fin (ReconstructionAnimation.containerHeight / (g * h)) 1)
      as (m & Hm & Hmin).
    exists m. split; [exact Hm|]. rewrite Hmin. apply Q.le_min_r.
  - destruct (min2_Fin (ReconstructionAnimation.containerWidth / (g * w)) 1)
      as (m & Hm & Hmin).
    exists m. split; [exact Hm|]. rewrite Hmin. apply Q.le_min_r.
  - destruct (min3_Fin (ReconstructionAnimation.containerWidth / (g * w))
                (ReconstructionAnimation.containerHeight / (g * h)) 1)
      as (m & Hm & Hmin).
    exists m. split; [exact Hm|]. rewrite Hmin. apply Q.le_min_r.
Qed.


(** ** The frames of an animation *)

(** The cubic ease-out on a finite progress. *)
Lemma easing_Fin (p : Q) :
  ReconstructionAnimation.easing (Fin p)
  = Fin (1 + - ((1 + - p) * ((1 + - p) * (1 + - p)))).
Proof. reflexivity. Qed.

Lemma easeOutCubic_same (p : number) :
  App.easeOutCubic p = ReconstructionAnimation.easing p.
Proof. reflexivity. Qed.

Lemma eased_one (p : Q) : p == 1 -> eased p == 1.
Proof. intros Hp. unfold eased. rewrite Hp. reflexivity. Qed.

Lemma lerp_Fin (a b t : Q) :
  ReconstructionAnimation.lerp (Fin a) (Fin b) (Fin t) = Fin (a + (b + - a) * t).
Proof. reflexivity. Qed.

Lemma progress_full (elapsed p : Q) :
  App.progress (Fin elapsed) = Fin p -> 2000 <= elapsed -> p == 1.
Proof.
  intros Hp Hfull. destruct (progress_Fin elapsed) as (p' & Hp' & Hmin).
  rewrite Hp in Hp'. injection Hp' as <-. rewrite Hmin.
  apply Q.min_r. apply Qle_shift_div_l; [reflexivity|lra].
Qed.

Lemma progress_partial (elapsed p : Q) :
  App.progress (Fin elapsed) = Fin p -> elapsed < 2000 -> p < 1.
Proof.
  intros Hp Hpart. destruct (progress_Fin elapsed) as (p' & Hp' & Hmin).
  rewrite Hp in Hp'. injection Hp' as <-. rewrite Hmin.
  apply Q.min_lt_iff. left. apply Qlt_shift_div_r; [reflexivity|lra].
Qed.

Section ReconstructionFrames.

Import ReconstructionAnimation.

Variables (r : Run) (st : State) (t0 t1 p : Q).
Hypothesis start_finite : startTime r = Fin t0.
Hypothesis progress_value : progress (Fin (t1 + - t0)) = Fin p.

(** What a frame at time [t1] writes. *)
Lemma animate_positions :
  positions (after (animate r (Fin t1) st))
  = imap (newPosition (endPositions r) (Fin (eased p))) (startPositions r).
Proof.
  unfold animate. rewrite start_finite. cbn [Js.sub Js.neg Js.add].
  rewrite progress_value, easing_Fin. by destruct (Fin p <? Fin 1)%js.
Qed.

Lemma animate_again :
  again (animate r (Fin t1) st) = (Fin p <? Fin 1)%js
  /\ completed (animate r (Fin t1) st) = negb (Fin p <? Fin 1)%js
  /\ isAnimating (after (animate r (Fin t1) st))
     = (isAnimating st && (Fin p <? Fin 1)%js).
Proof.
  unfold animate. rewrite start_finite. cbn [Js.sub Js.neg Js.add].
  rewrite progress_value. destruct (Fin p <? Fin 1)%js; cbn; by rewrite ?andb_true_r, ?andb_false_r.
Qed.

(** The position of a piece that has a final position, in a frame. *)
Lemma animate_position (i : nat) (at_ al bt bl : Q) :
  startPositions r !! i = Some {| top := Fin at_; left := Fin al |} ->
  endPositions r !! i = Some {| top := Fin bt; left := Fin bl |} ->
  positions (after (animate r (Fin t1) st)) !! i
  = Some {| top := Fin (at_ + (bt + - at_) * eased p);
            left := Fin (al + (bl + - al) * eased p) |}.
Proof.
  intros Hs He. rewrite animate_positions, list_lookup_imap, Hs. cbn.
  unfold newPosition. by rewrite He.
Qed.

End ReconstructionFrames.

Section AppFrames.

Import App.

Variables (r : Run) (st : State) (t0 t1 p : Q).
Hypothesis current : currentAnimationId r = animationIdRef st.
Hypothesis start_finite : startTime r = Fin t0.
Hypothesis progress_value : progress (Fin (t1 + - t0)) = Fin p.

Local Abbreviation updatedPieces :=
  (map (updatedPiece (Fin (eased p))) (scatteredOfRun r)).

(** What a frame of the current run writes: the working copy in every
    frame, the state in the frames that commit, and the phase at the end. *)
Lemma animate_current :
  animate r (Fin t1) st
  = if (Fin p <? Fin 1)%js then
      {| after := if commits (Fin p)
                  then st |> setAnimationRef updatedPieces
                          |> setScatteredPieces updatedPieces
                  else st |> setAnimationRef updatedPieces;
         again := true |}
    else
      {| after := st |> setAnimationRef updatedPieces
                     |> (fun s => if commits (Fin p)
                                  then setScatteredPieces updatedPieces s else s)
                     |> setAnimationPhase Complete
                     |> setScatteredPieces updatedPieces;
         again := false |}.
Proof.
  unfold animate. rewrite current, Nat.eqb_refl. cbn [negb].
  rewrite start_finite. cbn [Js.sub Js.neg Js.add]. rewrite progress_value.
  change (easeOutCubic (Fin p)) with (Fin (eased p)).
  by destruct (Fin p <? Fin 1)%js, (commits (Fin p)).
Qed.

Lemma animate_working_copy :
  animationRef (after (animate r (Fin t1) st)) = updatedPieces.
Proof.
  rewrite animate_current.
  by destruct (Fin p <? Fin 1)%js, (commits (Fin p)).
Qed.

Lemma animate_final_commit :
  (Fin p <? Fin 1)%js = false ->
  scatteredPieces (after (animate r (Fin t1) st)) = updatedPieces
  /\ animationPhase (after (animate r (Fin t1) st)) = Complete
  /\ again (animate r (Fin t1) st) = false.
Proof.
  intros Hend. rewrite animate_current, Hend. by destruct (commits (Fin p)).
Qed.

(** Every piece moves from its scattered position towards [(0, 0)]. *)
Lemma updatedPiece_position (sp : ScatteredPiece) (sx sy e : Q) :
  scattered_position sp = (Fin sx, Fin sy) ->
  updatedPiece (Fin e) sp
  = {| piece := piece sp;
       scattered_position := (Fin sx, Fin sy);
       current_position := (Fin (sx + (0 + - sx) * e), Fin (sy + (0 + - sy) * e)) |}.
Proof.
  intros Hs. unfold updatedPiece. rewrite Hs.
  by destruct (final_position (piece sp)).
Qed.

End AppFrames.

(** C2, amended.  A frame at time [t1] of a run started at [t0] has the
    progress [p = min((t1 - t0) / 2000, 1)] and the eased value
    [1 - (1 - p)^3].
    In [ReconstructionAnimation] the frame sets the position of every piece
    that has a final position to [lerp(start, final, eased)] on each axis,
    with [lerp(a, b, t) = a + (b - a) * t]; from 2000 ms on that is the
    final position itself, and the frame is the last one.
    In the animated [App] a frame of the current run sets the working copy
    of every piece to [lerp(scattered, (0, 0), eased)]: the target is the
    origin of the overlay, not the final position of the piece; from 2000 ms
    on the frame commits the positions, all at [(0, 0)], sets the phase to
    complete and is the last one. *)
Theorem frames_interpolate
  (ra : ReconstructionAnimation.Run) (rst : ReconstructionAnimation.State)
  (r : App.Run) (st : App.State) (t0 t1 : Q) :
  ReconstructionAnimation.startTime ra = Fin t0 ->
  App.startTime r = Fin t0 ->
  App.currentAnimationId r = App.animationIdRef st ->
  exists p : Q,
    App.progress (Fin (t1 - t0)) = Fin p
    /\ p == Qmin ((t1 - t0) / 2000) 1
    /\ (forall (i : nat) (at_ al bt bl : Q),
          ReconstructionAnimation.startPositions ra !! i
          = Some {| top := Fin at_; left := Fin al |} ->
          ReconstructionAnimation.endPositions ra !! i
          = Some {| top := Fin bt; left := Fin bl |} ->
          exists q : Position,
            ReconstructionAnimation.positions
              (ReconstructionAnimation.after
                 (ReconstructionAnimation.animate ra (Fin t1) rst)) !! i = Some q
            /\ same_position q
                 {| top := Fin (at_ + (bt - at_) * eased p);
                    left := Fin (al + (bl - al) * eased p) |}
            /\ (2000 <= t1 - t0 ->
                same_position q {| top := Fin bt; left := Fin bl |}))
    /\ (2000 <= t1 - t0 ->
        ReconstructionAnimation.again
          (ReconstructionAnimation.animate ra (Fin t1) rst) = false
        /\ ReconstructionAnimation.completed
             (ReconstructionAnimation.animate ra (Fin t1) rst) = true)
    /\ (forall (i : nat) (sp : App.ScatteredPiece) (sx sy : Q),
          App.scatteredOfRun r !! i = Some sp ->
          App.scattered_position sp = (Fin sx, Fin sy) ->
          exists q : App.ScatteredPiece,
            App.animationRef (App.after (App.animate r (Fin t1) st)) !! i = Some q
            /\ App.piece q = App.piece sp
            /\ same_point (App.current_position q)
                 (Fin (sx + (0 - sx) * eased p), Fin (sy + (0 - sy) * eased p))
            /\ (2000 <= t1 - t0 ->
                App.scatteredPieces (App.after (App.animate r (Fin t1) st)) !! i
                = Some q
                /\ same_point (App.current_position q) (Fin 0, Fin 0)))
    /\ (2000 <= t1 - t0 ->
        App.animationPhase (App.after (App.animate r (Fin t1) st)) = App.Complete
        /\ App.again (App.animate r (Fin t1) st) = false).
Proof.
  intros Hra Hr Hcur.
  destruct (progress_Fin (t1 - t0)) as (p & Hp & Hmin).
  exists p. split; [done|]. split; [done|].
  assert (Hend : 2000 <= t1 - t0 -> (Fin p <? Fin 1)%js = false).
  { intros Hfull. apply lt_Fin_false.
    rewrite (progress_full _ _ Hp Hfull). apply Qle_refl. }
  split; [|split; [|split]].
  - intros i at_ al bt bl Hs He.
    eexists. split; [by apply (animate_position ra rst t0 t1 p)|].
    split; [split; cbn; reflexivity|].
    intros Hfull. pose proof (eased_one p (progress_full _ _ Hp Hfull)) as He1.
    split; cbn; rewrite He1; ring.
  - intros Hfull.
    destruct (animate_again ra rst t0 t1 p Hra Hp) as (-> & -> & _).
    by rewrite (Hend Hfull).
  - intros i sp sx sy Hi Hs.
    exists (App.updatedPiece (Fin (eased p)) sp).
    rewrite (animate_working_copy r st t0 t1 p Hcur Hr Hp), lookup_map, Hi.
    split; [done|]. rewrite (updatedPiece_position sp sx sy _ Hs).
    split; [done|]. split; [split; cbn; reflexivity|].
    intros Hfull.
    destruct (animate_final_commit r st t0 t1 p Hcur Hr Hp (Hend Hfull)) as (-> & _).
    rewrite lookup_map, Hi. cbn [fmap option_fmap option_map].
    rewrite (updatedPiece_position sp sx sy _ Hs).
    split; [done|].
    pose proof (eased_one p (progress_full _ _ Hp Hfull)) as He1.
    split; cbn; rewrite He1; ring.
  - intros Hfull.
    by destruct (animate_final_commit r st t0 t1 p Hcur Hr Hp (Hend Hfull))
      as (_ & -> & ->).
Qed.

Example grid_run_started :
  ReconstructionAnimation.startAnimation large_grid (Fin 0) scattered_state
  = ({| ReconstructionAnimation.positions :=
          ReconstructionAnimation.positions scattered_state;
        ReconstructionAnimation.isAnimating := true;
        ReconstructionAnimation.animationProgress := Fin 0 |},
     Some grid_run).
Proof. reflexivity. Qed.

Example canvas_run_started :
  App.startAnimation always_half (Some large_canvas) (Fin 0) 0 rebuilt_state
  = (canvas_state, 4%nat, Some canvas_run)
  /\ App.animationIdRef canvas_state = 1%nat
  /\ App.animationPhase canvas_state = App.Moving.
Proof. repeat split; reflexivity. Qed.

Lemma frames_interpolate_witness :
  exists p : Q,
    App.progress (Fin (2500 - 0)) = Fin p
    /\ p == Qmin ((2500 - 0) / 2000) 1
    /\ (forall (i : nat) (at_ al bt bl : Q),
          ReconstructionAnimation.startPositions grid_run !! i
          = Some {| top := Fin at_; left := Fin al |} ->
          ReconstructionAnimation.endPositions grid_run !! i
          = Some {| top := Fin bt; left := Fin bl |} ->
          exists q : Position,
            ReconstructionAnimation.positions
              (ReconstructionAnimation.after
                 (ReconstructionAnimation.animate grid_run (Fin 2500) scattered_state))
              !! i = Some q
            /\ same_position q
                 {| top := Fin (at_ + (bt - at_) * eased p);
                    left := Fin (al + (bl - al) * eased p) |}
            /\ (2000 <= 2500 - 0 ->
                same_position q {| top := Fin bt; left := Fin bl |}))
    /\ (2000 <= 2500 - 0 ->
        ReconstructionAnimation.again
          (ReconstructionAnimation.animate grid_run (Fin 2500) scattered_state) = false
        /\ ReconstructionAnimation.completed
             (ReconstructionAnimation.animate grid_run (Fin 2500) scattered_state) = true)
    /\ (forall (i : nat) (sp : App.ScatteredPiece) (sx sy : Q),
          App.scatteredOfRun canvas_run !! i = Some sp ->
          App.scattered_position sp = (Fin sx, Fin sy) ->
          exists q : App.ScatteredPiece,
            App.animationRef (App.after (App.animate canvas_run (Fin 2500) canvas_state))
              !! i = Some q
            /\ App.piece q = App.piece sp
            /\ same_point (App.current_position q)
                 (Fin (sx + (0 - sx) * eased p), Fin (sy + (0 - sy) * eased p))
            /\ (2000 <= 2500 - 0 ->
                App.scatteredPieces
                  (App.after (App.animate canvas_run (Fin 2500) canvas_state)) !! i
                = Some q
                /\ same_point (App.current_position q) (Fin 0, Fin 0)))
    /\ (2000 <= 2500 - 0 ->
        App.animationPhase (App.after (App.animate canvas_run (Fin 2500) canvas_state))
        = App.Complete
        /\ App.again (App.animate canvas_run (Fin 2500) canvas_state) = false).
Proof.
  apply (frames_interpolate grid_run scattered_state canvas_run canvas_state 0 2500);
    reflexivity.
Defined.

(** The last frame of [canvas_run]: the piece whose final position is
    [(400, 300)] is committed at [(0, 0)]. *)
Lemma final_commit_counterexample :
  exists sp0 sp1 : App.ScatteredPiece,
    App.scatteredPieces (App.after (App.animate canvas_run (Fin 2000) canvas_state))
    = [sp0; sp1]
    /\ App.animationPhase (App.after (App.animate canvas_run (Fin 2000) canvas_state))
       = App.Complete
    /\ App.scattered_position sp1 = (Fin ((1 # 2) * (1600 + 100 * 2) + - (100)),
                                     Fin ((1 # 2) * (1200 + 100 * 2) + - (100)))
    /\ App.final_position (App.piece sp1) = (Fin 400, Fin 300)
    /\ same_point (App.current_position sp1) (Fin 0, Fin 0)
    /\ ~ same_point (App.current_position sp1) (App.final_position (App.piece sp1)).
Proof.
  eexists _, _. split; [reflexivity|]. split; [reflexivity|].
  split; [reflexivity|]. split; [reflexivity|]. split; [split; reflexivity|].
  intros [H _]. vm_compute in H. discriminate H.
Qed.

(** On doubles the interpolation at [t = 1] can miss its target by a
    rounding: the last frame of [ReconstructionAnimation] then commits a
    position that is one unit in the last place away from the final
    position.  When the target is 0, as in the animated [App], the result
    is exact. *)
Example lerp_double_rounds :
  PrimFloat.eqb
    (lerp_double 0x1.e811e1c51b590p+5 0x1.6ad902d54ea7bp+4 1)
    0x1.6ad902d54ea7bp+4 = false
  /\ PrimFloat.eqb
       (lerp_double 0x1.e811e1c51b590p+5 0x1.6ad902d54ea7bp+4 1)
       0x1.6ad902d54ea7cp+4 = true
  /\ PrimFloat.eqb (lerp_double 0x1.e811e1c51b590p+5 0 1) 0 = true.
Proof. repeat split; reflexivity. Qed.

(** ** Generations of animation runs *)

Section Generations.

Import App.

Variable random : oracle.

(** A frame of a run whose identifier is not the current one returns at
    once: it writes nothing and requests no further frame. *)
Lemma animate_stale (r : Run) (currentTime : number) (st : State) :
  currentAnimationId r <> animationIdRef st ->
  animate r currentTime st = {| after := st; again := false |}.
Proof.
  intros Hne. unfold animate.
  by destruct (Nat.eqb_spec (currentAnimationId r) (animationIdRef st)).
Qed.

(** [startAnimation] increments the counter and gives the new value to the
    run that it starts. *)
Lemma startAnimation_generation (pd : option PlacementData.t) (now : number)
  (k : nat) (st st' : State) (k' : nat) (r : Run) :
  startAnimation random pd now k st = (st', k', Some r) ->
  animationIdRef st' = S (animationIdRef st)
  /\ currentAnimationId r = animationIdRef st'.
Proof.
  unfold startAnimation. destruct pd as [pd|]; [|done].
  destruct (generateScatteredPositions random pd k) as [sc k2].
  intros [= <- <- <-]. cbn. lia.
Qed.

Lemma startAnimation_counter (pd : option PlacementData.t) (now : number)
  (k : nat) (st : State) :
  (animationIdRef st <= animationIdRef (startAnimation random pd now k st).1.1)%nat.
Proof.
  unfold startAnimation. destruct pd as [pd|]; [|done].
  destruct (generateScatteredPositions random pd k) as [sc k2]. cbn. lia.
Qed.

Lemma animate_counter (r : Run) (currentTime : number) (st : State) :
  animationIdRef (after (animate r currentTime st)) = animationIdRef st.
Proof.
  unfold animate. destruct (negb _); [done|].
  by destruct (commits _), (_ <? _)%js.
Qed.

(** No handler, answer or effect lowers the counter; only [startAnimation]
    changes it. *)
Lemma step_counter (w : World) (e : Event) :
  (animationIdRef (state w) <= animationIdRef (state (step random w e)))%nat.
Proof.
  destruct e as [pd now| r t| | | | file url| file| | n res| | n res| | res| |];
    cbn [step state].
  - pose proof (startAnimation_counter pd now (randomCalls w) (state w)) as H.
    by destruct (startAnimation _ _ _ _ _) as [[? ?] ?].
  - by rewrite animate_counter.
  - done.
  - done.
  - done.
  - done.
  - done.
  - unfold handleShatter_request. by destruct (uploadedFile _).
  - unfold handleShatter_response. destruct res as [data|]; [|done].
    destruct (Data.pieces data); [|done]. by destruct (_ =? _)%nat.
  - unfold handleLoadZipPieces_request. by destruct (uploadedZipFile _).
  - unfold handleLoadZipPieces_response. destruct res as [data|]; [|done].
    destruct (Data.pieces data); [|done]. by destruct (_ =? _)%nat.
  - done.
  - unfold handleRebuild_response. destruct res as [data|]; [|done].
    destruct (Data.rebuilt data); [|done]. by destruct (decide _).
  - done.
  - unfold placementDataEffect. by destruct (placementData _).
Qed.

Lemma run_counter (w : World) (es : list Event) :
  (animationIdRef (state w) <= animationIdRef (state (run random w es)))%nat.
Proof.
  revert w. induction es as [|e es IH]; intros w; cbn; [done|].
  etrans; [apply (step_counter w e)|apply IH].
Qed.

(** A run that has been superseded stays superseded, whatever happens
    next, and its frames do nothing. *)
Lemma superseded_forever (w : World) (r : Run) (es : list Event)
  (currentTime : number) :
  (currentAnimationId r < animationIdRef (state w))%nat ->
  (currentAnimationId r < animationIdRef (state (run random w es)))%nat
  /\ animate r currentTime (state (run random w es))
     = {| after := state (run random w es); again := false |}.
Proof.
  intros Hlt. pose proof (run_counter w es) as Hmono.
  split; [lia|]. apply animate_stale. lia.
Qed.

(** The generation counter of the animated [App]: once a newer run has
    been started, a frame callback of the older run writes nothing.  Take a
    run [r] that [startAnimation] started, any
    events [es1] after that, a later call of [startAnimation] that starts a
    run [r'], and any events [es2] after that (handlers, resets, answers of
    the service, effects, frames of any run, further starts, in any
    order).  Then the counter is past the identifier of [r], and a frame of
    [r] at any time leaves the whole state as it is (the positions of the
    pieces, the committed snapshot, the working copy and the phase) and
    requests no further frame. *)
Theorem superseded_frame_writes_nothing
  (w : World) (pd pd' : option PlacementData.t) (now now' : number)
  (es1 es2 : list Event) (currentTime : number)
  (st1 st2 : State) (k1 k2 : nat) (r r' : Run) :
  startAnimation random pd now (randomCalls w) (state w) = (st1, k1, Some r) ->
  startAnimation random pd' now'
    (randomCalls (run random {| state := st1; randomCalls := k1 |} es1))
    (state (run random {| state := st1; randomCalls := k1 |} es1))
  = (st2, k2, Some r') ->
  let w2 := run random {| state := st2; randomCalls := k2 |} es2 in
  (currentAnimationId r < currentAnimationId r')%nat
  /\ (currentAnimationId r < animationIdRef (state w2))%nat
  /\ animate r currentTime (state w2) = {| after := state w2; again := false |}
  /\ step random w2 (AnimationFrame r currentTime) = w2.
Proof.
  intros Hstart Hstart' w2.
  destruct (startAnimation_generation _ _ _ _ _ _ _ Hstart) as [_ Hr].
  destruct (startAnimation_generation _ _ _ _ _ _ _ Hstart') as [Hst2 Hr'].
  pose proof (run_counter {| state := st1; randomCalls := k1 |} es1) as Hmono.
  cbn [state] in Hmono.
  assert (Hlt : (currentAnimationId r < animationIdRef st2)%nat) by lia.
  destruct (superseded_forever {| state := st2; randomCalls := k2 |} r es2
              currentTime Hlt) as [Hlt2 Hnoop].
  fold w2 in Hlt2, Hnoop.
  split; [lia|]. split; [done|]. split; [done|].
  cbn [step]. rewrite Hnoop. by destruct w2.
Qed.

End Generations.

Lemma superseded_frame_writes_nothing_witness :
  App.startAnimation always_half (Some large_canvas) (Fin 0)
    (App.randomCalls rebuilt_world) (App.state rebuilt_world)
  = (canvas_state, 4%nat, Some canvas_run)
  /\ exists (st2 : App.State) (k2 : nat) (r' : App.Run),
       App.startAnimation always_half (Some large_canvas) (Fin 500)
         (App.randomCalls
            (App.run always_half {| App.state := canvas_state; App.randomCalls := 4 |}
               [App.AnimationFrame canvas_run (Fin 16); App.CloseAnimation]))
         (App.state
            (App.run always_half {| App.state := canvas_state; App.randomCalls := 4 |}
               [App.AnimationFrame canvas_run (Fin 16); App.CloseAnimation]))
       = (st2, k2, Some r')
       /\ let w2 := App.run always_half {| App.state := st2; App.randomCalls := k2 |}
                      [App.AnimationFrame r' (Fin 516); App.ResetState] in
          (App.currentAnimationId canvas_run < App.currentAnimationId r')%nat
          /\ (App.currentAnimationId canvas_run < App.animationIdRef (App.state w2))%nat
          /\ App.animate canvas_run (Fin 532) (App.state w2)
             = {| App.after := App.state w2; App.again := false |}
          /\ App.step always_half w2 (App.AnimationFrame canvas_run (Fin 532)) = w2.
Proof.
  split; [reflexivity|].
  eexists _, _, _. split; [reflexivity|].
  apply (superseded_frame_writes_nothing always_half rebuilt_world
           (Some large_canvas) (Some large_canvas) (Fin 0) (Fin 500)
           [App.AnimationFrame canvas_run (Fin 16); App.CloseAnimation]
           [App.AnimationFrame _ (Fin 516); App.ResetState]
           (Fin 532) canvas_state _ 4%nat _ canvas_run _);
    reflexivity.
Defined.

(** Closing or resetting alone does not change the counter: as long as no
    newer run has started, a late frame of the last run still writes the
    working copy and, in a frame that commits, the state. *)
Example frame_after_close_still_writes :
  let closed := App.closeAnimation canvas_state in
  let late := App.animate canvas_run (Fin 2000) closed in
  App.animationIdRef closed = App.currentAnimationId canvas_run
  /\ App.scatteredPieces closed = []
  /\ length (App.scatteredPieces (App.after late)) = 2%nat
  /\ length (App.animationRef (App.after late)) = 2%nat
  /\ App.animationPhase (App.after late) = App.Complete.
Proof. repeat split; reflexivity. Qed.

(** ** A wrong number of pieces *)

(** C8.  When the answer to a shatter or to a load request holds a number
    of pieces that differs from the number asked for, the handler reports
    it: [error] becomes the message that names both numbers.  The piece
    lists, [shattered] and the whole animation state are left as they were,
    so no part of the answer is accepted; the request itself, before the
    answer, had left them alone too. *)
Theorem count_mismatch_is_reported (pieceCount : nat) (data : App.Data.t)
  (ps : list string) (st : App.State) :
  App.Data.pieces data = Some ps ->
  length ps <> pieceCount ->
  App.error (App.handleShatter_response pieceCount (App.Body data) st)
  = Some ("Expected " +:+ pretty pieceCount +:+ " pieces, got "
          +:+ pretty (length ps) +:+ ". Try again.")
  /\ keeps_pieces_and_animation st
       (App.handleShatter_response pieceCount (App.Body data) st)
  /\ App.error (App.handleLoadZipPieces_response pieceCount (App.Body data) st)
     = Some ("Expected " +:+ pretty pieceCount +:+ " pieces, got "
             +:+ pretty (length ps) +:+ ". Check your zip file.")
  /\ keeps_pieces_and_animation st
       (App.handleLoadZipPieces_response pieceCount (App.Body data) st)
  /\ keeps_pieces_and_animation st (App.handleShatter_request st).1
  /\ keeps_pieces_and_animation st (App.handleLoadZipPieces_request st).1.
Proof.
  intros Hps Hne.
  unfold App.handleShatter_response, App.handleLoadZipPieces_response,
    App.handleShatter_request, App.handleLoadZipPieces_request.
  rewrite Hps. destruct (Nat.eqb_spec (length ps) pieceCount) as [|_]; [done|].
  split; [done|]. split; [by repeat split|]. split; [done|].
  split; [by repeat split|].
  split; [destruct (App.uploadedFile st) | destruct (App.uploadedZipFile st)];
    by repeat split.
Qed.

Lemma count_mismatch_is_reported_witness :
  App.error (App.handleShatter_response 50 (App.Body short_answer) canvas_state)
  = Some "Expected 50 pieces, got 3. Try again."
  /\ keeps_pieces_and_animation canvas_state
       (App.handleShatter_response 50 (App.Body short_answer) canvas_state)
  /\ App.error (App.handleLoadZipPieces_response 50 (App.Body short_answer) canvas_state)
     = Some "Expected 50 pieces, got 3. Check your zip file."
  /\ keeps_pieces_and_animation canvas_state
       (App.handleLoadZipPieces_response 50 (App.Body short_answer) canvas_state)
  /\ keeps_pieces_and_animation canvas_state (App.handleShatter_request canvas_state).1
  /\ keeps_pieces_and_animation canvas_state
       (App.handleLoadZipPieces_request canvas_state).1.
Proof.
  apply (count_mismatch_is_reported 50 short_answer
           ["/static/pieces/piece_0.png"; "/static/pieces/piece_1.png";
            "/static/pieces/piece_2.png"] canvas_state).
  - reflexivity.
  - cbn. lia.
Defined.

(** ** Runs of [ReconstructionAnimation] are never invalidated *)

(** C1 fails in [ReconstructionAnimation], which has no counter of runs and
    no test in [animate].  Run A starts at time 0, Reset is pressed and its
    timer fires, run B starts at time 600: the frame of run A at time 1000
    still writes the positions and the progress, and requests another
    frame. *)
Lemma reconstruction_stale_frame_writes :
  exists (st1 st2 st3 st4 : ReconstructionAnimation.State)
         (A B : ReconstructionAnimation.Run),
    ReconstructionAnimation.startAnimation large_grid (Fin 0) scattered_state
    = (st1, Some A)
    /\ st2 = ReconstructionAnimation.resetAnimation st1
    /\ st3 = (ReconstructionAnimation.resetAnimation_timeout always_half 0
                (ReconstructionAnimation.positions st1) st2).1
    /\ ReconstructionAnimation.startAnimation large_grid (Fin 600) st3
       = (st4, Some B)
    /\ ReconstructionAnimation.startTime A = Fin 0
    /\ ReconstructionAnimation.startTime B = Fin 600
    /\ ReconstructionAnimation.positions st4
       = [ {| top := Fin ((1 # 2) * (600 + - 150)); left := Fin ((1 # 2) * (800 + - 150)) |};
           {| top := Fin ((1 # 2) * (600 + - 150)); left := Fin ((1 # 2) * (800 + - 150)) |} ]
    /\ (exists q0 q1,
          ReconstructionAnimation.positions
            (ReconstructionAnimation.after
               (ReconstructionAnimation.animate A (Fin 1000) st4)) = [q0; q1]
          /\ same_position q0 {| top := Fin 5; left := Fin 75 |}
          /\ same_position q1 {| top := Fin (365 # 2); left := Fin (1415 # 8) |})
    /\ ReconstructionAnimation.animationProgress
         (ReconstructionAnimation.after
            (ReconstructionAnimation.animate A (Fin 1000) st4)) ≈ Fin (7 # 8)
    /\ ReconstructionAnimation.again
         (ReconstructionAnimation.animate A (Fin 1000) st4) = true
    /\ ReconstructionAnimation.after
         (ReconstructionAnimation.animate A (Fin 1000) st4) <> st4.
Proof.
  eexists _, _, _, _, _, _.
  split; [reflexivity|]. split; [reflexivity|]. split; [reflexivity|].
  split; [reflexivity|]. split; [reflexivity|]. split; [reflexivity|].
  split; [reflexivity|].
  split; [eexists _, _; split; [reflexivity|]; repeat split; reflexivity|].
  split; [reflexivity|]. split; [reflexivity|].
  intros H. apply (f_equal ReconstructionAnimation.positions) in H.
  apply (f_equal (fun l => top <$> l !! 0%nat)) in H. vm_compute in H.
  discriminate H.
Qed.

(** ** Pieces inside the container *)

Section ContainerFacts.

Import Scatter.

Variables containerWidth containerHeight pieceSizeScattered padding : Q.
Variable random : oracle.
Hypothesis random_range : in_unit_interval random.
Hypothesis fits_width : pieceSizeScattered <= containerWidth.
Hypothesis fits_height : pieceSizeScattered <= containerHeight.

Local Abbreviation sample := (sample containerWidth containerHeight pieceSizeScattered random).
Local Abbreviation inside := (inside_container containerWidth containerHeight pieceSizeScattered).

Lemma sample_inside (k : nat) : inside (sample k).
Proof.
  destruct (random_range k) as [Hk0 Hk1].
  destruct (random_range (S k)) as [Hs0 Hs1].
  eexists _, _. split; [reflexivity|]. repeat split; nra.
Qed.

Lemma do_while_inside (fuel attempts0 k0 : nat) (scatteredPositions : list Position) s :
  do_while containerWidth containerHeight pieceSizeScattered padding random
    fuel attempts0 k0 scatteredPositions = Some s ->
  inside (position s).
Proof.
  revert attempts0 k0. induction fuel as [|fuel IH]; intros attempts0 k0; [done|].
  cbn [Scatter.do_while]. destruct (_ && _).
  - apply IH.
  - intros [= <-]. apply sample_inside.
Qed.

Lemma for_pieces_inside {A : Type} (fuel : nat) (pieces : list A) (k : nat)
  (scatteredPositions : list Position) (log : list Sampled) positions log' k' :
  for_pieces containerWidth containerHeight pieceSizeScattered padding random
    fuel pieces k scatteredPositions log = Some (positions, log', k') ->
  Forall inside scatteredPositions -> Forall inside positions.
Proof.
  revert k scatteredPositions log.
  induction pieces as [|piece pieces IH]; intros k scatteredPositions log.
  - cbn. by intros [= <- <- <-].
  - cbn [Scatter.for_pieces].
    destruct (Scatter.do_while _ _ _ _ _ _ _ _ _) as [s|] eqn:Hs; [|done].
    intros Hrun Hall. eapply IH; [exact Hrun|].
    apply Forall_app. split; [done|]. constructor; [|done].
    by eapply do_while_inside.
Qed.

End ContainerFacts.

(** The scatter effect keeps every piece inside the container: with
    [Math.random()] in [[0, 1)], every position that the effect of
    [ReconstructionAnimation] returns has its square of 150 px inside the
    800 x 600 container, and every position that the effect of
    [ScatteredPieces] returns has its square of 300 px inside the 800 x 400
    container, whether or not a loop used all its attempts. *)
Theorem scatter_inside_container (random : oracle) {A : Type}
  (pieces : list A) (k fuel : nat) :
  in_unit_interval random ->
  (Scatter.maxAttempts <= fuel)%nat ->
  (exists positions log k',
      ReconstructionAnimation.scatter random fuel pieces k = Some (positions, log, k')
      /\ length positions = length pieces
      /\ Forall (inside_container 800 600 150) positions)
  /\ (exists positions log k',
        ScatteredPieces.scatter random fuel pieces k = Some (positions, log, k')
        /\ length positions = length pieces
        /\ Forall (inside_container 800 400 300) positions).
Proof.
  intros Hrandom Hfuel. split.
  - destruct (scatter_has_outcome 800 600 150 5 random pieces k fuel Hfuel)
      as (positions & log & k' & Hrun & Hlen & _).
    exists positions, log, k'. split; [done|]. split; [done|].
    eapply (for_pieces_inside 800 600 150 5 random Hrandom); [done|done|exact Hrun|done].
  - destruct (scatter_has_outcome 800 400 300 5 random pieces k fuel Hfuel)
      as (positions & log & k' & Hrun & Hlen & _).
    exists positions, log, k'. split; [done|]. split; [done|].
    eapply (for_pieces_inside 800 400 300 5 random Hrandom); [done|done|exact Hrun|done].
Qed.

Lemma scatter_inside_container_witness :
  in_unit_interval always_half
  /\ (Scatter.maxAttempts <= 1000)%nat
  /\ (exists positions log k',
         ReconstructionAnimation.scatter always_half 1000 ["a"; "b"] 0
         = Some (positions, log, k')
         /\ length positions = length ["a"; "b"]
         /\ Forall (inside_container 800 600 150) positions)
     /\ (exists positions log k',
           ScatteredPieces.scatter always_half 1000 ["a"; "b"] 0
           = Some (positions, log, k')
           /\ length positions = length ["a"; "b"]
           /\ Forall (inside_container 800 400 300) positions).
Proof.
  split; [exact always_half_range|]. split; [reflexivity|].
  apply (scatter_inside_container always_half ["a"; "b"] 0 1000);
    [exact always_half_range|reflexivity].
Defined.

(** ** The timer of [resetAnimation] *)

Lemma resample_spec (random : oracle) (k : nat) (captured : list Position) :
  (ReconstructionAnimation.resample random k captured).2
  = (k + 2 * length captured)%nat
  /\ length (ReconstructionAnimation.resample random k captured).1 = length captured
  /\ forall i, (i < length captured)%nat ->
       (ReconstructionAnimation.resample random k captured).1 !! i
       = Some (Scatter.sample 800 600 150 random (k + 2 * i)).
Proof.
  revert k. induction captured as [|p captured IH]; intros k.
  - cbn. split; [lia|]. split; [done|]. intros i Hi. lia.
  - cbn [ReconstructionAnimation.resample].
    destruct (IH (2 + k)%nat) as (Hk & Hlen & Hat).
    destruct (ReconstructionAnimation.resample random (2 + k) captured) as [ps k'].
    cbn in *. split; [lia|]. split; [lia|].
    intros [|i] Hi; cbn.
    + by rewrite Nat.add_0_r.
    + rewrite Hat by lia. do 2 f_equal. lia.
Qed.

(** The timer of [resetAnimation] gives every position that the
    handler captured a new one, drawn with two calls of [Math.random()] and
    with no overlap test: the [i]-th new position is
    [(random * 450, random * 650)] for the calls [k + 2i] and [k + 2i + 1],
    it keeps the piece inside the container, and the rest of the state is
    kept. *)
Theorem resetAnimation_timeout_resamples (random : oracle) (k : nat)
  (captured : list Position) (st : ReconstructionAnimation.State) :
  in_unit_interval random ->
  exists st',
    ReconstructionAnimation.resetAnimation_timeout random k captured st
    = (st', (k + 2 * length captured)%nat)
    /\ length (ReconstructionAnimation.positions st') = length captured
    /\ (forall i, (i < length captured)%nat ->
          ReconstructionAnimation.positions st' !! i
          = Some {| top := Fin (random (k + 2 * i)%nat * (600 - 150));
                    left := Fin (random (S (k + 2 * i)) * (800 - 150)) |})
    /\ Forall (inside_container 800 600 150) (ReconstructionAnimation.positions st')
    /\ ReconstructionAnimation.isAnimating st' = ReconstructionAnimation.isAnimating st
    /\ ReconstructionAnimation.animationProgress st'
       = ReconstructionAnimation.animationProgress st.
Proof.
  intros Hrandom. unfold ReconstructionAnimation.resetAnimation_timeout.
  destruct (resample_spec random k captured) as (Hk & Hlen & Hat).
  destruct (ReconstructionAnimation.resample random k captured) as [ps k'].
  cbn in Hk, Hlen, Hat. subst k'. eexists. split; [reflexivity|]. cbn.
  split; [done|]. split; [intros i Hi; by rewrite Hat|].
  split; [|done].
  apply Forall_lookup. intros i p Hp.
  assert (Hi : (i < length captured)%nat).
  { rewrite <- Hlen. by eapply lookup_lt_Some. }
  rewrite Hat in Hp by done. injection Hp as <-.
  apply (sample_inside 800 600 150 random Hrandom); discriminate.
Qed.

Lemma resetAnimation_timeout_resamples_witness :
  in_unit_interval always_half
  /\ exists st',
       ReconstructionAnimation.resetAnimation_timeout always_half 0
         (ReconstructionAnimation.positions scattered_state) scattered_state
       = (st', (0 + 2 * length (ReconstructionAnimation.positions scattered_state))%nat)
       /\ length (ReconstructionAnimation.positions st')
          = length (ReconstructionAnimation.positions scattered_state)
       /\ (forall i, (i < length (ReconstructionAnimation.positions scattered_state))%nat ->
             ReconstructionAnimation.positions st' !! i
             = Some {| top := Fin (always_half (0 + 2 * i)%nat * (600 - 150));
                       left := Fin (always_half (S (0 + 2 * i)) * (800 - 150)) |})
       /\ Forall (inside_container 800 600 150) (ReconstructionAnimation.positions st')
       /\ ReconstructionAnimation.isAnimating st'
          = ReconstructionAnimation.isAnimating scattered_state
       /\ ReconstructionAnimation.animationProgress st'
          = ReconstructionAnimation.animationProgress scattered_state.
Proof.
  split; [exact always_half_range|].
  apply (resetAnimation_timeout_resamples always_half 0
           (ReconstructionAnimation.positions scattered_state) scattered_state).
  exact always_half_range.
Defined.

(** ** [generateScatteredPositions] *)

Lemma scatterPieces_spec (random : oracle) (canvas_size : App.Size) (k : nat)
  (pieces : list App.Piece) :
  (App.scatterPieces random canvas_size k pieces).2 = (k + 2 * length pieces)%nat
  /\ map App.piece (App.scatterPieces random canvas_size k pieces).1 = pieces
  /\ forall i sp, (App.scatterPieces random canvas_size k pieces).1 !! i = Some sp ->
       exists piece, pieces !! i = Some piece
                     /\ sp = App.scatterPiece random canvas_size (k + 2 * i) piece.
Proof.
  revert k. induction pieces as [|piece pieces IH]; intros k.
  - cbn. split; [lia|]. split; [done|]. intros i sp Hsp. by destruct i.
  - cbn [App.scatterPieces].
    destruct (IH (2 + k)%nat) as (Hk & Hmap & Hat).
    destruct (App.scatterPieces random canvas_size (2 + k) pieces) as [sps k'].
    cbn in *. split; [lia|]. split; [by rewrite Hmap|].
    intros [|i] sp Hsp; cbn in *.
    + injection Hsp as <-. exists piece. by rewrite Nat.add_0_r.
    + destruct (Hat i sp Hsp) as (piece' & Hp & ->). exists piece'.
      split; [done|]. f_equal. lia.
Qed.

(** [generateScatteredPositions] returns one scattered piece for each
    piece of the placement data, in the same order and with the data of the
    piece unchanged; it draws two numbers per piece; and on a canvas of
    [w] x [h] the scattered position of each piece, which is also its
    current position, lies in [[-100, w + 100) x [-100, h + 100)]: up to
    100 px outside of the canvas on every side. *)
Theorem generateScatteredPositions_range (random : oracle)
  (placementData : App.PlacementData.t) (k : nat) (w h : Q) :
  in_unit_interval random ->
  App.PlacementData.canvas_size placementData
  = {| App.width := Fin w; App.height := Fin h |} ->
  0 <= w -> 0 <= h ->
  exists scattered,
    App.generateScatteredPositions random placementData k
    = (scattered, (k + 2 * length (App.PlacementData.pieces placementData))%nat)
    /\ map App.piece scattered = App.PlacementData.pieces placementData
    /\ Forall (fun sp =>
                 App.current_position sp = App.scattered_position sp
                 /\ exists x y : Q,
                      App.scattered_position sp = (Fin x, Fin y)
                      /\ - (100) <= x /\ x < w + 100
                      /\ - (100) <= y /\ y < h + 100) scattered.
Proof.
  intros Hrandom Hcanvas Hw Hh. unfold App.generateScatteredPositions.
  destruct (scatterPieces_spec random (App.PlacementData.canvas_size placementData) k
              (App.PlacementData.pieces placementData)) as (Hk & Hmap & Hat).
  destruct (App.scatterPieces _ _ _ _) as [scattered k'].
  cbn [fst snd] in Hk, Hmap, Hat. subst k'. exists scattered.
  split; [done|]. split; [done|].
  apply Forall_lookup. intros i sp Hsp.
  destruct (Hat i sp Hsp) as (piece & _ & ->).
  destruct (Hrandom (k + 2 * i)%nat) as [Hx0 Hx1].
  destruct (Hrandom (S (k + 2 * i))) as [Hy0 Hy1].
  generalize dependent (k + 2 * i)%nat. intros kx Hx0 Hx1 Hy0 Hy1.
  rewrite Hcanvas. unfold App.scatterPiece, App.margin.
  cbn [App.width App.height Js.add Js.sub Js.mul Js.neg App.current_position
         App.scattered_position].
  split; [done|].
  eexists _, _. split; [reflexivity|].
  assert (Hxw : random kx * (w + 100 * 2) < 1 * (w + 100 * 2)).
  { apply Qmult_lt_compat_r; [lra|done]. }
  assert (Hyh : random (S kx) * (h + 100 * 2) < 1 * (h + 100 * 2)).
  { apply Qmult_lt_compat_r; [lra|done]. }
  assert (Hxp : 0 <= random kx * (w + 100 * 2)) by (apply Qmult_le_0_compat; lra).
  assert (Hyp : 0 <= random (S kx) * (h + 100 * 2)) by (apply Qmult_le_0_compat; lra).
  repeat split; lra.
Qed.

Lemma generateScatteredPositions_range_witness :
  in_unit_interval always_half
  /\ App.PlacementData.canvas_size large_canvas
     = {| App.width := Fin 1600; App.height := Fin 1200 |}
  /\ 0 <= 1600 /\ 0 <= 1200
  /\ exists scattered,
       App.generateScatteredPositions always_half large_canvas 0
       = (scattered, (0 + 2 * length (App.PlacementData.pieces large_canvas))%nat)
       /\ map App.piece scattered = App.PlacementData.pieces large_canvas
       /\ Forall (fun sp =>
                    App.current_position sp = App.scattered_position sp
                    /\ exists x y : Q,
                         App.scattered_position sp = (Fin x, Fin y)
                         /\ - (100) <= x /\ x < 1600 + 100
                         /\ - (100) <= y /\ y < 1200 + 100) scattered.
Proof.
  split; [exact always_half_range|]. split; [reflexivity|].
  split; [discriminate|]. split; [discriminate|].
  apply (generateScatteredPositions_range always_half large_canvas 0 1600 1200);
    [exact always_half_range|reflexivity|discriminate|discriminate].
Defined.

(** ** What is left of the way *)

Lemma remaining_range (elapsed : Q) : 0 <= elapsed -> 0 <= remaining elapsed <= 1.
Proof.
  intros H0. unfold remaining.
  assert (Hp0 : 0 <= Qmin (elapsed / 2000) 1).
  { apply Q.min_glb; [|discriminate].
    unfold Qdiv. apply Qmult_le_0_compat; [done|discriminate]. }
  pose proof (Q.le_min_r (elapsed / 2000) 1) as Hp1.
  set (p := Qmin (elapsed / 2000) 1) in *.
  assert (Hq0 : 0 <= 1 - p) by lra. assert (Hq1 : 1 - p <= 1) by lra.
  set (q := 1 - p) in *.
  assert (Hqq0 : 0 <= q * q) by nra. assert (Hqq1 : q * q <= 1) by nra.
  split; nra.
Qed.

Lemma remaining_antitone (elapsed elapsed' : Q) :
  0 <= elapsed -> elapsed <= elapsed' -> remaining elapsed' <= remaining elapsed.
Proof.
  intros H0 Hle. unfold remaining.
  assert (Hd : elapsed / 2000 <= elapsed' / 2000).
  { unfold Qdiv. apply Qmult_le_compat_r; [done|discriminate]. }
  assert (Hp0 : 0 <= Qmin (elapsed / 2000) 1).
  { apply Q.min_glb; [|discriminate].
    unfold Qdiv. apply Qmult_le_0_compat; [done|discriminate]. }
  pose proof (Q.min_le_compat_r _ _ 1 Hd) as Hpp.
  pose proof (Q.le_min_r (elapsed' / 2000) 1) as Hp1.
  set (p := Qmin (elapsed / 2000) 1) in *.
  set (p' := Qmin (elapsed' / 2000) 1) in *.
  assert (Ha : 0 <= 1 - p') by lra. assert (Hb : 1 - p' <= 1 - p) by lra.
  set (a := 1 - p') in *. set (b := 1 - p) in *.
  assert (Haa : a * a <= b * b) by nra.
  assert (Haa0 : 0 <= a * a) by nra.
  nra.
Qed.

Lemma remaining_start : remaining 0 == 1.
Proof. reflexivity. Qed.

Lemma remaining_end (elapsed : Q) : 2000 <= elapsed -> remaining elapsed == 0.
Proof.
  intros Hfull. unfold remaining.
  assert (Hp : Qmin (elapsed / 2000) 1 == 1).
  { apply Q.min_r. apply Qle_shift_div_l; [reflexivity|lra]. }
  rewrite Hp. reflexivity.
Qed.

(** The eased value and what is left of the way add up to one. *)
Lemma eased_remaining (elapsed p : Q) :
  App.progress (Fin elapsed) = Fin p -> eased p == 1 - remaining elapsed.
Proof.
  intros Hp. destruct (progress_Fin elapsed) as (p' & Hp' & Hmin).
  rewrite Hp in Hp'. injection Hp' as <-.
  unfold eased, remaining. rewrite Hmin. ring.
Qed.

(** An interpolated value lies between its ends. *)
Lemma between_ends (a b e : Q) :
  0 <= e -> e <= 1 ->
  Qmin a b <= b + (a - b) * e /\ b + (a - b) * e <= Qmax a b.
Proof.
  intros H0 H1.
  destruct (Qlt_le_dec a b) as [Hab|Hba].
  - rewrite (Q.min_l a b), (Q.max_r a b) by lra. split; nra.
  - rewrite (Q.min_r a b), (Q.max_l a b) by lra. split; nra.
Qed.

Lemma abs_about (b d e e' : Q) :
  0 <= e' -> e' <= e -> Qabs (b + d * e' - b) <= Qabs (b + d * e - b).
Proof.
  intros H0 Hle.
  assert (H1 : b + d * e' - b == d * e') by ring.
  assert (H2 : b + d * e - b == d * e) by ring.
  rewrite H1, H2, !Qabs_Qmult.
  rewrite (Qabs_pos e'), (Qabs_pos e) by lra.
  pose proof (Qabs_nonneg d). nra.
Qed.

Lemma abs_scaled (d e e' : Q) :
  0 <= e' -> e' <= e -> Qabs (d * e') <= Qabs (d * e).
Proof.
  intros H0 Hle. rewrite !Qabs_Qmult.
  rewrite (Qabs_pos e'), (Qabs_pos e) by lra.
  pose proof (Qabs_nonneg d). nra.
Qed.

(** In [ReconstructionAnimation] a frame never overshoots, and later
    frames are never farther from the target: for a frame at a time [t1]
    that is not before the start [t0], a piece with a final position sits
    at [final + (start - final) * (1 - p)^3] with
    [p = min((t1 - t0) / 2000, 1)]; the factor is in [[0, 1]], so each
    coordinate lies between the start and the final one; and in a frame at
    a later time [t2] the distance to the final position, on each axis, is
    at most what it was at [t1]. *)
Theorem frame_closes_in (r : ReconstructionAnimation.Run)
  (st1 st2 : ReconstructionAnimation.State) (t0 t1 t2 : Q) (i : nat)
  (at_ al bt bl : Q) :
  ReconstructionAnimation.startTime r = Fin t0 ->
  t0 <= t1 -> t1 <= t2 ->
  ReconstructionAnimation.startPositions r !! i = Some {| top := Fin at_; left := Fin al |} ->
  ReconstructionAnimation.endPositions r !! i = Some {| top := Fin bt; left := Fin bl |} ->
  exists y1 x1 y2 x2 : Q,
    ReconstructionAnimation.positions
      (ReconstructionAnimation.after (ReconstructionAnimation.animate r (Fin t1) st1)) !! i
    = Some {| top := Fin y1; left := Fin x1 |}
    /\ ReconstructionAnimation.positions
         (ReconstructionAnimation.after (ReconstructionAnimation.animate r (Fin t2) st2)) !! i
       = Some {| top := Fin y2; left := Fin x2 |}
    /\ y1 == bt + (at_ - bt) * remaining (t1 - t0)
    /\ x1 == bl + (al - bl) * remaining (t1 - t0)
    /\ 0 <= remaining (t1 - t0) /\ remaining (t1 - t0) <= 1
    /\ Qmin at_ bt <= y1 /\ y1 <= Qmax at_ bt
    /\ Qmin al bl <= x1 /\ x1 <= Qmax al bl
    /\ Qabs (y2 - bt) <= Qabs (y1 - bt)
    /\ Qabs (x2 - bl) <= Qabs (x1 - bl).
Proof.
  intros Hstart H01 H12 Hs He.
  destruct (progress_Fin (t1 + - t0)) as (p1 & Hp1 & _).
  destruct (progress_Fin (t2 + - t0)) as (p2 & Hp2 & _).
  pose proof (eased_remaining _ _ Hp1) as He1.
  pose proof (eased_remaining _ _ Hp2) as He2.
  change (t1 + - t0) with (t1 - t0) in He1. change (t2 + - t0) with (t2 - t0) in He2.
  destruct (remaining_range (t1 - t0)) as [Hr0 Hr1]; [lra|].
  destruct (remaining_range (t2 - t0)) as [Hr0' Hr1']; [lra|].
  pose proof (remaining_antitone (t1 - t0) (t2 - t0)) as Hanti.
  specialize (Hanti ltac:(lra) ltac:(lra)).
  eexists _, _, _, _.
  split; [exact (animate_position r st1 t0 t1 p1 Hstart Hp1 i _ _ _ _ Hs He)|].
  split; [exact (animate_position r st2 t0 t2 p2 Hstart Hp2 i _ _ _ _ Hs He)|].
  assert (Hy1 : at_ + (bt + - at_) * eased p1 == bt + (at_ - bt) * remaining (t1 - t0)).
  { rewrite He1. ring. }
  assert (Hx1 : al + (bl + - al) * eased p1 == bl + (al - bl) * remaining (t1 - t0)).
  { rewrite He1. ring. }
  assert (Hy2 : at_ + (bt + - at_) * eased p2 == bt + (at_ - bt) * remaining (t2 - t0)).
  { rewrite He2. ring. }
  assert (Hx2 : al + (bl + - al) * eased p2 == bl + (al - bl) * remaining (t2 - t0)).
  { rewrite He2. ring. }
  split; [done|]. split; [done|]. split; [done|]. split; [done|].
  rewrite Hy1, Hx1, Hy2, Hx2.
  destruct (between_ends at_ bt (remaining (t1 - t0)) Hr0 Hr1) as [Hya Hyb].
  destruct (between_ends al bl (remaining (t1 - t0)) Hr0 Hr1) as [Hxa Hxb].
  split; [done|]. split; [done|]. split; [done|]. split; [done|].
  split; by apply abs_about.
Qed.

Lemma frame_closes_in_witness :
  ReconstructionAnimation.startTime plain_run = Fin 0
  /\ 0 <= 500 /\ 500 <= 1000
  /\ ReconstructionAnimation.startPositions plain_run !! 0%nat
     = Some {| top := Fin 40; left := Fin 600 |}
  /\ ReconstructionAnimation.endPositions plain_run !! 0%nat
     = Some {| top := Fin 150; left := Fin 200 |}
  /\ exists y1 x1 y2 x2 : Q,
       ReconstructionAnimation.positions
         (ReconstructionAnimation.after
            (ReconstructionAnimation.animate plain_run (Fin 500) scattered_state)) !! 0%nat
       = Some {| top := Fin y1; left := Fin x1 |}
       /\ ReconstructionAnimation.positions
            (ReconstructionAnimation.after
               (ReconstructionAnimation.animate plain_run (Fin 1000) scattered_state)) !! 0%nat
          = Some {| top := Fin y2; left := Fin x2 |}
       /\ y1 == 150 + (40 - 150) * remaining (500 - 0)
       /\ x1 == 200 + (600 - 200) * remaining (500 - 0)
       /\ 0 <= remaining (500 - 0) /\ remaining (500 - 0) <= 1
       /\ Qmin 40 150 <= y1 /\ y1 <= Qmax 40 150
       /\ Qmin 600 200 <= x1 /\ x1 <= Qmax 600 200
       /\ Qabs (y2 - 150) <= Qabs (y1 - 150)
       /\ Qabs (x2 - 200) <= Qabs (x1 - 200).
Proof.
  split; [reflexivity|]. split; [discriminate|]. split; [discriminate|].
  split; [reflexivity|]. split; [reflexivity|].
  apply (frame_closes_in plain_run scattered_state scattered_state 0 500 1000 0
           40 600 150 200); first [reflexivity | discriminate].
Defined.

(** In the animated [App] a frame of the current run shrinks every
    piece towards the origin of the overlay: at a time [t1] that is not
    before the start [t0], the working copy holds each piece, with its data
    and its scattered position unchanged, at
    [scattered * (1 - p)^3] with [p = min((t1 - t0) / 2000, 1)]; the factor
    is in [[0, 1]], and at a later time [t2] each coordinate is at most as
    far from 0 as it was at [t1]. *)
Theorem frame_shrinks_towards_origin (r : App.Run) (st1 st2 : App.State)
  (t0 t1 t2 : Q) (i : nat) (sp : App.ScatteredPiece) (sx sy : Q) :
  App.startTime r = Fin t0 ->
  App.currentAnimationId r = App.animationIdRef st1 ->
  App.currentAnimationId r = App.animationIdRef st2 ->
  t0 <= t1 -> t1 <= t2 ->
  App.scatteredOfRun r !! i = Some sp ->
  App.scattered_position sp = (Fin sx, Fin sy) ->
  exists (q1 q2 : App.ScatteredPiece) (x1 y1 x2 y2 : Q),
    App.animationRef (App.after (App.animate r (Fin t1) st1)) !! i = Some q1
    /\ App.animationRef (App.after (App.animate r (Fin t2) st2)) !! i = Some q2
    /\ App.piece q1 = App.piece sp
    /\ App.scattered_position q1 = App.scattered_position sp
    /\ App.current_position q1 = (Fin x1, Fin y1)
    /\ App.current_position q2 = (Fin x2, Fin y2)
    /\ x1 == sx * remaining (t1 - t0)
    /\ y1 == sy * remaining (t1 - t0)
    /\ 0 <= remaining (t1 - t0) /\ remaining (t1 - t0) <= 1
    /\ Qabs x1 <= Qabs sx /\ Qabs y1 <= Qabs sy
    /\ Qabs x2 <= Qabs x1 /\ Qabs y2 <= Qabs y1.
Proof.
  intros Hstart Hcur1 Hcur2 H01 H12 Hi Hs.
  destruct (progress_Fin (t1 + - t0)) as (p1 & Hp1 & _).
  destruct (progress_Fin (t2 + - t0)) as (p2 & Hp2 & _).
  pose proof (eased_remaining _ _ Hp1) as He1.
  pose proof (eased_remaining _ _ Hp2) as He2.
  change (t1 + - t0) with (t1 - t0) in He1. change (t2 + - t0) with (t2 - t0) in He2.
  destruct (remaining_range (t1 - t0)) as [Hr0 Hr1]; [lra|].
  destruct (remaining_range (t2 - t0)) as [Hr0' Hr1']; [lra|].
  pose proof (remaining_antitone (t1 - t0) (t2 - t0)) as Hanti.
  specialize (Hanti ltac:(lra) ltac:(lra)).
  eexists _, _, _, _, _, _.
  rewrite (animate_working_copy r st1 t0 t1 p1 Hcur1 Hstart Hp1).
  rewrite (animate_working_copy r st2 t0 t2 p2 Hcur2 Hstart Hp2).
  rewrite !lookup_map, Hi. cbn [fmap option_fmap option_map].
  rewrite !(updatedPiece_position sp sx sy _ Hs).
  cbn [App.piece App.scattered_position App.current_position].
  split; [reflexivity|]. split; [reflexivity|]. split; [reflexivity|].
  split; [by rewrite Hs|]. split; [reflexivity|]. split; [reflexivity|].
  assert (Hx1 : sx + (0 + - sx) * eased p1 == sx * remaining (t1 - t0)).
  { rewrite He1. ring. }
  assert (Hy1 : sy + (0 + - sy) * eased p1 == sy * remaining (t1 - t0)).
  { rewrite He1. ring. }
  assert (Hx2 : sx + (0 + - sx) * eased p2 == sx * remaining (t2 - t0)).
  { rewrite He2. ring. }
  assert (Hy2 : sy + (0 + - sy) * eased p2 == sy * remaining (t2 - t0)).
  { rewrite He2. ring. }
  split; [done|]. split; [done|]. split; [done|]. split; [done|].
  rewrite Hx1, Hy1, Hx2, Hy2.
  assert (Hone : forall s : Q, Qabs s == Qabs (s * 1)).
  { intros s. by rewrite Qmult_1_r. }
  split; [rewrite (Hone sx); by apply abs_scaled|].
  split; [rewrite (Hone sy); by apply abs_scaled|].
  split; by apply abs_scaled.
Qed.

Lemma frame_shrinks_towards_origin_witness :
  App.startTime canvas_run = Fin 0
  /\ App.currentAnimationId canvas_run = App.animationIdRef canvas_state
  /\ 0 <= 500 /\ 500 <= 1000
  /\ App.scatteredOfRun canvas_run !! 0%nat = Some scattered_first
  /\ App.scattered_position scattered_first
     = (Fin ((1 # 2) * (1600 + 100 * 2) + - (100)),
        Fin ((1 # 2) * (1200 + 100 * 2) + - (100)))
  /\ exists (q1 q2 : App.ScatteredPiece) (x1 y1 x2 y2 : Q),
       App.animationRef (App.after (App.animate canvas_run (Fin 500) canvas_state)) !! 0%nat
       = Some q1
       /\ App.animationRef (App.after (App.animate canvas_run (Fin 1000) canvas_state)) !! 0%nat
          = Some q2
       /\ App.piece q1 = App.piece scattered_first
       /\ App.scattered_position q1 = App.scattered_position scattered_first
       /\ App.current_position q1 = (Fin x1, Fin y1)
       /\ App.current_position q2 = (Fin x2, Fin y2)
       /\ x1 == ((1 # 2) * (1600 + 100 * 2) + - (100)) * remaining (500 - 0)
       /\ y1 == ((1 # 2) * (1200 + 100 * 2) + - (100)) * remaining (500 - 0)
       /\ 0 <= remaining (500 - 0) /\ remaining (500 - 0) <= 1
       /\ Qabs x1 <= Qabs ((1 # 2) * (1600 + 100 * 2) + - (100))
       /\ Qabs y1 <= Qabs ((1 # 2) * (1200 + 100 * 2) + - (100))
       /\ Qabs x2 <= Qabs x1 /\ Qabs y2 <= Qabs y1.
Proof.
  split; [reflexivity|]. split; [reflexivity|].
  split; [discriminate|]. split; [discriminate|].
  split; [reflexivity|]. split; [reflexivity|].
  apply (frame_shrinks_towards_origin canvas_run canvas_state canvas_state 0 500 1000
           0 scattered_first); first [reflexivity | discriminate].
Defined.

(** What a frame of [ReconstructionAnimation] does besides moving
    the pieces: it writes as many positions as the run captured; a piece
    for which there is no final position keeps the position it had when the
    run started; another frame is requested exactly when less than 2000 ms
    have elapsed since the start, and otherwise the frame ends the
    animation: it sets [isAnimating] to [false] and calls
    [onAnimationComplete]. *)
Theorem animate_requests_or_completes (r : ReconstructionAnimation.Run)
  (st : ReconstructionAnimation.State) (t0 t1 : Q) :
  ReconstructionAnimation.startTime r = Fin t0 ->
  let frame := ReconstructionAnimation.animate r (Fin t1) st in
  length (ReconstructionAnimation.positions (ReconstructionAnimation.after frame))
  = length (ReconstructionAnimation.startPositions r)
  /\ (forall (i : nat) (p : Position),
        (length (ReconstructionAnimation.endPositions r) <= i)%nat ->
        ReconstructionAnimation.startPositions r !! i = Some p ->
        ReconstructionAnimation.positions (ReconstructionAnimation.after frame) !! i
        = Some p)
  /\ (ReconstructionAnimation.again frame = true <-> t1 - t0 < 2000)
  /\ (ReconstructionAnimation.completed frame = true <-> 2000 <= t1 - t0)
  /\ (t1 - t0 < 2000 ->
      ReconstructionAnimation.isAnimating (ReconstructionAnimation.after frame)
      = ReconstructionAnimation.isAnimating st)
  /\ (2000 <= t1 - t0 ->
      ReconstructionAnimation.isAnimating (ReconstructionAnimation.after frame) = false
      /\ ReconstructionAnimation.animationProgress (ReconstructionAnimation.after frame)
         ≈ Fin 1).
Proof.
  intros Hstart frame. subst frame.
  destruct (progress_Fin (t1 + - t0)) as (p & Hp & Hmin).
  change (t1 - t0) with (t1 + - t0).
  rewrite (animate_positions r st t0 t1 p Hstart Hp).
  destruct (animate_again r st t0 t1 p Hstart Hp) as (-> & -> & ->).
  assert (Hlt : (Fin p <? Fin 1)%js = true <-> t1 + - t0 < 2000).
  { rewrite lt_Fin_true. split.
    - intros Hp1. apply Qnot_le_lt. intros Hfull.
      rewrite (progress_full _ _ Hp Hfull) in Hp1. by apply Qlt_irrefl in Hp1.
    - by apply progress_partial. }
  split; [by rewrite length_imap|].
  split.
  { intros i q Hi Hq. rewrite list_lookup_imap, Hq. cbn.
    unfold ReconstructionAnimation.newPosition.
    by rewrite (lookup_ge_None_2 _ _ Hi). }
  split; [done|].
  split.
  { rewrite negb_true_iff, <- not_true_iff_false, Hlt.
    split; [apply Qnot_lt_le | apply Qle_not_lt]. }
  split.
  { intros Hpart. apply Hlt in Hpart. by rewrite Hpart, andb_true_r. }
  intros Hfull.
  assert (Hend : (Fin p <? Fin 1)%js = false).
  { apply not_true_iff_false. rewrite Hlt. by apply Qle_not_lt. }
  rewrite Hend, andb_false_r. split; [done|].
  unfold ReconstructionAnimation.animate. rewrite Hstart.
  cbn [Js.sub Js.neg Js.add].
  change (ReconstructionAnimation.progress (Fin (t1 + - t0)))
    with (App.progress (Fin (t1 + - t0))).
  rewrite Hp, Hend. cbn [ReconstructionAnimation.after ReconstructionAnimation.animationProgress].
  rewrite easing_Fin. cbn. fold (eased p).
  apply eased_one. by apply (progress_full (t1 + - t0)).
Qed.

Lemma animate_requests_or_completes_witness :
  ReconstructionAnimation.startTime plain_run = Fin 0
  /\ let frame := ReconstructionAnimation.animate plain_run (Fin 2500) scattered_state in
     length (ReconstructionAnimation.positions (ReconstructionAnimation.after frame))
     = length (ReconstructionAnimation.startPositions plain_run)
     /\ (forall (i : nat) (p : Position),
           (length (ReconstructionAnimation.endPositions plain_run) <= i)%nat ->
           ReconstructionAnimation.startPositions plain_run !! i = Some p ->
           ReconstructionAnimation.positions (ReconstructionAnimation.after frame) !! i
           = Some p)
     /\ (ReconstructionAnimation.again frame = true <-> 2500 - 0 < 2000)
     /\ (ReconstructionAnimation.completed frame = true <-> 2000 <= 2500 - 0)
     /\ (2500 - 0 < 2000 ->
         ReconstructionAnimation.isAnimating (ReconstructionAnimation.after frame)
         = ReconstructionAnimation.isAnimating scattered_state)
     /\ (2000 <= 2500 - 0 ->
         ReconstructionAnimation.isAnimating (ReconstructionAnimation.after frame) = false
         /\ ReconstructionAnimation.animationProgress (ReconstructionAnimation.after frame)
            ≈ Fin 1).
Proof.
  split; [reflexivity|].
  apply (animate_requests_or_completes plain_run scattered_state 0 2500). reflexivity.
Defined.

(** ** Integers as numbers *)

(** The quotient of two integers, rounded towards zero. *)
Lemma trunc_quot (a b : Z) :
  (0 < b)%Z -> Js.trunc (inject_Z a / inject_Z b) = Z.quot a b.
Proof.
  intros Hb. destruct b as [|b|b]; try lia.
  unfold Js.trunc. cbn. by rewrite Z.mul_1_r.
Qed.

(** [a % b] on integers, for a positive [b]. *)
Lemma rem_integers_eq (a b : Z) :
  (0 < b)%Z ->
  Js.rem (Fin (inject_Z a)) (Fin (inject_Z b)) = Fin (inject_Z (Z.rem a b)).
Proof.
  intros Hb. unfold Js.rem.
  rewrite is_zero_false.
  2:{ change 0 with (inject_Z 0). rewrite inject_Z_injective. lia. }
  rewrite trunc_quot by done. f_equal.
  unfold inject_Z, Qminus, Qplus, Qmult, Qopp. cbn [Qnum Qden Pos.mul].
  f_equal. pose proof (Z.quot_rem' a b). lia.
Qed.


(** ** The grid overlay of [ReconstructionAnimation] *)

Lemma array_length_succ (g : nat) :
  (Z.of_nat g < 4294967295)%Z ->
  array_length (of_nat g + Fin 1)%js = Some (S g).
Proof.
  intros Hg. unfold array_length, of_nat. cbn [Js.add].
  assert (Ht : Js.trunc (inject_Z (Z.of_nat g) + 1) = (Z.of_nat g + 1)%Z).
  { unfold Js.trunc. cbn. rewrite Z.quot_1_r. lia. }
  rewrite Ht. destruct (Z.leb_spec (Z.of_nat g + 1) 4294967295); [|lia].
  f_equal. lia.
Qed.

Lemma of_nat_positive (g : nat) : (1 <= g)%nat -> 0 < inject_Z (Z.of_nat g).
Proof. intros Hg. change 0 with (inject_Z 0). rewrite <- Zlt_Qlt. lia. Qed.

Section GridFacts.

Import ReconstructionAnimation GridOverlay.

Lemma lines_Fin (p : Props) (g i : nat) :
  gridSize p = of_nat g -> (1 <= g)%nat ->
  lines p i
  = {| horizontalTop := Fin (inject_Z (Z.of_nat i) * 600 / inject_Z (Z.of_nat g));
       verticalLeft := Fin (inject_Z (Z.of_nat i) * 800 / inject_Z (Z.of_nat g)) |}.
Proof.
  intros Hg Hpos. pose proof (of_nat_positive g Hpos) as Hq.
  unfold lines, containerHeight, containerWidth. rewrite Hg. unfold of_nat.
  cbn [Js.mul]. by rewrite !div_Fin by lra.
Qed.

(** The reference grid of [ReconstructionAnimation], drawn while
    animating for a grid size [g >= 1], has [g + 1] pairs of lines, the
    [i]-th at [top = i * 600 / g] and [left = i * 800 / g]: the first pair
    on the upper and left edge of the container and the last on the lower
    and right edge.  The final positions of [startAnimation] fall on these
    lines when the source is at least as large as the container and has
    its 4 : 3 shape: the piece whose coordinates are [r] pieces down and
    [c] pieces right ends where line [r] and line [c] cross. *)
Theorem grid_overlay_meets_final_positions (p : Props) (st : State)
  (g : nat) (w h : Q) :
  gridSize p = of_nat g -> (1 <= g)%nat -> (Z.of_nat g < 4294967295)%Z ->
  isAnimating st = true ->
  pieceDimensions p = {| height := Fin h; width := Fin w |} ->
  exists grid,
    gridOverlay p st = Some grid
    /\ length grid = S g
    /\ (forall i, (i <= g)%nat ->
          grid !! i
          = Some {| horizontalTop := Fin (inject_Z (Z.of_nat i) * 600 / inject_Z (Z.of_nat g));
                    verticalLeft := Fin (inject_Z (Z.of_nat i) * 800 / inject_Z (Z.of_nat g)) |})
    /\ (exists first last,
          grid !! 0%nat = Some first /\ grid !! g = Some last
          /\ horizontalTop first ≈ Fin 0 /\ verticalLeft first ≈ Fin 0
          /\ horizontalTop last ≈ Fin 600 /\ verticalLeft last ≈ Fin 800)
    /\ (0 < h -> 800 <= inject_Z (Z.of_nat g) * w -> 3 * w == 4 * h ->
        forall (r c : nat) (idx : number) (row column : Lines),
          grid !! r = Some row -> grid !! c = Some column ->
          same_position
            (finalPosition p
               {| PieceCoordinate.piece_index := idx;
                  PieceCoordinate.top := Fin (inject_Z (Z.of_nat r) * h);
                  PieceCoordinate.left := Fin (inject_Z (Z.of_nat c) * w) |})
            {| top := horizontalTop row; left := verticalLeft column |}).
Proof.
  intros Hg Hpos Hbound Hanim Hdim.
  pose proof (of_nat_positive g Hpos) as Hq.
  unfold gridOverlay. rewrite Hanim, Hg, array_length_succ by done.
  eexists. split; [reflexivity|].
  assert (Hat : forall i, (i <= g)%nat ->
            map (lines p) (seq 0 (S g)) !! i
            = Some {| horizontalTop := Fin (inject_Z (Z.of_nat i) * 600 / inject_Z (Z.of_nat g));
                      verticalLeft := Fin (inject_Z (Z.of_nat i) * 800 / inject_Z (Z.of_nat g)) |}).
  { intros i Hi. rewrite lookup_map, lookup_seq_lt by lia. cbn.
    by rewrite (lines_Fin p g i). }
  split; [by rewrite length_map, length_seq|].
  split; [exact Hat|].
  split.
  { eexists _, _. split; [apply Hat; lia|]. split; [apply Hat; lia|].
    cbn. repeat split; field; lra. }
  intros Hh Hlarge Hshape r c idx row column Hr Hc.
  assert (Hrg : (r <= g)%nat).
  { apply lookup_lt_Some in Hr. rewrite length_map, length_seq in Hr. lia. }
  assert (Hcg : (c <= g)%nat).
  { apply lookup_lt_Some in Hc. rewrite length_map, length_seq in Hc. lia. }
  rewrite Hat in Hr, Hc by done. injection Hr as <-. injection Hc as <-.
  assert (Hw : 0 < w) by lra.
  set (G := inject_Z (Z.of_nat g)) in *.
  assert (Hgw : 0 < G * w) by nra. assert (Hgh : 0 < G * h) by nra.
  destruct (scale_positive_source p G w h Hg Hdim Hgw Hgh) as (s & Hs & Hmin).
  assert (Hsx : s == 800 / (G * w)).
  { rewrite Hmin.
    assert (Hxy : 800 / (G * w) == 600 / (G * h)).
    { field_simplify_eq; [lra|split; lra]. }
    rewrite <- Hxy, Q.min_id. apply Q.min_l.
    apply Qle_shift_div_r; [done|lra]. }
  rewrite (finalPosition_Fin p G w h s _ _ idx Hg Hdim Hs).
  assert (Hw' : w == (4 # 3) * h) by lra.
  split; cbn; rewrite Hsx, Hw'; field; repeat split; lra.
Qed.

Lemma grid_overlay_meets_final_positions_witness :
  ReconstructionAnimation.gridSize large_grid = of_nat 4
  /\ (1 <= 4)%nat /\ (Z.of_nat 4 < 4294967295)%Z
  /\ ReconstructionAnimation.isAnimating animating_state = true
  /\ ReconstructionAnimation.pieceDimensions large_grid
     = {| ReconstructionAnimation.height := Fin 300;
          ReconstructionAnimation.width := Fin 400 |}
  /\ exists grid,
       GridOverlay.gridOverlay large_grid animating_state = Some grid
       /\ length grid = 5%nat
       /\ (forall i, (i <= 4)%nat ->
             grid !! i
             = Some {| GridOverlay.horizontalTop :=
                         Fin (inject_Z (Z.of_nat i) * 600 / inject_Z (Z.of_nat 4));
                       GridOverlay.verticalLeft :=
                         Fin (inject_Z (Z.of_nat i) * 800 / inject_Z (Z.of_nat 4)) |})
       /\ (exists first last,
             grid !! 0%nat = Some first /\ grid !! 4%nat = Some last
             /\ GridOverlay.horizontalTop first ≈ Fin 0
             /\ GridOverlay.verticalLeft first ≈ Fin 0
             /\ GridOverlay.horizontalTop last ≈ Fin 600
             /\ GridOverlay.verticalLeft last ≈ Fin 800)
       /\ (0 < 300 -> 800 <= inject_Z (Z.of_nat 4) * 400 -> 3 * 400 == 4 * 300 ->
           forall (r c : nat) (idx : number) (row column : GridOverlay.Lines),
             grid !! r = Some row -> grid !! c = Some column ->
             same_position
               (ReconstructionAnimation.finalPosition large_grid
                  {| ReconstructionAnimation.PieceCoordinate.piece_index := idx;
                     ReconstructionAnimation.PieceCoordinate.top :=
                       Fin (inject_Z (Z.of_nat r) * 300);
                     ReconstructionAnimation.PieceCoordinate.left :=
                       Fin (inject_Z (Z.of_nat c) * 400) |})
               {| top := GridOverlay.horizontalTop row;
                  left := GridOverlay.verticalLeft column |}).
Proof.
  split; [reflexivity|]. split; [lia|]. split; [lia|].
  split; [reflexivity|]. split; [reflexivity|].
  apply (grid_overlay_meets_final_positions large_grid animating_state 4 400 300);
    first [reflexivity | lia].
Defined.

End GridFacts.

(** ** The rebuild branch of [ScatteredPieces] *)

(** In rebuild mode the effect of [ScatteredPieces] stretches the
    image onto the container, axis by axis: for an image of [w] x [h] with
    [w, h > 0] it draws no random number and returns one position for each
    original position, [(top * 400 / h, left * 800 / w)]; an original
    position inside the image gives a position inside the container, and
    the order of two positions on an axis is kept.  The image of a piece
    that has no original position is drawn at [(0, 0)]. *)
Theorem rebuild_stretches_image_onto_container (random : oracle) (fuel : nat)
  (pieces : list string) (originalPositions : list Position) (w h : Q) (k : nat) :
  0 < w -> 0 < h ->
  exists positions,
    ScatteredPiecesEffect.effect random fuel true pieces originalPositions
      {| ScatteredPieces.width := Fin w; ScatteredPieces.height := Fin h |} k
    = Some (positions, k)
    /\ length positions = length originalPositions
    /\ (forall (i : nat) (t l : Q),
          originalPositions !! i = Some {| top := Fin t; left := Fin l |} ->
          positions !! i = Some {| top := Fin (t / h * 400); left := Fin (l / w * 800) |}
          /\ (0 <= t -> t <= h -> 0 <= t / h * 400 /\ t / h * 400 <= 400)
          /\ (0 <= l -> l <= w -> 0 <= l / w * 800 /\ l / w * 800 <= 800))
    /\ (forall t1 t2 : Q, t1 <= t2 -> t1 / h * 400 <= t2 / h * 400)
    /\ (forall l1 l2 : Q, l1 <= l2 -> l1 / w * 800 <= l2 / w * 800)
    /\ (forall (i : nat) (src : string),
          pieces !! i = Some src -> (length originalPositions <= i)%nat ->
          images pieces positions !! i = Some (src, {| top := Fin 0; left := Fin 0 |})).
Proof.
  intros Hw Hh. eexists. split; [reflexivity|].
  unfold ScatteredPieces.rebuiltPositions.
  assert (Hscale : forall (d a b : Q) (c : Q), 0 < d -> 0 < c -> a <= b ->
                     a / d * c <= b / d * c).
  { intros d a b c Hd Hc Hab. apply Qmult_le_compat_r; [|lra].
    unfold Qdiv. apply Qmult_le_compat_r; [done|].
    apply Qlt_le_weak. by apply Qinv_lt_0_compat. }
  assert (Hfull : forall d c : Q, 0 < d -> d / d * c == c).
  { intros d c Hd. field. lra. }
  assert (Hnone : forall d c : Q, 0 / d * c == 0).
  { intros d c. unfold Qdiv. ring. }
  split; [by rewrite length_map|].
  split.
  { intros i t l Hi. rewrite lookup_map, Hi. cbn [fmap option_fmap option_map].
    unfold ScatteredPieces.rebuiltPosition, ScatteredPieces.containerHeight,
      ScatteredPieces.containerWidth.
    cbn [top left ScatteredPieces.width ScatteredPieces.height].
    rewrite !div_Fin by lra. cbn [Js.mul]. split; [done|].
    split; intros H0 H1.
    - split.
      + rewrite <- (Hnone h 400). by apply Hscale.
      + rewrite <- (Hfull h 400) at 2 by done. by apply Hscale.
    - split.
      + rewrite <- (Hnone w 800). by apply Hscale.
      + rewrite <- (Hfull w 800) at 2 by done. by apply Hscale. }
  split; [intros t1 t2 H12; by apply Hscale|].
  split; [intros l1 l2 H12; by apply Hscale|].
  intros i src Hsrc Hi. unfold images. rewrite list_lookup_imap, Hsrc. cbn.
  unfold imagePosition. rewrite lookup_ge_None_2; [done|].
  by rewrite length_map.
Qed.

Lemma rebuild_stretches_image_onto_container_witness :
  0 < 1600 /\ 0 < 1200
  /\ exists positions,
       ScatteredPiecesEffect.effect always_half 1000 true ["a"; "b"]
         [ {| top := Fin 300; left := Fin 400 |} ]
         {| ScatteredPieces.width := Fin 1600; ScatteredPieces.height := Fin 1200 |} 0
       = Some (positions, 0%nat)
       /\ length positions = length [ {| top := Fin 300; left := Fin 400 |} ]
       /\ (forall (i : nat) (t l : Q),
             [ {| top := Fin 300; left := Fin 400 |} ] !! i
             = Some {| top := Fin t; left := Fin l |} ->
             positions !! i
             = Some {| top := Fin (t / 1200 * 400); left := Fin (l / 1600 * 800) |}
             /\ (0 <= t -> t <= 1200 -> 0 <= t / 1200 * 400 /\ t / 1200 * 400 <= 400)
             /\ (0 <= l -> l <= 1600 -> 0 <= l / 1600 * 800 /\ l / 1600 * 800 <= 800))
       /\ (forall t1 t2 : Q, t1 <= t2 -> t1 / 1200 * 400 <= t2 / 1200 * 400)
       /\ (forall l1 l2 : Q, l1 <= l2 -> l1 / 1600 * 800 <= l2 / 1600 * 800)
       /\ (forall (i : nat) (src : string),
             ["a"; "b"] !! i = Some src ->
             (length [ {| top := Fin 300; left := Fin 400 |} ] <= i)%nat ->
             images ["a"; "b"] positions !! i
             = Some (src, {| top := Fin 0; left := Fin 0 |})).
Proof.
  split; [reflexivity|]. split; [reflexivity|].
  apply (rebuild_stretches_image_onto_container always_half 1000 ["a"; "b"]
           [ {| top := Fin 300; left := Fin 400 |} ] 1600 1200 0); reflexivity.
Defined.

(** ** The animation that a rebuild starts *)

Lemma startAnimation_some (random : oracle) (pd : App.PlacementData.t)
  (now : number) (k : nat) (st : App.State) :
  exists st' r,
    App.startAnimation random (Some pd) now k st
    = (st', (k + 2 * length (App.PlacementData.pieces pd))%nat, Some r)
    /\ App.currentPlacementData st' = Some pd
    /\ App.currentPlacementDataRef st' = Some pd
    /\ map App.piece (App.scatteredPieces st') = App.PlacementData.pieces pd
    /\ App.scatteredOfRun r = App.scatteredPieces st'
    /\ App.isAnimating st' = true
    /\ App.animationPhase st' = App.Moving
    /\ App.animationRef st' = []
    /\ App.placementData st' = App.placementData st
    /\ App.currentAnimationId r = App.animationIdRef st'
    /\ App.animationIdRef st' = (App.animationIdRef st + 1)%nat
    /\ App.startTime r = now.
Proof.
  unfold App.startAnimation, App.generateScatteredPositions.
  destruct (scatterPieces_spec random (App.PlacementData.canvas_size pd) k
              (App.PlacementData.pieces pd)) as (Hk & Hmap & _).
  destruct (App.scatterPieces _ _ _ _) as [scattered k'].
  cbn [fst snd] in Hk, Hmap. subst k'.
  eexists _, _. split; [reflexivity|]. by repeat split.
Qed.

(** The animation that [handleRebuild] starts by itself animates the
    pieces of the rebuild before: its timer calls the [startAnimation] of
    the render in which the button was clicked, which reads the placement
    data of that render.  After an answer with a rebuilt image the state
    holds the placement data of the answer; but with no placement data at
    the click the timer starts nothing, and with the data [old] of an
    earlier rebuild it scatters and animates the pieces of [old], and the
    overlay is drawn for [old] until the clean-up of the effect on
    [isAnimating] runs, and for the placement data of the state from then
    on.  The button Replay Animation, pressed in the state that the answer
    leaves, animates the pieces of the answer. *)
Theorem handleRebuild_animates_placement_of_click (random : oracle)
  (clicked : App.State) (data : App.Data.t) (rebuilt : string)
  (now : number) (k : nat) :
  App.Data.rebuilt data = Some rebuilt -> rebuilt <> "" ->
  exists answered,
    App.handleRebuild_response (App.Body data) (App.handleRebuild_request clicked)
    = (answered, true)
    /\ App.placementData answered = App.Data.placement_data data
    /\ App.rebuiltUrl answered = Some (App.API_URL +:+ rebuilt)
    /\ App.isAnimating answered = false
    /\ (App.placementData clicked = None ->
        forall st : App.State,
          RebuildTimer.handleRebuild_timeout random clicked now k st = (st, k, None))
    /\ (forall old, App.placementData clicked = Some old ->
        forall st : App.State,
        exists st' k' r,
          RebuildTimer.handleRebuild_timeout random clicked now k st
          = (st', k', Some r)
          /\ App.isAnimating st' = true
          /\ map App.piece (App.scatteredPieces st') = App.PlacementData.pieces old
          /\ map App.piece (App.scatteredOfRun r) = App.PlacementData.pieces old
          /\ App.placementData st' = App.placementData st
          /\ App.currentPlacementData st' = Some old
          /\ App.currentPlacementData (App.isAnimatingCleanup st') = App.placementData st)
    /\ (forall new, App.Data.placement_data data = Some new ->
        exists st' k' r,
          RebuildTimer.replayAnimation random now k answered = (st', k', Some r)
          /\ App.isAnimating st' = true
          /\ map App.piece (App.scatteredPieces st') = App.PlacementData.pieces new
          /\ App.currentPlacementData st' = Some new
          /\ App.currentPlacementData (App.isAnimatingCleanup st') = Some new).
Proof.
  intros Hrebuilt Hne. unfold App.handleRebuild_response. rewrite Hrebuilt.
  destruct (decide (rebuilt = "")) as [|_]; [done|].
  eexists. split; [reflexivity|].
  split; [reflexivity|]. split; [reflexivity|]. split; [reflexivity|].
  split.
  { intros Hnone st. unfold RebuildTimer.handleRebuild_timeout. by rewrite Hnone. }
  split.
  - intros old Hold st. unfold RebuildTimer.handleRebuild_timeout. rewrite Hold.
    destruct (startAnimation_some random old now k st)
      as (st' & r & -> & Hcur & _ & Hpieces & Hrun & Hanim & _ & _ & Hpd & _).
    eexists _, _, _. split; [reflexivity|]. split; [done|]. split; [done|].
    split; [by rewrite Hrun|]. split; [done|]. split; [done|].
    by rewrite <- Hpd.
  - intros new Hnew. unfold RebuildTimer.replayAnimation.
    match goal with |- context [App.startAnimation _ (App.placementData ?s) _ _ _] =>
      change (App.placementData s) with (App.Data.placement_data data)
    end.
    rewrite Hnew.
    match goal with |- context [App.startAnimation _ _ _ _ ?s] =>
      destruct (startAnimation_some random new now k s)
        as (st' & r & -> & Hcur & _ & Hpieces & _ & Hanim & _ & _ & Hpd & _)
    end.
    eexists _, _, _. split; [reflexivity|]. split; [done|]. split; [done|].
    split; [done|].
    change (App.currentPlacementData (App.isAnimatingCleanup st'))
      with (App.placementData st').
    by rewrite Hpd.
Qed.

Lemma handleRebuild_animates_placement_of_click_witness :
  App.Data.rebuilt rebuilt_answer = Some "/static/rebuilt.png"
  /\ "/static/rebuilt.png" <> ""
  /\ exists answered,
       App.handleRebuild_response (App.Body rebuilt_answer)
         (App.handleRebuild_request rebuilt_state)
       = (answered, true)
       /\ App.placementData answered = App.Data.placement_data rebuilt_answer
       /\ App.rebuiltUrl answered = Some (App.API_URL +:+ "/static/rebuilt.png")
       /\ App.isAnimating answered = false
       /\ (App.placementData rebuilt_state = None ->
           forall st : App.State,
             RebuildTimer.handleRebuild_timeout always_half rebuilt_state (Fin 100) 0 st
             = (st, 0%nat, None))
       /\ (forall old, App.placementData rebuilt_state = Some old ->
           forall st : App.State,
           exists st' k' r,
             RebuildTimer.handleRebuild_timeout always_half rebuilt_state (Fin 100) 0 st
             = (st', k', Some r)
             /\ App.isAnimating st' = true
             /\ map App.piece (App.scatteredPieces st') = App.PlacementData.pieces old
             /\ map App.piece (App.scatteredOfRun r) = App.PlacementData.pieces old
             /\ App.placementData st' = App.placementData st
             /\ App.currentPlacementData st' = Some old
             /\ App.currentPlacementData (App.isAnimatingCleanup st')
                = App.placementData st)
       /\ (forall new, App.Data.placement_data rebuilt_answer = Some new ->
           exists st' k' r,
             RebuildTimer.replayAnimation always_half (Fin 100) 0 answered
             = (st', k', Some r)
             /\ App.isAnimating st' = true
             /\ map App.piece (App.scatteredPieces st') = App.PlacementData.pieces new
             /\ App.currentPlacementData st' = Some new
             /\ App.currentPlacementData (App.isAnimatingCleanup st') = Some new).
Proof.
  split; [reflexivity|]. split; [discriminate|].
  apply (handleRebuild_animates_placement_of_click always_half rebuilt_state
           rebuilt_answer "/static/rebuilt.png" (Fin 100) 0);
    [reflexivity|discriminate].
Defined.

(** What the timer does after this answer, in [rebuilt_state], whose
    placement is [large_canvas]: the two pieces of [large_canvas] are
    animated, and not the one piece of the [small_canvas] of the answer,
    which the state holds. *)
Example rebuild_timer_animates_earlier_placement :
  exists answered st' k' r,
    App.handleRebuild_response (App.Body rebuilt_answer)
      (App.handleRebuild_request rebuilt_state) = (answered, true)
    /\ RebuildTimer.handleRebuild_timeout always_half rebuilt_state (Fin 100) 0 answered
       = (st', k', Some r)
    /\ App.placementData st' = Some small_canvas
    /\ map App.piece (App.scatteredPieces st') = App.PlacementData.pieces large_canvas
    /\ length (App.scatteredPieces st') = 2%nat.
Proof. eexists _, _, _, _. repeat split; reflexivity. Qed.

(** ** The overlay during an animation *)

(** The overlay draws the positions of the last frame, whether or
    not the throttle let the frame commit them: in a render after a frame
    of the current run at the time [t1], piece [i] is drawn with its centre
    at [(x * s + 400, y * s + 300)] for the position
    [(x, y) = scattered * (1 - p)^3] that the frame computed and the scale
    [s] of the placement data in use, whatever the state holds for this
    piece. *)
Theorem overlay_draws_last_frame (r : App.Run) (st : App.State)
  (pd : App.PlacementData.t) (t0 t1 s : Q) (i : nat)
  (sp committed : App.ScatteredPiece) (sx sy : Q) :
  App.startTime r = Fin t0 ->
  App.currentAnimationId r = App.animationIdRef st ->
  App.currentPlacementData st = Some pd ->
  App.scale pd = Fin s ->
  App.scatteredOfRun r !! i = Some sp ->
  App.scattered_position sp = (Fin sx, Fin sy) ->
  exists style,
    App.renderPiece (App.after (App.animate r (Fin t1) st)) i committed = Some style
    /\ App.left style ≈ Fin (sx * remaining (t1 - t0) * s + 400)
    /\ App.top style ≈ Fin (sy * remaining (t1 - t0) * s + 300).
Proof.
  intros Hstart Hcur Hpd Hs Hi Hsp.
  destruct (progress_Fin (t1 + - t0)) as (p & Hp & _).
  pose proof (eased_remaining _ _ Hp) as He.
  change (t1 + - t0) with (t1 - t0) in He.
  unfold App.renderPiece.
  rewrite (animate_working_copy r st t0 t1 p Hcur Hstart Hp).
  rewrite lookup_map, Hi. cbn [fmap option_fmap option_map default].
  rewrite (updatedPiece_position sp sx sy _ Hsp). cbn [App.current_position].
  assert (Hkeep : App.currentPlacementData (App.after (App.animate r (Fin t1) st))
                  = App.currentPlacementData st).
  { rewrite (animate_current r st t0 t1 p Hcur Hstart Hp).
    by destruct (Fin p <? Fin 1)%js, (App.commits (Fin p)). }
  rewrite Hkeep, Hpd, Hs. cbn [Js.mul Js.add].
  destruct (Js.or_else _ _ * Fin s)%js, (Js.or_else _ _ * Fin s)%js;
    (eexists; split; [reflexivity|]; cbn; rewrite He; split; ring).
Qed.

Lemma overlay_draws_last_frame_witness :
  App.startTime canvas_run = Fin 0
  /\ App.currentAnimationId canvas_run = App.animationIdRef canvas_state
  /\ App.currentPlacementData canvas_state = Some large_canvas
  /\ App.scale large_canvas = Fin (800 / 1600)
  /\ App.scatteredOfRun canvas_run !! 0%nat = Some scattered_first
  /\ App.scattered_position scattered_first
     = (Fin ((1 # 2) * (1600 + 100 * 2) + - (100)),
        Fin ((1 # 2) * (1200 + 100 * 2) + - (100)))
  /\ exists style,
       App.renderPiece (App.after (App.animate canvas_run (Fin 1000) canvas_state))
         0 scattered_first = Some style
       /\ App.left style
          ≈ Fin (((1 # 2) * (1600 + 100 * 2) + - (100)) * remaining (1000 - 0)
                 * (800 / 1600) + 400)
       /\ App.top style
          ≈ Fin (((1 # 2) * (1200 + 100 * 2) + - (100)) * remaining (1000 - 0)
                 * (800 / 1600) + 300).
Proof.
  split; [reflexivity|]. split; [reflexivity|]. split; [reflexivity|].
  split; [reflexivity|]. split; [reflexivity|]. split; [reflexivity|].
  apply (overlay_draws_last_frame canvas_run canvas_state large_canvas 0 1000
           (800 / 1600) 0 scattered_first scattered_first); reflexivity.
Defined.

(** ** The piece browser *)

Lemma of_nat_add (a b : nat) : (of_nat a + of_nat b)%js = of_nat (a + b).
Proof.
  unfold of_nat. cbn [Js.add]. f_equal.
  unfold inject_Z, Qplus. cbn [Qnum Qden Pos.mul]. f_equal. lia.
Qed.

Lemma of_nat_rem (a n : nat) :
  (1 <= n)%nat -> Js.rem (of_nat a) (of_nat n) = of_nat (a mod n).
Proof.
  intros Hn. unfold of_nat. rewrite rem_integers_eq by lia.
  do 2 f_equal. rewrite Z.rem_mod_nonneg by lia. by rewrite Nat2Z.inj_mod.
Qed.

Lemma of_nat_pred_add (i n : nat) :
  (1 <= n)%nat -> (of_nat i - Fin 1 + of_nat n)%js = of_nat (i + n - 1).
Proof.
  intros Hn. unfold of_nat. cbn [Js.sub Js.neg Js.add]. f_equal.
  unfold inject_Z, Qplus, Qopp. cbn [Qnum Qden Pos.mul]. f_equal. lia.
Qed.

Lemma nextPiece_of_nat (l : list string) (i : nat) :
  (1 <= length l)%nat ->
  PieceBrowser.nextPiece l (of_nat i) = of_nat ((i + 1) mod length l).
Proof.
  intros Hn. unfold PieceBrowser.nextPiece.
  change (Fin 1) with (of_nat 1). by rewrite of_nat_add, of_nat_rem.
Qed.

Lemma prevPiece_of_nat (l : list string) (i : nat) :
  (1 <= length l)%nat ->
  PieceBrowser.prevPiece l (of_nat i) = of_nat ((i + length l - 1) mod length l).
Proof.
  intros Hn. unfold PieceBrowser.prevPiece.
  by rewrite of_nat_pred_add, of_nat_rem.
Qed.

Lemma at_number_of_nat {A : Type} (l : list A) (i : nat) :
  PieceBrowser.at_number l (of_nat i) = l !! i.
Proof.
  unfold PieceBrowser.at_number, of_nat. rewrite Qfloor_Z.
  assert (H1 : Qeq_bool (inject_Z (Z.of_nat i)) (inject_Z (Z.of_nat i)) = true).
  { apply Qeq_bool_iff. reflexivity. }
  assert (H2 : Qle_bool 0 (inject_Z (Z.of_nat i)) = true).
  { apply Qle_bool_iff. change 0 with (inject_Z 0). rewrite <- Zle_Qle. lia. }
  by rewrite H1, H2, Nat2Z.id.
Qed.

(** In a list of [n >= 1] pieces [nextPiece] and [prevPiece] keep
    the index inside the list and move it around a circle: from a natural
    index [i] they give [(i + 1) mod n] and [(i + n - 1) mod n], which are
    below [n] even when [i] is not; from an index [i < n] each undoes the
    other, and [m] steps forward lead to [(i + m) mod n], so that [n] steps
    lead back to [i].  The keys [ArrowRight] and space are [nextPiece] and
    [ArrowLeft] is [prevPiece], once the image is shattered. *)
Theorem browser_index_moves_around_the_list (shuffledPieces : list string) (i : nat) :
  (1 <= length shuffledPieces)%nat ->
  PieceBrowser.nextPiece shuffledPieces (of_nat i)
  = of_nat ((i + 1) mod length shuffledPieces)
  /\ PieceBrowser.prevPiece shuffledPieces (of_nat i)
     = of_nat ((i + length shuffledPieces - 1) mod length shuffledPieces)
  /\ ((i + 1) mod length shuffledPieces < length shuffledPieces)%nat
  /\ ((i + length shuffledPieces - 1) mod length shuffledPieces
      < length shuffledPieces)%nat
  /\ ((i < length shuffledPieces)%nat ->
      PieceBrowser.prevPiece shuffledPieces
        (PieceBrowser.nextPiece shuffledPieces (of_nat i)) = of_nat i
      /\ PieceBrowser.nextPiece shuffledPieces
           (PieceBrowser.prevPiece shuffledPieces (of_nat i)) = of_nat i
      /\ (forall m : nat,
            Nat.iter m (PieceBrowser.nextPiece shuffledPieces) (of_nat i)
            = of_nat ((i + m) mod length shuffledPieces))
      /\ Nat.iter (length shuffledPieces) (PieceBrowser.nextPiece shuffledPieces)
           (of_nat i) = of_nat i)
  /\ PieceBrowser.handleKeyPress true shuffledPieces "ArrowRight" (of_nat i)
     = (of_nat ((i + 1) mod length shuffledPieces), true)
  /\ PieceBrowser.handleKeyPress true shuffledPieces " " (of_nat i)
     = (of_nat ((i + 1) mod length shuffledPieces), true)
  /\ PieceBrowser.handleKeyPress true shuffledPieces "ArrowLeft" (of_nat i)
     = (of_nat ((i + length shuffledPieces - 1) mod length shuffledPieces), true).
Proof.
  intros Hn. set (n := length shuffledPieces) in *.
  pose proof (nextPiece_of_nat shuffledPieces i Hn) as Hnext.
  pose proof (prevPiece_of_nat shuffledPieces i Hn) as Hprev.
  fold n in Hnext, Hprev.
  split; [done|]. split; [done|].
  split; [apply Nat.mod_upper_bound; lia|].
  split; [apply Nat.mod_upper_bound; lia|].
  split.
  { intros Hi.
    assert (Hiter : forall m : nat,
              Nat.iter m (PieceBrowser.nextPiece shuffledPieces) (of_nat i)
              = of_nat ((i + m) mod n)).
    { induction m as [|m IH].
      - cbn. by rewrite Nat.add_0_r, Nat.mod_small.
      - rewrite Nat.iter_succ, IH, nextPiece_of_nat by done. fold n.
        f_equal. rewrite Nat.Div0.add_mod_idemp_l. f_equal. lia. }
    split; [|split; [|split]].
    - rewrite Hnext, prevPiece_of_nat by done. fold n. f_equal.
      destruct (decide (i + 1 = n)%nat) as [Heq|Hne].
      + rewrite Heq, Nat.Div0.mod_same, Nat.mod_small; lia.
      + rewrite (Nat.mod_small (i + 1) n) by lia.
        replace (i + 1 + n - 1)%nat with (i + 1 * n)%nat by lia.
        rewrite Nat.Div0.mod_add. by apply Nat.mod_small.
    - rewrite Hprev, nextPiece_of_nat by done. fold n. f_equal.
      destruct (decide (i = 0)%nat) as [->|Hne].
      + rewrite (Nat.mod_small (0 + n - 1) n) by lia.
        replace (0 + n - 1 + 1)%nat with n by lia. apply Nat.Div0.mod_same.
      + replace (i + n - 1)%nat with (i - 1 + 1 * n)%nat by lia.
        rewrite Nat.Div0.mod_add, (Nat.mod_small (i - 1) n) by lia.
        replace (i - 1 + 1)%nat with i by lia. by apply Nat.mod_small.
    - done.
    - rewrite Hiter. f_equal.
      replace (i + n)%nat with (i + 1 * n)%nat by lia.
      rewrite Nat.Div0.mod_add. by apply Nat.mod_small. }
  unfold PieceBrowser.handleKeyPress. cbn [negb].
  split; [by rewrite Hnext|]. split; [by rewrite Hnext|]. by rewrite Hprev.
Qed.

Lemma browser_index_moves_around_the_list_witness :
  (1 <= length ["a"; "b"; "c"])%nat
  /\ PieceBrowser.nextPiece ["a"; "b"; "c"] (of_nat 2)
     = of_nat ((2 + 1) mod length ["a"; "b"; "c"])
  /\ PieceBrowser.prevPiece ["a"; "b"; "c"] (of_nat 2)
     = of_nat ((2 + length ["a"; "b"; "c"] - 1) mod length ["a"; "b"; "c"])
  /\ ((2 + 1) mod length ["a"; "b"; "c"] < length ["a"; "b"; "c"])%nat
  /\ ((2 + length ["a"; "b"; "c"] - 1) mod length ["a"; "b"; "c"]
      < length ["a"; "b"; "c"])%nat
  /\ ((2 < length ["a"; "b"; "c"])%nat ->
      PieceBrowser.prevPiece ["a"; "b"; "c"]
        (PieceBrowser.nextPiece ["a"; "b"; "c"] (of_nat 2)) = of_nat 2
      /\ PieceBrowser.nextPiece ["a"; "b"; "c"]
           (PieceBrowser.prevPiece ["a"; "b"; "c"] (of_nat 2)) = of_nat 2
      /\ (forall m : nat,
            Nat.iter m (PieceBrowser.nextPiece ["a"; "b"; "c"]) (of_nat 2)
            = of_nat ((2 + m) mod length ["a"; "b"; "c"]))
      /\ Nat.iter (length ["a"; "b"; "c"]) (PieceBrowser.nextPiece ["a"; "b"; "c"])
           (of_nat 2) = of_nat 2)
  /\ PieceBrowser.handleKeyPress true ["a"; "b"; "c"] "ArrowRight" (of_nat 2)
     = (of_nat ((2 + 1) mod length ["a"; "b"; "c"]), true)
  /\ PieceBrowser.handleKeyPress true ["a"; "b"; "c"] " " (of_nat 2)
     = (of_nat ((2 + 1) mod length ["a"; "b"; "c"]), true)
  /\ PieceBrowser.handleKeyPress true ["a"; "b"; "c"] "ArrowLeft" (of_nat 2)
     = (of_nat ((2 + length ["a"; "b"; "c"] - 1) mod length ["a"; "b"; "c"]), true).
Proof.
  split; [cbn; lia|].
  apply (browser_index_moves_around_the_list ["a"; "b"; "c"] 2). cbn. lia.
Defined.

(** With no pieces the browser loses its index: on an empty list
    [nextPiece] and [prevPiece] give [NaN] from every index, a key gives
    it too once the image is shattered, and [NaN] stays: from [NaN] both
    give [NaN] on every list, and no piece is at the index [NaN].  A key
    does nothing, and does not call [preventDefault], while the image is
    not shattered or when it is another key. *)
Theorem browser_index_is_lost_without_pieces (prev : number)
  (shuffledPieces : list string) (key : string) :
  PieceBrowser.nextPiece [] prev = Js.NaN
  /\ PieceBrowser.prevPiece [] prev = Js.NaN
  /\ PieceBrowser.handleKeyPress true [] "ArrowRight" prev = (Js.NaN, true)
  /\ PieceBrowser.handleKeyPress true [] "ArrowLeft" prev = (Js.NaN, true)
  /\ PieceBrowser.nextPiece shuffledPieces Js.NaN = Js.NaN
  /\ PieceBrowser.prevPiece shuffledPieces Js.NaN = Js.NaN
  /\ PieceBrowser.at_number shuffledPieces Js.NaN = None
  /\ PieceBrowser.handleKeyPress false shuffledPieces key prev = (prev, false)
  /\ (key <> "ArrowRight" -> key <> " " -> key <> "ArrowLeft" ->
      PieceBrowser.handleKeyPress true shuffledPieces key prev = (prev, false)).
Proof.
  assert (Hnext : PieceBrowser.nextPiece [] prev = Js.NaN) by by destruct prev.
  assert (Hprev : PieceBrowser.prevPiece [] prev = Js.NaN) by by destruct prev.
  split; [done|]. split; [done|].
  unfold PieceBrowser.handleKeyPress. cbn [negb].
  split; [by rewrite Hnext|]. split; [by rewrite Hprev|].
  split; [done|]. split; [done|]. split; [done|]. split; [done|].
  intros Hr Hs Hl.
  by rewrite !bool_decide_eq_false_2 by done.
Qed.

(** With the index [i] inside a list of [n] pieces the browser shows
    three pieces of the list: the piece at [i] in the middle, the piece at
    [(i + n - 1) mod n] on the left and the piece at [(i + 1) mod n] on the
    right, which are the pieces that [prevPiece] and [nextPiece] make the
    current one.  With an index at or beyond the end of the list, which a
    shorter list of pieces leaves behind, the image in the middle has no
    piece. *)
Theorem browser_shows_neighbours (shuffledPieces : list string) (i : nat) :
  (1 <= length shuffledPieces)%nat ->
  PieceBrowser.shown shuffledPieces (of_nat i)
  = {| PieceBrowser.previous :=
         shuffledPieces !! ((i + length shuffledPieces - 1) mod length shuffledPieces);
       PieceBrowser.current := shuffledPieces !! i;
       PieceBrowser.next := shuffledPieces !! ((i + 1) mod length shuffledPieces) |}
  /\ is_Some (PieceBrowser.previous (PieceBrowser.shown shuffledPieces (of_nat i)))
  /\ is_Some (PieceBrowser.next (PieceBrowser.shown shuffledPieces (of_nat i)))
  /\ ((i < length shuffledPieces)%nat <->
      is_Some (PieceBrowser.current (PieceBrowser.shown shuffledPieces (of_nat i))))
  /\ PieceBrowser.previous (PieceBrowser.shown shuffledPieces (of_nat i))
     = PieceBrowser.current
         (PieceBrowser.shown shuffledPieces
            (PieceBrowser.prevPiece shuffledPieces (of_nat i)))
  /\ PieceBrowser.next (PieceBrowser.shown shuffledPieces (of_nat i))
     = PieceBrowser.current
         (PieceBrowser.shown shuffledPieces
            (PieceBrowser.nextPiece shuffledPieces (of_nat i))).
Proof.
  intros Hn.
  assert (Hshown : PieceBrowser.shown shuffledPieces (of_nat i)
    = {| PieceBrowser.previous :=
           shuffledPieces !! ((i + length shuffledPieces - 1) mod length shuffledPieces);
         PieceBrowser.current := shuffledPieces !! i;
         PieceBrowser.next := shuffledPieces !! ((i + 1) mod length shuffledPieces) |}).
  { unfold PieceBrowser.shown.
    fold (PieceBrowser.prevPiece shuffledPieces (of_nat i)).
    fold (PieceBrowser.nextPiece shuffledPieces (of_nat i)).
    rewrite nextPiece_of_nat, prevPiece_of_nat by done.
    by rewrite !at_number_of_nat. }
  split; [done|]. rewrite Hshown. cbn [PieceBrowser.previous PieceBrowser.current PieceBrowser.next].
  split; [apply lookup_lt_is_Some_2, Nat.mod_upper_bound; lia|].
  split; [apply lookup_lt_is_Some_2, Nat.mod_upper_bound; lia|].
  split; [symmetry; apply lookup_lt_is_Some|].
  rewrite nextPiece_of_nat, prevPiece_of_nat by done.
  unfold PieceBrowser.shown. cbn [PieceBrowser.current].
  by rewrite !at_number_of_nat.
Qed.

Lemma browser_shows_neighbours_witness :
  (1 <= length ["a"; "b"; "c"])%nat
  /\ PieceBrowser.shown ["a"; "b"; "c"] (of_nat 0)
     = {| PieceBrowser.previous :=
            ["a"; "b"; "c"] !! ((0 + length ["a"; "b"; "c"] - 1) mod length ["a"; "b"; "c"]);
          PieceBrowser.current := ["a"; "b"; "c"] !! 0%nat;
          PieceBrowser.next := ["a"; "b"; "c"] !! ((0 + 1) mod length ["a"; "b"; "c"]) |}
  /\ is_Some (PieceBrowser.previous (PieceBrowser.shown ["a"; "b"; "c"] (of_nat 0)))
  /\ is_Some (PieceBrowser.next (PieceBrowser.shown ["a"; "b"; "c"] (of_nat 0)))
  /\ ((0 < length ["a"; "b"; "c"])%nat <->
      is_Some (PieceBrowser.current (PieceBrowser.shown ["a"; "b"; "c"] (of_nat 0))))
  /\ PieceBrowser.previous (PieceBrowser.shown ["a"; "b"; "c"] (of_nat 0))
     = PieceBrowser.current
         (PieceBrowser.shown ["a"; "b"; "c"]
            (PieceBrowser.prevPiece ["a"; "b"; "c"] (of_nat 0)))
  /\ PieceBrowser.next (PieceBrowser.shown ["a"; "b"; "c"] (of_nat 0))
     = PieceBrowser.current
         (PieceBrowser.shown ["a"; "b"; "c"]
            (PieceBrowser.nextPiece ["a"; "b"; "c"] (of_nat 0))).
Proof.
  split; [cbn; lia|].
  apply (browser_shows_neighbours ["a"; "b"; "c"] 0). cbn. lia.
Defined.

(** ** The names sent to the rebuild service *)

Lemma append_assoc (a b c : string) : a +:+ b +:+ c = (a +:+ b) +:+ c.
Proof.
  induction a as [|x a IH]; [done|].
  change (String x (a +:+ b +:+ c) = String x ((a +:+ b) +:+ c)). by rewrite IH.
Qed.

Lemma split_cons (sep : Ascii.ascii) (s : string) :
  exists first others, split sep s = first :: others.
Proof.
  induction s as [|c s (first & others & IH)]; cbn [split].
  - by eexists _, _.
  - destruct (Ascii.eqb c sep); [by eexists _, _|]. rewrite IH. by eexists _, _.
Qed.

(** A string with a separator splits into two pieces at least. *)
Lemma split_after (sep : Ascii.ascii) (rest t : string) :
  (2 <= length (split sep (t +:+ String sep rest)))%nat.
Proof.
  induction t as [|c t IHt].
  - change ("" +:+ String sep rest) with (String sep rest).
    cbn [split]. rewrite Ascii.eqb_refl.
    destruct (split_cons sep rest) as (? & ? & ->). cbn. lia.
  - change (String c t +:+ String sep rest) with (String c (t +:+ String sep rest)).
    cbn [split]. destruct (Ascii.eqb c sep).
    + destruct (split_cons sep (t +:+ String sep rest)) as (? & ? & ->). cbn. lia.
    + destruct (split sep (t +:+ String sep rest)) as [|? [|? ?]]; cbn in *; lia.
Qed.

(** The last piece of a split is a suffix of the string, it is free of the
    separator, and what precedes it is empty or ends with the separator. *)
Lemma split_last (sep : Ascii.ascii) (s : string) :
  exists before name,
    last (split sep s) = Some name
    /\ s = before +:+ name
    /\ free_of sep name = true
    /\ (before = "" \/ exists b, before = b +:+ String sep "").
Proof.
  induction s as [|c s (before & name & Hlast & Hs & Hfree & Hbefore)]; cbn [split].
  - exists "", "". repeat split; by try left.
  - destruct (Ascii.eqb_spec c sep) as [->|Hne].
    + destruct (split_cons sep s) as (first & others & Hsplit).
      rewrite Hsplit in *. cbn [last] in *.
      exists (String sep before), name. split; [done|].
      split; [by rewrite Hs|]. split; [done|]. right.
      destruct Hbefore as [->|[b ->]]; [by exists ""|by exists (String sep b)].
    + destruct (split_cons sep s) as (first & others & Hsplit).
      rewrite Hsplit in *. destruct others as [|second others].
      * cbn [last] in *. injection Hlast as <-.
        exists before, (String c first).
        destruct Hbefore as [->|[b ->]].
        -- split; [done|]. split; [by rewrite Hs|].
           cbn [free_of]. split; [|by left].
           rewrite Hfree, andb_true_r. apply negb_true_iff.
           by apply Ascii.eqb_neq.
        -- (* the last piece starts right after a separator: impossible when
              there is one piece only *)
           exfalso. clear Hfree.
           pose proof (split_after sep first) as Hlen.
           specialize (Hlen b). rewrite <- append_assoc in Hs.
           change (String sep "" +:+ first) with (String sep first) in Hs.
           rewrite <- Hs, Hsplit in Hlen. cbn in Hlen. lia.
      * cbn [last] in *. exists (String c before), name.
        split; [done|]. split; [by rewrite Hs|]. split; [done|]. right.
        destruct Hbefore as [->|[b ->]].
        -- (* with more than one piece something precedes the last one *)
           exfalso. change ("" +:+ name) with name in Hs. subst s.
           assert (Hone : forall t, free_of sep t = true -> split sep t = [t]).
           { induction t as [|c' t IHt]; [done|]. cbn [free_of split].
             intros [Hc Ht]%andb_true_iff. apply negb_true_iff in Hc.
             by rewrite Hc, IHt. }
           rewrite (Hone name Hfree) in Hsplit. discriminate Hsplit.
        -- by exists (String c b).
Qed.

Lemma split_free (sep : Ascii.ascii) (name : string) :
  free_of sep name = true -> split sep name = [name].
Proof.
  induction name as [|c name IH]; [done|]. cbn [free_of split].
  intros [Hc Hname]%andb_true_iff. apply negb_true_iff in Hc.
  by rewrite Hc, IH.
Qed.

Lemma split_last_after (sep : Ascii.ascii) (directory name : string) :
  free_of sep name = true ->
  last (split sep (directory +:+ String sep name)) = Some name.
Proof.
  intros Hfree. induction directory as [|c directory IH].
  - change ("" +:+ String sep name) with (String sep name).
    cbn [split]. by rewrite Ascii.eqb_refl, split_free.
  - change (String c directory +:+ String sep name)
      with (String c (directory +:+ String sep name)).
    cbn [split].
    pose proof (split_after sep name directory) as Hlen.
    destruct (split sep (directory +:+ String sep name)) as [|first [|second others]];
      cbn in Hlen; try lia.
    by destruct (Ascii.eqb c sep).
Qed.

Lemma or_string_empty (name : string) :
  App.or_string (Some name) "" = name.
Proof. unfold App.or_string. by destruct (decide (name = "")) as [->|]. Qed.

(** The [order] sent to the rebuild service names the file of every
    shuffled piece, in the order of the pieces: the entry of a piece is
    what follows the last [/] of its URL, or the whole URL when it has no
    [/]; it holds no [/]; for a URL [directory/name] with a [name] free of
    [/] it is [name]; and shuffling the pieces shuffles the order in the
    same way. *)
Theorem order_names_the_files (shuffledPieces : list string) :
  length (order shuffledPieces) = length shuffledPieces
  /\ Forall (fun name => free_of "/" name = true) (order shuffledPieces)
  /\ (forall (i : nat) (url : string),
        shuffledPieces !! i = Some url ->
        exists before name,
          order shuffledPieces !! i = Some name
          /\ url = before +:+ name
          /\ (before = "" \/ exists b, before = b +:+ "/"))
  /\ (forall (i : nat) (directory name : string),
        free_of "/" name = true ->
        shuffledPieces !! i = Some (directory +:+ "/" +:+ name) ->
        order shuffledPieces !! i = Some name)
  /\ (forall rearranged : list string,
        rearranged ≡ₚ shuffledPieces -> order rearranged ≡ₚ order shuffledPieces).
Proof.
  unfold order. split; [by rewrite length_map|].
  split.
  { apply Forall_lookup. intros i name. rewrite lookup_map.
    destruct (shuffledPieces !! i) as [url|]; [|done]. cbn. intros [= <-].
    destruct (split_last "/" url) as (before & name & -> & _ & Hfree & _).
    by rewrite or_string_empty. }
  split.
  { intros i url Hi. rewrite lookup_map, Hi. cbn.
    destruct (split_last "/" url) as (before & name & -> & Hurl & _ & Hbefore).
    exists before, name. by rewrite or_string_empty. }
  split.
  { intros i directory name Hfree Hi. rewrite lookup_map, Hi. cbn.
    change ("/" +:+ name) with (String "/" name).
    by rewrite split_last_after, or_string_empty. }
  intros rearranged Hperm. by apply Permutation_map.
Qed.

(** ** The [App] component of App.tsx *)

Section AppTsxFacts.

Import App.

Variable random : oracle.
Hypothesis random_range : in_unit_interval random.

Lemma shuffled_Permutation {T : Type} (k : nat) (array : list T) :
  exists arr,
    Shuffle.shuffled random k array = Some (arr, (k + (length array - 1))%nat)
    /\ arr ≡ₚ array.
Proof.
  eexists. split; [by apply shuffled_fisher_yates|].
  apply fisher_yates_Permutation; [done|].
  intros i _. by apply chosen_le.
Qed.

Lemma handleShuffle_spec (k : nat) (st : State) :
  exists arr,
    AppTsx.handleShuffle random k st
    = Some (setRebuiltUrl None (setShuffledPieces arr st),
            (k + (length (shuffledPieces st) - 1))%nat)
    /\ arr ≡ₚ shuffledPieces st.
Proof.
  unfold AppTsx.handleShuffle.
  destruct (shuffled_Permutation k (shuffledPieces st)) as (arr & -> & Hperm).
  by exists arr.
Qed.

End AppTsxFacts.

(** [handleShuffle] rearranges the shuffled pieces and nothing else:
    with [Math.random()] in [[0, 1)] the new [shuffledPieces] is a
    permutation of the old one, drawn with one call for each piece but one;
    [pieces], the index of the browser, [shattered] and the error are kept,
    the rebuilt image is dropped, and the [order] of the next rebuild is a
    permutation of the order before. *)
Theorem handleShuffle_rearranges (random : oracle) (k : nat) (st : App.State) :
  in_unit_interval random ->
  exists st',
    AppTsx.handleShuffle random k st
    = Some (st', (k + (length (App.shuffledPieces st) - 1))%nat)
    /\ App.shuffledPieces st' ≡ₚ App.shuffledPieces st
    /\ length (App.shuffledPieces st') = length (App.shuffledPieces st)
    /\ App.pieces st' = App.pieces st
    /\ App.currentPieceIndex st' = App.currentPieceIndex st
    /\ App.shattered st' = App.shattered st
    /\ App.error st' = App.error st
    /\ App.rebuiltUrl st' = None
    /\ snd (AppTsx.handleRebuild_request st') ≡ₚ snd (AppTsx.handleRebuild_request st).
Proof.
  intros Hrandom.
  destruct (handleShuffle_spec random Hrandom k st) as (arr & -> & Hperm).
  eexists. split; [reflexivity|].
  split; [done|]. split; [exact (Permutation_length Hperm)|].
  split; [done|]. split; [done|]. split; [done|]. split; [done|]. split; [done|].
  cbn. by apply Permutation_map.
Qed.

Lemma handleShuffle_rearranges_witness :
  in_unit_interval always_half
  /\ exists st',
       AppTsx.handleShuffle always_half 0 (App.setShuffledPieces ["a"; "b"; "c"] App.initial)
       = Some (st', (0 + (length (App.shuffledPieces
                                    (App.setShuffledPieces ["a"; "b"; "c"] App.initial)) - 1))%nat)
       /\ App.shuffledPieces st'
          ≡ₚ App.shuffledPieces (App.setShuffledPieces ["a"; "b"; "c"] App.initial)
       /\ length (App.shuffledPieces st')
          = length (App.shuffledPieces (App.setShuffledPieces ["a"; "b"; "c"] App.initial))
       /\ App.pieces st' = App.pieces (App.setShuffledPieces ["a"; "b"; "c"] App.initial)
       /\ App.currentPieceIndex st'
          = App.currentPieceIndex (App.setShuffledPieces ["a"; "b"; "c"] App.initial)
       /\ App.shattered st' = App.shattered (App.setShuffledPieces ["a"; "b"; "c"] App.initial)
       /\ App.error st' = App.error (App.setShuffledPieces ["a"; "b"; "c"] App.initial)
       /\ App.rebuiltUrl st' = None
       /\ snd (AppTsx.handleRebuild_request st')
          ≡ₚ snd (AppTsx.handleRebuild_request
                    (App.setShuffledPieces ["a"; "b"; "c"] App.initial)).
Proof.
  split; [exact always_half_range|].
  apply (handleShuffle_rearranges always_half 0
           (App.setShuffledPieces ["a"; "b"; "c"] App.initial)).
  exact always_half_range.
Defined.

Section AppTsxInvariant.

Import App.

Variable random : oracle.
Hypothesis random_range : in_unit_interval random.

Lemma step_consistent (w : World) (e : AppTsx.Event) :
  consistent (state w) ->
  exists w', AppTsx.step random w e = Some w' /\ consistent (state w').
Proof.
  intros [Hpieces Hupload Hpreview].
  destruct e as [file url|file| | |n res| |n res| | |res|]; cbn [AppTsx.step].
  - eexists. split; [reflexivity|]. by split; cbn; [|right|].
  - eexists. split; [reflexivity|]. by split; cbn; [|left|].
  - eexists. split; [reflexivity|]. by split; cbn; [|left|].
  - eexists. split; [reflexivity|].
    unfold handleShatter_request. cbn [state].
    generalize (uploadedFile (state w)) at 1. intros [f|]; by split.
  - eexists. split; [reflexivity|].
    unfold handleShatter_response. cbn [state].
    destruct res as [data|]; [|by split].
    destruct (Data.pieces data); [|by split]. destruct (_ =? _)%nat; by split.
  - eexists. split; [reflexivity|].
    unfold handleLoadZipPieces_request. cbn [state].
    generalize (uploadedZipFile (state w)) at 1. intros [f|]; by split.
  - eexists. split; [reflexivity|].
    unfold handleLoadZipPieces_response. cbn [state].
    destruct res as [data|]; [|by split].
    destruct (Data.pieces data); [|by split]. destruct (_ =? _)%nat; by split.
  - destruct (handleShuffle_spec random random_range (randomCalls w) (state w))
      as (arr & -> & Hperm).
    eexists. split; [reflexivity|]. split; cbn; [|done..]. by rewrite Hperm.
  - eexists. split; [reflexivity|]. by split.
  - eexists. split; [reflexivity|].
    unfold AppTsx.handleRebuild_response. cbn [state].
    destruct res as [data|]; [|by split].
    destruct (Data.rebuilt data); [|by split]. destruct (decide _); by split.
  - eexists. split; [reflexivity|]. by split.
Qed.

Lemma run_consistent (w : World) (es : list AppTsx.Event) :
  consistent (state w) ->
  exists w', AppTsx.run random w es = Some w' /\ consistent (state w').
Proof.
  revert w. induction es as [|e es IH]; intros w Hw; cbn [AppTsx.run].
  - by exists w.
  - destruct (step_consistent w e Hw) as (w1 & -> & Hw1). by apply IH.
Qed.

End AppTsxInvariant.

Lemma app_mounted_consistent : consistent (App.state app_mounted).
Proof. by split; cbn; [|left|]. Qed.

(** In the component of App.tsx the shuffled pieces are always the
    pieces that the service sent, in some order: whatever the user and the
    service do, in any order (uploads, reset, shatter and zip requests and
    their answers, shuffles, rebuilds, failed downloads), with
    [Math.random()] in [[0, 1)] no handler fails and [shuffledPieces] is a
    permutation of [pieces]. *)
Theorem shuffled_pieces_are_the_pieces (random : oracle) (es : list AppTsx.Event) :
  in_unit_interval random ->
  exists w,
    AppTsx.run random app_mounted es = Some w
    /\ App.shuffledPieces (App.state w) ≡ₚ App.pieces (App.state w)
    /\ length (App.shuffledPieces (App.state w)) = length (App.pieces (App.state w)).
Proof.
  intros Hrandom.
  destruct (run_consistent random Hrandom app_mounted es app_mounted_consistent)
    as (w & Hrun & [Hpieces _ _]).
  exists w. split; [done|]. split; [done|]. exact (Permutation_length Hpieces).
Qed.

Lemma shuffled_pieces_are_the_pieces_witness :
  in_unit_interval always_half
  /\ exists w,
       AppTsx.run always_half app_mounted app_session = Some w
       /\ App.shuffledPieces (App.state w) ≡ₚ App.pieces (App.state w)
       /\ length (App.shuffledPieces (App.state w)) = length (App.pieces (App.state w)).
Proof.
  split; [exact always_half_range|].
  apply (shuffled_pieces_are_the_pieces always_half app_session). exact always_half_range.
Defined.

(** The component of App.tsx never holds both an image and a zip
    file, and it shows a preview exactly while it holds an image: after
    any events, one of [uploadedFile] and [uploadedZipFile] is [null],
    [originalImage] is [null] exactly when [uploadedFile] is, and so at
    least one of [handleShatter] and [handleLoadZipPieces] refuses to send
    its request. *)
Theorem one_upload_at_a_time (random : oracle) (es : list AppTsx.Event) :
  in_unit_interval random ->
  exists w,
    AppTsx.run random app_mounted es = Some w
    /\ (App.uploadedFile (App.state w) = None \/ App.uploadedZipFile (App.state w) = None)
    /\ (App.originalImage (App.state w) = None <-> App.uploadedFile (App.state w) = None)
    /\ (snd (App.handleShatter_request (App.state w)) = false
        \/ snd (App.handleLoadZipPieces_request (App.state w)) = false).
Proof.
  intros Hrandom.
  destruct (run_consistent random Hrandom app_mounted es app_mounted_consistent)
    as (w & Hrun & [_ Hupload Hpreview]).
  exists w. split; [done|]. split; [done|]. split; [done|].
  unfold App.handleShatter_request, App.handleLoadZipPieces_request.
  destruct Hupload as [-> | ->]; [by left|by right].
Qed.

Lemma one_upload_at_a_time_witness :
  in_unit_interval always_half
  /\ exists w,
       AppTsx.run always_half app_mounted app_session = Some w
       /\ (App.uploadedFile (App.state w) = None
           \/ App.uploadedZipFile (App.state w) = None)
       /\ (App.originalImage (App.state w) = None
           <-> App.uploadedFile (App.state w) = None)
       /\ (snd (App.handleShatter_request (App.state w)) = false
           \/ snd (App.handleLoadZipPieces_request (App.state w)) = false).
Proof.
  split; [exact always_half_range|].
  apply (one_upload_at_a_time always_half app_session). exact always_half_range.
Defined.

(** ** Requests for pieces *)

Lemma or_string_not_empty (a : option string) (b : string) :
  b <> "" -> App.or_string a b <> "".
Proof.
  intros Hb. unfold App.or_string. destruct a as [s|]; [|done].
  by destruct (decide (s = "")).
Qed.

(** [handleShatter] and [handleLoadZipPieces] end in one of two
    ways.  Without a file they send nothing and set the error that asks for
    one.  With a file they start loading with no error, and after any
    answer, or a failed request, the component is not loading and either
    holds the pieces of the answer, as many as were asked for, shattered
    and with no error, or holds an error message that is not empty and the
    pieces, the shuffled pieces and [shattered] that it had. *)
Theorem requests_for_pieces_load_or_fail (st : App.State) (pieceCount : nat)
  (res : App.Fetched) :
  (App.uploadedFile st = None ->
   App.handleShatter_request st
   = (App.setError (Some "Please upload an image first") st, false))
  /\ (App.uploadedZipFile st = None ->
      App.handleLoadZipPieces_request st
      = (App.setError (Some "Please upload a zip file first") st, false))
  /\ (forall file, App.uploadedFile st = Some file ->
      exists sent,
        App.handleShatter_request st = (sent, true)
        /\ App.loading sent = true /\ App.showGame sent = true
        /\ App.error sent = None
        /\ loaded_or_failed pieceCount res st
             (App.handleShatter_response pieceCount res sent))
  /\ (forall file, App.uploadedZipFile st = Some file ->
      exists sent,
        App.handleLoadZipPieces_request st = (sent, true)
        /\ App.loading sent = true /\ App.showGame sent = true
        /\ App.error sent = None
        /\ loaded_or_failed pieceCount res st
             (App.handleLoadZipPieces_response pieceCount res sent)).
Proof.
  split; [intros Hfile; unfold App.handleShatter_request; by rewrite Hfile|].
  split; [intros Hfile; unfold App.handleLoadZipPieces_request; by rewrite Hfile|].
  split.
  - intros file Hfile. unfold App.handleShatter_request. rewrite Hfile.
    eexists. split; [reflexivity|]. split; [done|]. split; [done|]. split; [done|].
    unfold loaded_or_failed, App.handleShatter_response.
    destruct res as [data|].
    + destruct (App.Data.pieces data) as [ps|] eqn:Hps.
      * destruct (Nat.eqb_spec (length ps) pieceCount) as [Hlen|Hlen].
        -- split; [done|]. split; [done|]. left. by exists data, ps.
        -- split; [done|]. split; [done|]. right. eexists. by split.
      * split; [done|]. split; [done|]. right. eexists. split; [reflexivity|].
        split; [by apply or_string_not_empty|done].
    + split; [done|]. split; [done|]. right. eexists. by split.
  - intros file Hfile. unfold App.handleLoadZipPieces_request. rewrite Hfile.
    eexists. split; [reflexivity|]. split; [done|]. split; [done|]. split; [done|].
    unfold loaded_or_failed, App.handleLoadZipPieces_response.
    destruct res as [data|].
    + destruct (App.Data.pieces data) as [ps|] eqn:Hps.
      * destruct (Nat.eqb_spec (length ps) pieceCount) as [Hlen|Hlen].
        -- split; [done|]. split; [done|]. left. by exists data, ps.
        -- split; [done|]. split; [done|]. right. eexists. by split.
      * split; [done|]. split; [done|]. right. eexists. split; [reflexivity|].
        split; [by apply or_string_not_empty|done].
    + split; [done|]. split; [done|]. right. eexists. by split.
Qed.

(** ** The first [App] component *)

Section LegacyFacts.

Import LegacyApp.

Variable random : oracle.
Hypothesis random_range : in_unit_interval random.

Lemma legacy_step_consistent (w : World) (e : Event) :
  legacy_consistent (state w) ->
  exists w', step random w e = Some w' /\ legacy_consistent (state w').
Proof.
  intros [Hperm Hlen].
  destruct e as [files|res| | |res| |piece|]; cbn [step].
  - eexists. split; [reflexivity|]. destruct files; [done|]. split; [done|by left].
  - eexists. split; [reflexivity|]. unfold handleUpload_response.
    destruct res as [data|]; [|done].
    destruct (App.Data.pieces data) as [ps|]; [|done].
    destruct (Nat.eqb_spec (length ps) 50); [|done]. split; [done|by right].
  - unfold handleShuffle.
    destruct (shuffled_Permutation random random_range (randomCalls w)
                (shuffledPieces (state w))) as (arr & -> & Harr).
    eexists. split; [reflexivity|]. split; [|done]. cbn. by rewrite Harr.
  - eexists. by split.
  - eexists. split; [reflexivity|]. unfold handleRebuild_response.
    destruct res as [data|]; [|done].
    destruct (App.Data.rebuilt data); [|done]. by destruct (decide _).
  - eexists. by split.
  - eexists. by split.
  - eexists. by split.
Qed.

Lemma legacy_run_consistent (w : World) (es : list Event) :
  legacy_consistent (state w) ->
  exists w', run random w es = Some w' /\ legacy_consistent (state w').
Proof.
  revert w. induction es as [|e es IH]; intros w Hw; cbn [run].
  - by exists w.
  - destruct (legacy_step_consistent w e Hw) as (w1 & -> & Hw1). by apply IH.
Qed.

End LegacyFacts.

(** The first [App] component holds no pieces or exactly 50, and
    its shuffled pieces are these pieces in some order: after any events
    (uploads and their answers, shuffles, rebuilds, failed downloads, the
    modal), with [Math.random()] in [[0, 1)], no handler fails,
    [shuffledPieces] is a permutation of [pieces], and [pieces] is empty or
    has 50 entries; so the grid, which is rendered when
    [pieces.length === 50], shows 50 pieces and a rebuild sends 50 names. *)
Theorem legacy_grid_shows_fifty_pieces (random : oracle) (es : list LegacyApp.Event) :
  in_unit_interval random ->
  exists w,
    LegacyApp.run random legacy_mounted es = Some w
    /\ LegacyApp.shuffledPieces (LegacyApp.state w) ≡ₚ LegacyApp.pieces (LegacyApp.state w)
    /\ (LegacyApp.pieces (LegacyApp.state w) = []
        \/ length (LegacyApp.pieces (LegacyApp.state w)) = 50%nat)
    /\ (LegacyApp.showsPieces (LegacyApp.state w) = true ->
        length (LegacyApp.shuffledPieces (LegacyApp.state w)) = 50%nat
        /\ length (snd (LegacyApp.handleRebuild_request (LegacyApp.state w))) = 50%nat).
Proof.
  intros Hrandom.
  destruct (legacy_run_consistent random Hrandom legacy_mounted es) as (w & Hrun & Hperm & Hlen).
  { split; [done|by left]. }
  exists w. split; [done|]. split; [done|]. split; [done|].
  unfold LegacyApp.showsPieces. intros Hshow%Nat.eqb_eq.
  pose proof (Permutation_length Hperm) as Hsame.
  split; [lia|]. cbn. unfold order. rewrite length_map. lia.
Qed.

Lemma legacy_grid_shows_fifty_pieces_witness :
  in_unit_interval always_half
  /\ exists w,
       LegacyApp.run always_half legacy_mounted legacy_session = Some w
       /\ LegacyApp.shuffledPieces (LegacyApp.state w)
          ≡ₚ LegacyApp.pieces (LegacyApp.state w)
       /\ (LegacyApp.pieces (LegacyApp.state w) = []
           \/ length (LegacyApp.pieces (LegacyApp.state w)) = 50%nat)
       /\ (LegacyApp.showsPieces (LegacyApp.state w) = true ->
           length (LegacyApp.shuffledPieces (LegacyApp.state w)) = 50%nat
           /\ length (snd (LegacyApp.handleRebuild_request (LegacyApp.state w))) = 50%nat).
Proof.
  split; [exact always_half_range|].
  apply (legacy_grid_shows_fifty_pieces always_half legacy_session).
  exact always_half_range.
Defined.

(** ** The memory game *)

Section MemoryGameFacts.

Import MemoryGame.

Variable random : oracle.
Hypothesis random_range : in_unit_interval random.

Lemma gamePieces_numbers : Forall (fun piece => (piece < 8)%nat) gamePieces.
Proof. repeat constructor. Qed.

Lemma fair_length (st : State) : fair st -> length (pieces st) = 16%nat.
Proof. intros [Hp _ _ _ _ _]. by rewrite Hp. Qed.

Lemma fair_lookup (st : State) (index : nat) :
  fair st -> (index < 16)%nat ->
  exists piece, pieces st !! index = Some piece /\ (piece < 8)%nat.
Proof.
  intros Hfair Hindex.
  destruct (lookup_lt_is_Some_2 (pieces st) index) as [piece Hpiece].
  { by rewrite fair_length. }
  exists piece. split; [done|].
  pose proof gamePieces_numbers as Hall. rewrite <- (fair_pieces st Hfair) in Hall.
  rewrite Forall_lookup in Hall. by eapply Hall.
Qed.

Lemma shuffled_gamePieces (k : nat) :
  exists arr,
    Shuffle.shuffled random k gamePieces = Some (arr, (k + 15)%nat)
    /\ arr ≡ₚ gamePieces.
Proof. apply (shuffled_Permutation random random_range k gamePieces). Qed.

Lemma tick_fair (st : State) : fair st -> fair (tick st).
Proof.
  intros [Hp Hs Hm Hn Hsel Ht]. unfold tick.
  destruct (gameActive st) eqn:Hactive; [|by split; rewrite ?Hactive].
  destruct (Nat.leb_spec (timeLeft st) 1); split; cbn; rewrite ?Hactive; try done; lia.
Qed.

Lemma click_fair (index : nat) (st : State) :
  fair st -> (index < 16)%nat ->
  exists st' timer, handlePieceClick index st = Some (st', timer) /\ fair st'.
Proof.
  intros Hfair Hindex. pose proof Hfair as [Hp Hs Hm Hn Hsel Ht].
  destruct (fair_lookup st index Hfair Hindex) as (piece & Hpiece & Hlt).
  unfold handlePieceClick. rewrite Hpiece.
  destruct (negb (gameActive st) || bool_decide (piece ∈ matchedPairs st)) eqn:Hskip;
    [by eexists _, _|].
  apply orb_false_iff in Hskip as [Hactive Hnew].
  apply negb_false_iff in Hactive. apply bool_decide_eq_false in Hnew.
  destruct (selectedPiece st) as [selected|] eqn:Hselected.
  - destruct (fair_lookup st selected Hfair (Hsel _ eq_refl)) as (other & -> & _).
    destruct (negb (selected =? index)%nat && (other =? piece)%nat); [|by eexists _, _].
    eexists _, _. split; [reflexivity|]. split; cbn; rewrite ?Hactive in *; try done.
    + rewrite length_app. cbn. lia.
    + apply NoDup_app. split; [done|]. split; [|apply NoDup_singleton].
      intros x Hx ->%list_elem_of_singleton. done.
    + apply Forall_app. split; [done|]. by constructor.
  - eexists _, _. split; [reflexivity|]. split; cbn; rewrite ?Hactive in *; try done.
    by intros ? [= <-].
Qed.

Lemma step_fair (w : World) (e : Event) :
  fair (state w) -> on_a_tile e ->
  exists w', step random w e = Some w' /\ fair (state w').
Proof.
  intros Hfair Htile. destruct e as [|index| |]; cbn [step].
  - eexists. split; [reflexivity|]. by apply tick_fair.
  - destruct (click_fair index (state w) Hfair Htile) as (st' & timer & -> & Hst').
    by eexists.
  - eexists. split; [reflexivity|]. destruct Hfair. by split.
  - unfold resetGame. destruct (shuffled_gamePieces (randomCalls w)) as (arr & -> & Harr).
    eexists. split; [reflexivity|]. split; cbn; try done; [constructor|lia].
Qed.

Lemma run_fair (w : World) (es : list Event) :
  fair (state w) -> Forall on_a_tile es ->
  exists w', run random w es = Some w' /\ fair (state w').
Proof.
  revert w. induction es as [|e es IH]; intros w Hw Hes; cbn [run].
  - by exists w.
  - apply Forall_cons in Hes as [He Hes].
    destruct (step_fair w e Hw He) as (w1 & -> & Hw1). by apply IH.
Qed.

Lemma started_fair (k : nat) :
  exists w, started random k = Some w /\ fair (state w) /\ randomCalls w = (k + 15)%nat.
Proof.
  unfold started, mountEffect.
  destruct (shuffled_gamePieces k) as (arr & -> & Harr).
  eexists. split; [reflexivity|]. split; [|done]. split; cbn; try done; [constructor|lia].
Qed.

End MemoryGameFacts.

Lemma matched_at_most_eight (l : list nat) :
  NoDup l -> Forall (fun piece => (piece < 8)%nat) l -> (length l <= 8)%nat.
Proof.
  intros Hnd Hall.
  assert (Hsub : l ⊆+ seq 0 8).
  { apply NoDup_submseteq; [done|]. intros x Hx. rewrite Forall_forall in Hall.
    apply list_elem_of_In, in_seq. specialize (Hall x Hx). lia. }
  apply submseteq_length in Hsub. by rewrite length_seq in Hsub.
Qed.

(** The memory game keeps its books: once its effect has run, after
    any ticks, clicks on its 16 tiles, timers and restarts, with
    [Math.random()] in [[0, 1)], the tiles are the numbers 0 to 7, each
    twice, in some order; no number is matched twice, so at most 8 are;
    the score is 10 for each matched number, so at most 80; and the time
    left is at most 30 and is 0 exactly when the game is over. *)
Theorem memory_game_keeps_its_books (random : oracle) (k : nat)
  (es : list MemoryGame.Event) :
  in_unit_interval random -> Forall MemoryGame.on_a_tile es ->
  exists w0 w,
    MemoryGame.started random k = Some w0
    /\ MemoryGame.run random w0 es = Some w
    /\ MemoryGame.pieces (MemoryGame.state w) ≡ₚ MemoryGame.gamePieces
    /\ NoDup (MemoryGame.matchedPairs (MemoryGame.state w))
    /\ (length (MemoryGame.matchedPairs (MemoryGame.state w)) <= 8)%nat
    /\ MemoryGame.score (MemoryGame.state w)
       = (10 * length (MemoryGame.matchedPairs (MemoryGame.state w)))%nat
    /\ (MemoryGame.score (MemoryGame.state w) <= 80)%nat
    /\ (MemoryGame.timeLeft (MemoryGame.state w) <= 30)%nat
    /\ (MemoryGame.gameActive (MemoryGame.state w) = false
        <-> MemoryGame.timeLeft (MemoryGame.state w) = 0%nat).
Proof.
  intros Hrandom Hes.
  destruct (started_fair random Hrandom k) as (w0 & Hstart & Hw0 & _).
  destruct (run_fair random Hrandom w0 es Hw0 Hes) as (w & Hrun & [Hp Hs Hm Hn Hsel Ht]).
  exists w0, w. split; [done|]. split; [done|]. split; [done|]. split; [done|].
  pose proof (matched_at_most_eight _ Hm Hn) as Hlen.
  split; [done|]. split; [done|]. split; [lia|].
  destruct (MemoryGame.gameActive (MemoryGame.state w)); split; try lia; done.
Qed.

Lemma memory_game_keeps_its_books_witness :
  in_unit_interval always_half
  /\ Forall MemoryGame.on_a_tile memory_session
  /\ exists w0 w,
       MemoryGame.started always_half 0 = Some w0
       /\ MemoryGame.run always_half w0 memory_session = Some w
       /\ MemoryGame.pieces (MemoryGame.state w) ≡ₚ MemoryGame.gamePieces
       /\ NoDup (MemoryGame.matchedPairs (MemoryGame.state w))
       /\ (length (MemoryGame.matchedPairs (MemoryGame.state w)) <= 8)%nat
       /\ MemoryGame.score (MemoryGame.state w)
          = (10 * length (MemoryGame.matchedPairs (MemoryGame.state w)))%nat
       /\ (MemoryGame.score (MemoryGame.state w) <= 80)%nat
       /\ (MemoryGame.timeLeft (MemoryGame.state w) <= 30)%nat
       /\ (MemoryGame.gameActive (MemoryGame.state w) = false
           <-> MemoryGame.timeLeft (MemoryGame.state w) = 0%nat).
Proof.
  assert (Htiles : Forall MemoryGame.on_a_tile memory_session).
  { repeat constructor; cbn; lia. }
  split; [exact always_half_range|]. split; [exact Htiles|].
  apply (memory_game_keeps_its_books always_half 0 memory_session);
    [exact always_half_range|exact Htiles].
Defined.

Section MemoryGameTimer.

Import MemoryGame.

Variable random : oracle.
Hypothesis random_range : in_unit_interval random.

Lemma run_clock (w : World) (es : list Event) (c : nat) :
  fair (state w) -> clock c (state w) ->
  Forall on_a_tile es -> no_reset es ->
  exists w', run random w es = Some w'
             /\ fair (state w') /\ clock (c + ticks es) (state w').
Proof.
  revert w c. induction es as [|e es IH]; intros w c Hfair Hclock Htiles Hno; cbn [run].
  - exists w. by rewrite Nat.add_0_r.
  - apply Forall_cons in Htiles as [He Htiles]. apply Forall_cons in Hno as [Hne Hno].
    destruct (step_fair random random_range w e Hfair He) as (w1 & Hstep & Hw1).
    rewrite Hstep.
    assert (Hclock1 : clock (c + ticks [e]) (state w1)).
    { destruct Hclock as [Htime Hactive].
      destruct e as [|index| |]; cbn [step ticks] in *.
      - injection Hstep as <-. cbn [state]. unfold tick, clock. rewrite Hactive.
        destruct (Nat.ltb_spec c 30) as [Hc|Hc].
        + destruct (Nat.leb_spec (timeLeft (state w)) 1) as [Hlast|Hmore];
            cbn [timeLeft gameActive].
          * split; [lia|]. symmetry. apply Nat.ltb_ge. lia.
          * split; [lia|]. symmetry. apply Nat.ltb_lt. lia.
        + split; [lia|]. rewrite Hactive. symmetry. apply Nat.ltb_ge. lia.
      - unfold handlePieceClick in Hstep.
        destruct (pieces (state w) !! index) as [piece|]; [|done].
        destruct (negb _ || _).
        { injection Hstep as <-. by rewrite Nat.add_0_r. }
        destruct (selectedPiece (state w)) as [selected|].
        + destruct (pieces (state w) !! selected) as [other|]; [|done].
          destruct (negb _ && _); injection Hstep as <-; by rewrite Nat.add_0_r.
        + injection Hstep as <-. by rewrite Nat.add_0_r.
      - injection Hstep as <-. by rewrite Nat.add_0_r.
      - done. }
    destruct (IH w1 (c + ticks [e])%nat Hw1 Hclock1 Htiles Hno) as (w' & Hrun & Hw' & Hclock').
    exists w'. split; [done|]. split; [done|].
    replace (c + ticks (e :: es))%nat with (c + ticks [e] + ticks es)%nat; [done|].
    destruct e; cbn; lia.
Qed.

(** When the game is over a click, a tick or a timer changes neither the
    score nor the matched numbers. *)
Lemma run_over (w : World) (es : list Event) :
  fair (state w) -> gameActive (state w) = false ->
  Forall on_a_tile es -> no_reset es ->
  exists w', run random w es = Some w'
             /\ fair (state w')
             /\ gameActive (state w') = false
             /\ score (state w') = score (state w)
             /\ matchedPairs (state w') = matchedPairs (state w).
Proof.
  revert w. induction es as [|e es IH]; intros w Hfair Hover Htiles Hno; cbn [run].
  - by exists w.
  - apply Forall_cons in Htiles as [He Htiles]. apply Forall_cons in Hno as [Hne Hno].
    destruct (step_fair random random_range w e Hfair He) as (w1 & Hstep & Hw1).
    rewrite Hstep.
    assert (Hsame : gameActive (state w1) = false
                    /\ score (state w1) = score (state w)
                    /\ matchedPairs (state w1) = matchedPairs (state w)).
    { destruct e as [|index| |]; cbn [step] in Hstep.
      - injection Hstep as <-. cbn [state]. unfold tick. by rewrite Hover.
      - unfold handlePieceClick in Hstep. rewrite Hover in Hstep.
        destruct (pieces (state w) !! index) as [piece|]; [|done].
        cbn in Hstep. by injection Hstep as <-.
      - by injection Hstep as <-.
      - done. }
    destruct Hsame as (Hover1 & Hscore1 & Hmatched1).
    destruct (IH w1 Hw1 Hover1 Htiles Hno) as (w' & Hrun & Hw' & Hover' & Hscore' & Hmatched').
    exists w'. split; [done|]. split; [done|]. split; [done|]. split; congruence.
Qed.

End MemoryGameTimer.

(** The memory game is over after 30 ticks of its timer: without a
    restart, after any ticks, clicks and timers of which [c] are ticks, the
    time left is [30 - c] and the game is active exactly when [c < 30];
    and once it is over, no click, tick or timer changes the score or the
    matched numbers. *)
Theorem memory_game_is_over_after_thirty_ticks (random : oracle) (k : nat)
  (es later : list MemoryGame.Event) :
  in_unit_interval random ->
  Forall MemoryGame.on_a_tile es -> MemoryGame.no_reset es ->
  Forall MemoryGame.on_a_tile later -> MemoryGame.no_reset later ->
  exists w0 w,
    MemoryGame.started random k = Some w0
    /\ MemoryGame.run random w0 es = Some w
    /\ MemoryGame.timeLeft (MemoryGame.state w) = (30 - MemoryGame.ticks es)%nat
    /\ MemoryGame.gameActive (MemoryGame.state w) = (MemoryGame.ticks es <? 30)%nat
    /\ ((30 <= MemoryGame.ticks es)%nat ->
        exists w',
          MemoryGame.run random w later = Some w'
          /\ MemoryGame.gameActive (MemoryGame.state w') = false
          /\ MemoryGame.score (MemoryGame.state w') = MemoryGame.score (MemoryGame.state w)
          /\ MemoryGame.matchedPairs (MemoryGame.state w')
             = MemoryGame.matchedPairs (MemoryGame.state w)).
Proof.
  intros Hrandom Hes Hno Hlater Hnolater.
  destruct (started_fair random Hrandom k) as (w0 & Hstart & Hw0 & _).
  assert (Hclock0 : clock 0 (MemoryGame.state w0)).
  { unfold MemoryGame.started, MemoryGame.mountEffect in Hstart.
    destruct (Shuffle.shuffled random k MemoryGame.gamePieces) as [[arr k']|]; [|done].
    by injection Hstart as <-. }
  destruct (run_clock random Hrandom w0 es 0 Hw0 Hclock0 Hes Hno)
    as (w & Hrun & Hw & Htime & Hactive).
  exists w0, w. split; [done|]. split; [done|]. split; [done|]. split; [done|].
  intros Hover.
  assert (Hover' : MemoryGame.gameActive (MemoryGame.state w) = false).
  { rewrite Hactive. apply Nat.ltb_ge. lia. }
  destruct (run_over random Hrandom w later Hw Hover' Hlater Hnolater)
    as (w' & Hrun' & _ & Hover'' & Hscore & Hmatched).
  by exists w'.
Qed.

Lemma memory_game_is_over_after_thirty_ticks_witness :
  in_unit_interval always_half
  /\ Forall MemoryGame.on_a_tile memory_clicks /\ MemoryGame.no_reset memory_clicks
  /\ Forall MemoryGame.on_a_tile memory_clicks /\ MemoryGame.no_reset memory_clicks
  /\ exists w0 w,
       MemoryGame.started always_half 0 = Some w0
       /\ MemoryGame.run always_half w0 memory_clicks = Some w
       /\ MemoryGame.timeLeft (MemoryGame.state w)
          = (30 - MemoryGame.ticks memory_clicks)%nat
       /\ MemoryGame.gameActive (MemoryGame.state w)
          = (MemoryGame.ticks memory_clicks <? 30)%nat
       /\ ((30 <= MemoryGame.ticks memory_clicks)%nat ->
           exists w',
             MemoryGame.run always_half w memory_clicks = Some w'
             /\ MemoryGame.gameActive (MemoryGame.state w') = false
             /\ MemoryGame.score (MemoryGame.state w')
                = MemoryGame.score (MemoryGame.state w)
             /\ MemoryGame.matchedPairs (MemoryGame.state w')
                = MemoryGame.matchedPairs (MemoryGame.state w)).
Proof.
  assert (Htiles : Forall MemoryGame.on_a_tile memory_clicks).
  { repeat constructor; cbn; lia. }
  assert (Hno : MemoryGame.no_reset memory_clicks).
  { repeat constructor; discriminate. }
  split; [exact always_half_range|].
  split; [exact Htiles|]. split; [exact Hno|]. split; [exact Htiles|]. split; [exact Hno|].
  apply (memory_game_is_over_after_thirty_ticks always_half 0 memory_clicks memory_clicks);
    [exact always_half_range|exact Htiles|exact Hno|exact Htiles|exact Hno].
Defined.

(** What the game does with [always_half]: the tiles 0 and 2 show the
    same number, and clicking them one after the other scores. *)
Example memory_game_match :
  exists w0 w,
    MemoryGame.started always_half 0 = Some w0
    /\ MemoryGame.run always_half w0 [MemoryGame.Click 0; MemoryGame.Click 2] = Some w
    /\ MemoryGame.pieces (MemoryGame.state w0)
       = [0; 4; 0; 6; 1; 5; 1; 7; 2; 5; 2; 6; 3; 7; 3; 4]%nat
    /\ MemoryGame.score (MemoryGame.state w) = 10%nat
    /\ MemoryGame.matchedPairs (MemoryGame.state w) = [0%nat].
Proof. eexists _, _. repeat split; reflexivity. Qed.

(** ** The dice game *)

Section DiceGameFacts.

Import DiceGame.

Variable random : oracle.
Hypothesis random_range : in_unit_interval random.

Lemma die_range (k : nat) : (1 <= die random k <= 6)%Z.
Proof.
  destruct (random_range k) as [H0 H1]. unfold die.
  assert (Hlo : (0 <= Qfloor (random k * 6))%Z).
  { change 0%Z with (Qfloor 0). apply Qfloor_resp_le. lra. }
  assert (Hhi : (Qfloor (random k * 6) < 6)%Z).
  { rewrite Zlt_Qlt. eapply Qle_lt_trans; [apply Qfloor_le|].
    change (inject_Z 6) with 6. lra. }
  lia.
Qed.

Lemma step_fairly (w : World) (e : Event) :
  rolling_fairly w -> rolling_fairly (step random w e).
Proof.
  intros Hw. destruct e as [|i]; cbn [step].
  - unfold rollDice. destruct (isRolling (state w)) eqn:Hr; [exact Hw|].
    destruct Hw as [Hd1 Hd2 Ht Hidle Hrolling].
    destruct (Hidle Hr) as [Hnone Hsum].
    split; cbn; try done. intros _. exists 0%nat. rewrite Hnone. split; [done|lia].
  - unfold rollInterval.
    destruct (intervals w !! i) as [rollDuration|] eqn:Hi; [|exact Hw].
    destruct Hw as [Hd1 Hd2 Ht Hidle Hrolling].
    destruct (isRolling (state w)) eqn:Hr.
    + destruct (Hrolling eq_refl) as (d & Hone & Hd). rewrite Hone in Hi.
      destruct i as [|i]; [|by destruct i]. injection Hi as <-.
      pose proof (die_range (randomCalls w)).
      pose proof (die_range (S (randomCalls w))).
      pose proof (die_range (S (S (randomCalls w)))).
      pose proof (die_range (S (S (S (randomCalls w))))).
      destruct (Nat.leb_spec 1000 (d + 100)).
      * split; cbn; try done; try lia. intros _. by rewrite Hone.
      * split; cbn; try done. intros _. exists (d + 100)%nat. by rewrite Hone.
    + destruct (Hidle eq_refl) as [Hnone _]. by rewrite Hnone in Hi.
Qed.

Lemma run_fairly (w : World) (es : list Event) :
  rolling_fairly w -> rolling_fairly (run random w es).
Proof.
  revert w. induction es as [|e es IH]; intros w Hw; [done|].
  cbn. apply IH. by apply step_fairly.
Qed.

End DiceGameFacts.

Lemma mounted_fairly (k : nat) : rolling_fairly (DiceGame.mounted k).
Proof. split; cbn; try done. Qed.

Lemma face_of_a_die (number : Z) :
  (1 <= number <= 6)%Z ->
  exists dots,
    DiceGame.getDiceFace number = Some dots
    /\ Z.of_nat (length dots) = number
    /\ NoDup (map DiceGame.key dots)
    /\ Forall (fun dot => 0 < DiceGame.top dot /\ DiceGame.top dot < 100
                          /\ 0 < DiceGame.left dot /\ DiceGame.left dot < 100) dots.
Proof.
  intros Hn.
  assert (Hcases : number = 1%Z \/ number = 2%Z \/ number = 3%Z
                   \/ number = 4%Z \/ number = 5%Z \/ number = 6%Z) by lia.
  destruct Hcases as [-> | [-> | [-> | [-> | [-> | ->]]]]];
    (eexists; split; [reflexivity|]; split; [reflexivity|]; split;
     [apply (bool_decide_unpack _); by vm_compute
     |repeat constructor; reflexivity]).
Qed.





(** ** The end of an animation of [ReconstructionAnimation] *)

(** [ReconstructionAnimation] scatters its pieces again as soon as
    an animation is complete: the frame that completes the animation, at
    2000 ms or later, sets [isAnimating] to [false]; the effect on
    [isAnimating], which does nothing while the animation runs, then runs
    and replaces the positions of the frame, the final ones, by the
    positions of a new scatter, one for each piece and inside the
    container, with [Math.random()] in [[0, 1)]. *)
Theorem completed_animation_is_scattered_again (random : oracle) (fuel : nat)
  (p : ReconstructionAnimation.Props) (r : ReconstructionAnimation.Run)
  (st : ReconstructionAnimation.State) (t0 t1 : Q) (k : nat) :
  in_unit_interval random -> (Scatter.maxAttempts <= fuel)%nat ->
  ReconstructionAnimation.startTime r = Fin t0 ->
  ReconstructionAnimation.isAnimating st = true ->
  2000 <= t1 - t0 ->
  ReconstructionEffect.scatterEffect random fuel p k st = Some (st, k)
  /\ ReconstructionAnimation.completed (ReconstructionAnimation.animate r (Fin t1) st) = true
  /\ ReconstructionAnimation.isAnimating
       (ReconstructionAnimation.after (ReconstructionAnimation.animate r (Fin t1) st))
     = false
  /\ exists positions log k',
       ReconstructionAnimation.scatter random fuel (ReconstructionAnimation.pieces p) k
       = Some (positions, log, k')
       /\ ReconstructionEffect.scatterEffect random fuel p k
            (ReconstructionAnimation.after (ReconstructionAnimation.animate r (Fin t1) st))
          = Some ({| ReconstructionAnimation.positions := positions;
                     ReconstructionAnimation.isAnimating := false;
                     ReconstructionAnimation.animationProgress :=
                       ReconstructionAnimation.animationProgress
                         (ReconstructionAnimation.after
                            (ReconstructionAnimation.animate r (Fin t1) st)) |}, k')
       /\ length positions = length (ReconstructionAnimation.pieces p)
       /\ Forall (inside_container 800 600 150) positions.
Proof.
  intros Hrandom Hfuel Hstart Hanim Hfull.
  split; [unfold ReconstructionEffect.scatterEffect; by rewrite Hanim|].
  destruct (progress_Fin (t1 + - t0)) as (q & Hq & _).
  destruct (animate_again r st t0 t1 q Hstart Hq) as (_ & Hcompleted & Hafter).
  assert (Hend : (Fin q <? Fin 1)%js = false).
  { apply lt_Fin_false. rewrite (progress_full _ _ Hq Hfull). apply Qle_refl. }
  rewrite Hend in Hcompleted, Hafter. rewrite andb_false_r in Hafter.
  split; [done|]. split; [done|].
  destruct (scatter_has_outcome 800 600 150 5 random
              (ReconstructionAnimation.pieces p) k fuel Hfuel)
    as (positions & log & k' & Hrun & Hlen & _).
  exists positions, log, k'. split; [exact Hrun|].
  change (Scatter.scatter 800 600 150 5 random fuel (ReconstructionAnimation.pieces p) k)
    with (ReconstructionAnimation.scatter random fuel (ReconstructionAnimation.pieces p) k)
    in Hrun.
  split.
  { unfold ReconstructionEffect.scatterEffect. rewrite Hafter. cbn [negb].
    by rewrite Hrun. }
  split; [done|].
  eapply (for_pieces_inside 800 600 150 5 random Hrandom); [done|done|exact Hrun|done].
Qed.

Lemma completed_animation_is_scattered_again_witness :
  in_unit_interval always_half /\ (Scatter.maxAttempts <= 1000)%nat
  /\ ReconstructionAnimation.startTime plain_run = Fin 0
  /\ ReconstructionAnimation.isAnimating animating_state = true
  /\ 2000 <= 2500 - 0
  /\ ReconstructionEffect.scatterEffect always_half 1000 pictured_grid 0 animating_state
     = Some (animating_state, 0%nat)
  /\ ReconstructionAnimation.completed
       (ReconstructionAnimation.animate plain_run (Fin 2500) animating_state) = true
  /\ ReconstructionAnimation.isAnimating
       (ReconstructionAnimation.after
          (ReconstructionAnimation.animate plain_run (Fin 2500) animating_state))
     = false
  /\ exists positions log k',
       ReconstructionAnimation.scatter always_half 1000
         (ReconstructionAnimation.pieces pictured_grid) 0
       = Some (positions, log, k')
       /\ ReconstructionEffect.scatterEffect always_half 1000 pictured_grid 0
            (ReconstructionAnimation.after
               (ReconstructionAnimation.animate plain_run (Fin 2500) animating_state))
          = Some ({| ReconstructionAnimation.positions := positions;
                     ReconstructionAnimation.isAnimating := false;
                     ReconstructionAnimation.animationProgress :=
                       ReconstructionAnimation.animationProgress
                         (ReconstructionAnimation.after
                            (ReconstructionAnimation.animate plain_run (Fin 2500)
                               animating_state)) |}, k')
       /\ length positions = length (ReconstructionAnimation.pieces pictured_grid)
       /\ Forall (inside_container 800 600 150) positions.
Proof.
  split; [exact always_half_range|]. split; [reflexivity|].
  split; [reflexivity|]. split; [reflexivity|]. split; [discriminate|].
  apply (completed_animation_is_scattered_again always_half 1000 pictured_grid plain_run
           animating_state 0 2500 0);
    first [exact always_half_range | reflexivity | discriminate].
Defined.

(** ** Instances of the lemmas above *)

Lemma shuffled_injective_witness :
  NoDup [10; 20; 30]%nat
  /\ Shuffle.chosen always_half 0 (length [10; 20; 30]%nat) 1
     = Shuffle.chosen always_half 7 (length [10; 20; 30]%nat) 1.
Proof.
  assert (Hnd : NoDup [10; 20; 30]%nat).
  { apply NoDup_ListNoDup. repeat constructor; cbn; lia. }
  split; [exact Hnd|].
  apply (shuffled_injective always_half always_half 0 7 [10; 20; 30]%nat
           always_half_range always_half_range Hnd).
  - reflexivity.
  - cbn. lia.
Defined.

Lemma scattered_pieces_middle_first_witness :
  exists p q log k',
    ScatteredPieces.scatter always_half 1000 ["piece_0.png"; "piece_1.png"] 0
    = Some ([p; q], log, k')
    /\ ~ Scatter.separated ScatteredPieces.pieceSizeScattered
           ScatteredPieces.padding p q.
Proof.
  apply (scattered_pieces_middle_first always_half 1000 always_half_range);
    reflexivity.
Defined.

Lemma overlay_places_from_centre_witness :
  exists style,
    App.renderPiece canvas_state 1
      {| App.piece := {| App.piece_index := 5; App.filename := "piece_5.png";
                         App.final_position := (Fin 400, Fin 300) |};
         App.scattered_position := (Fin 800, Fin 600);
         App.current_position := (Fin 0, Fin 0) |}
    = Some style
    /\ App.left style = Fin (0 * (800 / 1600) + 400)
    /\ App.top style = Fin (0 * (800 / 1600) + 300)
    /\ App.imageLeft style ≈ Fin (0 * (800 / 1600) + (800 - 400 * (800 / 1600)) / 2)
    /\ App.imageTop style ≈ Fin (0 * (800 / 1600) + (600 - 300 * (800 / 1600)) / 2).
Proof.
  apply (overlay_places_from_centre canvas_state large_canvas 1 _ 0 0 400 300
           (800 / 1600));
    first [reflexivity | discriminate].
Defined.
